(** * Moltslack coordination engine: a shallow embedding and its properties

    The development follows the TypeScript services of the repository:

    - [AuthService]      (src/services/auth-service.ts)
    - [RelayClient]      (src/relay/relay-client.ts)
    - [ChannelService]   (src/services/channel-service.ts)
    - [PresenceService]  (the presence service next to them)
    - [MessageService]   (the message service next to them)

    Mutable [Map]s become [gmap]s, [Set]s become [gset]s.  An operation
    takes the state of its service (and of the relay client it was
    built with) and returns it next to its outcome, a returned value or
    a thrown error; the clock and the uuid source are explicit arguments
    of the operations that read them, the clock being read once per
    call. *)

From Stdlib Require Import ZArith Ascii String List Bool Lia.
From stdpp Require Import base option list gmap strings fin_maps fin_sets pretty.

Local Open Scope string_scope.
Local Open Scope list_scope.
Local Open Scope Z_scope.

(** ** Outcomes of operations that may throw *)

Inductive Failure : Type :=
| PermissionDenied (msg : string)
| AlreadyExists (msg : string).

Inductive Outcome (A : Type) : Type :=
| Returned (a : A)
| Threw (e : Failure).

Arguments Returned {A} a.
Arguments Threw {A} e.

(** ** JavaScript string primitives used by the services *)

Module JsString.

(** The double-quote character, as a string. *)
Definition dquote : string := String (ascii_of_nat 34) EmptyString.

(** The backslash character, as a string. *)
Definition backslash : string := String (ascii_of_nat 92) EmptyString.

(** [s.endsWith(suffix)] *)
Definition endsWith (s suffix : string) : bool :=
  let n := String.length s in
  let m := String.length suffix in
  (m <=? n)%nat && String.eqb (substring (n - m) m s) suffix.

(** [s.startsWith(prefix)] *)
Definition startsWith (s pre : string) : bool := String.prefix pre s.

(** [s.slice(0, -1)]: everything but the last character. *)
Definition dropLast (s : string) : string :=
  substring 0 (String.length s - 1) s.

End JsString.

(** ** AuthService *)

Module AuthService.

Inductive Action : Type := read | write | admin.

Definition Action_eqb (a b : Action) : bool :=
  match a, b with
  | read, read | write, write | admin, admin => true
  | _, _ => false
  end.

Record Permission : Type := mkPermission {
  resource : string;
  actions : list Action;
}.

Record TokenPayload : Type := mkTokenPayload {
  agentId : string;
  agentName : string;
  permissions : list Permission;
  issuedAt : Z;
  expiresAt : Z;
}.

(** The part of an [Agent] that [generateToken] picks. *)
Record AgentIdentity : Type := mkAgentIdentity {
  agent_id : string;
  agent_name : string;
  agent_permissions : list Permission;
}.

(** A token produced by [jwt.sign(payload, secret, { expiresIn })]:
    the payload, the key it was signed with and the lifetime handed to
    the library (the service passes [tokenExpiry / 1000] seconds; the
    millisecond value is kept here). *)
Record Jwt : Type := mkJwt {
  jwt_payload : TokenPayload;
  jwt_key : string;
  jwt_lifetime_ms : Z;
}.

Record t : Type := mkAuthService {
  secret : string;
  tokenExpiry : Z;
}.

Definition DEFAULT_TOKEN_EXPIRY : Z := 24 * 60 * 60 * 1000.

(** [ValidationLimits.TOKEN_MAX_LIFETIME_SECONDS] of schemas/validation.ts,
    the documented 30 day ceiling. *)
Definition TOKEN_MAX_LIFETIME_SECONDS : Z := 30 * 24 * 60 * 60.

(** Numbers are IEEE doubles in the source and integers here.  On the
    integers of [Number.isSafeInteger] the two agree: a sum of safe
    integers that is itself safe is exact, and [n / 1000] is a whole
    number exactly when 1000 divides [n]. *)
Definition safeInteger (n : Z) : Prop := - 2 ^ 53 < n < 2 ^ 53.

(** [a || b] on strings: an absent or empty [a] selects [b]. *)
Definition orElse (a : option string) (b : string) : string :=
  match a with
  | Some s => if String.eqb s "" then b else s
  | None => b
  end.

(** [constructor(secret, tokenExpiry)]:
    [secret || process.env.JWT_SECRET || uuid()] and
    [tokenExpiry || DEFAULT_TOKEN_EXPIRY], so an absent or zero lifetime
    selects the default.  [envSecret] is the value of the environment
    variable and [uuid] what the uuid source returns. *)
Definition new (secret : option string) (tokenExpiry : option Z)
    (envSecret : option string) (uuid : string) : t :=
  {| secret := orElse secret (orElse envSecret uuid);
     tokenExpiry :=
       match tokenExpiry with
       | Some e => if e =? 0 then DEFAULT_TOKEN_EXPIRY else e
       | None => DEFAULT_TOKEN_EXPIRY
       end |}.

(** What [jwt.sign] does: it returns the token or throws an [Error]
    with a message. *)
Inductive Signed : Type :=
| Issued (token : Jwt)
| SignThrew (message : string).

(** [jwt.sign(payload, key, { expiresIn })] of the jsonwebtoken
    library for a payload object and a numeric [expiresIn], here
    [lifetime_ms / 1000]: the library throws for an empty key, and for
    an [expiresIn] that is not an integer. *)
Definition sign (payload : TokenPayload) (key : string) (lifetime_ms : Z)
    : Signed :=
  if String.eqb key "" then SignThrew "secretOrPrivateKey must have a value"
  else if lifetime_ms mod 1000 =? 0 then
    Issued {| jwt_payload := payload; jwt_key := key;
              jwt_lifetime_ms := lifetime_ms |}
  else
    SignThrew (JsString.dquote +:+ "expiresIn" +:+ JsString.dquote +:+
               " should be a number of seconds or string representing a timespan").

(** [generateToken(agent)], with [now] the value of [Date.now()]. *)
Definition generateToken (svc : t) (agent : AgentIdentity) (now : Z) : Signed :=
  let payload :=
    {| agentId := agent_id agent;
       agentName := agent_name agent;
       permissions := agent_permissions agent;
       issuedAt := now;
       expiresAt := now + tokenExpiry svc |} in
  sign payload (secret svc) (tokenExpiry svc).

(** [matchResource(pattern, resource)] *)
Definition matchResource (pattern res : string) : bool :=
  if String.eqb pattern "*" then true
  else if String.eqb pattern res then true
  else if JsString.endsWith pattern ":*" then
    let pre := JsString.dropLast pattern in
    JsString.startsWith res pre
  else false.

(** [actions.includes(a)] *)
Definition includes (acts : list Action) (a : Action) : bool :=
  existsb (Action_eqb a) acts.

(** [checkPermissions(permissions, resource, action)]: the [for] loop
    returns at the first permission that authorizes. *)
Fixpoint checkPermissions (perms : list Permission) (res : string)
    (action : Action) : bool :=
  match perms with
  | [] => false
  | perm :: rest =>
      if matchResource (resource perm) res then
        if includes (actions perm) action || includes (actions perm) admin
        then true
        else checkPermissions rest res action
      else checkPermissions rest res action
  end.

Definition createDefaultPermissions : list Permission :=
  [ {| resource := "channel:*"; actions := [read; write] |};
    {| resource := "message:*"; actions := [read; write] |};
    {| resource := "presence:*"; actions := [read; write] |} ].

Definition createAdminPermissions : list Permission :=
  [ {| resource := "*"; actions := [admin] |} ].

End AuthService.

(** ** Data models (schemas/models.ts) *)

Module Models.

Inductive ChannelType : Type := PUBLIC | PRIVATE | DIRECT | BROADCAST.

Inductive ChannelAccessLevel : Type := READ | WRITE | ADMIN.

Inductive PrincipalType : Type := principal_agent | principal_role | principal_all.

Record ChannelAccessRule : Type := mkRule {
  principal : string;
  principalType : PrincipalType;
  level : ChannelAccessLevel;
  rule_expiresAt : option string;
}.

Record ChannelMetadata : Type := mkChannelMetadata {
  displayName : string;
  topic : option string;
  purpose : option string;
  isArchived : bool;
  allowExternal : bool;
  retentionDays : option Z;
  custom : option (list (string * string));
}.

(** [Partial<ChannelMetadata>]: any subset of the fields. *)
Record PartialChannelMetadata : Type := mkPartialChannelMetadata {
  part_displayName : option string;
  part_topic : option string;
  part_purpose : option string;
  part_isArchived : option bool;
  part_allowExternal : option bool;
  part_retentionDays : option Z;
  part_custom : option (list (string * string));
}.

(** The object spread [{ ...base, ...updates }]. *)
Definition spreadMetadata (base : ChannelMetadata)
    (updates : option PartialChannelMetadata) : ChannelMetadata :=
  match updates with
  | None => base
  | Some u =>
      let over {A} (field : option A) (old : option A) : option A :=
        match field with Some x => Some x | None => old end in
      {| displayName := default (displayName base) (part_displayName u);
         topic := over (part_topic u) (topic base);
         purpose := over (part_purpose u) (purpose base);
         isArchived := default (isArchived base) (part_isArchived u);
         allowExternal := default (allowExternal base) (part_allowExternal u);
         retentionDays := over (part_retentionDays u) (retentionDays base);
         custom := over (part_custom u) (custom base) |}
  end.

Record Channel : Type := mkChannel {
  ch_id : string;
  ch_name : string;
  ch_projectId : string;
  ch_type : ChannelType;
  accessRules : list ChannelAccessRule;
  defaultAccess : option ChannelAccessLevel;
  ch_metadata : ChannelMetadata;
  ch_createdBy : string;
  ch_createdAt : string;
  memberCount : nat;
}.

Inductive MessageType : Type :=
| TEXT | SYSTEM | COMMAND | EVENT | FILE | REACTION | THREAD_REPLY.

Inductive MessageDeliveryStatus : Type :=
| PENDING | SENT | DELIVERED | READ_ | FAILED.

Inductive TargetType : Type := target_channel | target_agent | target_broadcast.

Inductive MentionType : Type := mention_agent | mention_channel | mention_all.

Record MessageMention : Type := mkMention {
  mention_type : MentionType;
  mention_targetId : option string;
  startIndex : nat;
  mention_length : nat;
}.

Record MessageAttachment : Type := mkAttachment {
  att_id : string;
  mimeType : string;
  filename : string;
  sizeBytes : nat;
  url : string;
  contentHash : string;
}.

(** Values of [Record<string, unknown>]: the JSON fragment of
    JavaScript values, numbers restricted to the integers that
    [JSON.stringify] prints digit by digit (magnitude below 10^21;
    from there on JavaScript prints an exponent). *)
#[warnings="-register-all"]
Inductive Json : Type :=
| JNull
| JBool (b : bool)
| JNum (n : Z)
| JStr (s : string)
| JArr (items : list Json)
| JObj (fields : list (string * Json)).

Record MessageContent : Type := mkContent {
  text : string;
  data : option (list (string * Json));
  mentions : list MessageMention;
  attachments : list MessageAttachment;
}.

Record Message : Type := mkMessage {
  msg_id : string;
  msg_projectId : string;
  targetId : string;
  targetType : TargetType;
  senderId : string;
  msg_type : MessageType;
  content : MessageContent;
  threadId : option string;
  correlationId : option string;
  signature : string;
  deliveryStatus : MessageDeliveryStatus;
  sentAt : string;
  editedAt : option string;
  deletedAt : option string;
}.

Inductive PresenceStatus : Type := ONLINE | IDLE | BUSY | DO_NOT_DISTURB | OFFLINE.

Inductive DisconnectReason : Type := graceful | timeout | error | kicked.

Record PresenceActivity : Type := mkActivity {
  activity_type : string;
  activity_description : option string;
  activity_contextId : option string;
  activity_startedAt : Z;
}.

Record Connection : Type := mkConnection {
  connectionId : string;
  clientType : string;
  clientVersion : string;
  connectedAt : Z;
  ipAddress : option string;
}.

(** Timestamps of a presence record are ISO strings of millisecond
    precision in the source, read back with [new Date(s).getTime()];
    they are kept here as that millisecond value. *)
Record Presence : Type := mkPresence {
  p_agentId : string;
  p_projectId : string;
  status : PresenceStatus;
  statusMessage : option string;
  activity : option PresenceActivity;
  lastHeartbeat : Z;
  activeChannels : list string;
  isTyping : bool;
  typingInChannel : option string;
  connection : Connection;
}.

(** ** Wire frames *)

Inductive WSType : Type := ws_event | ws_message | ws_presence | ws_ack | ws_error.

(** The [extra] object spread into a presence broadcast. *)
Inductive PresenceExtra : Type :=
| extra_none
| extra_reason (r : DisconnectReason)
| extra_previousStatus (s : PresenceStatus).

Inductive EventData : Type :=
| data_edited (messageId newText : string)
| data_deleted (messageId : string).

Record RelayEvent : Type := mkRelayEvent {
  ev_type : string;
  ev_source : string;
  ev_target : option string;
  ev_data : EventData;
  ev_timestamp : Z;
}.

(** The [data] field of a frame is [any]; these are the shapes the
    services put there, and [data_json] stands for everything else. *)
Inductive WSData : Type :=
| data_message (m : Message)
| data_relayEvent (e : RelayEvent)
| data_presence (agentId : string) (st : PresenceStatus) (timestamp : Z)
    (extra : PresenceExtra)
| data_typing (agentId channelId : string) (typing : bool) (timestamp : Z)
| data_json (j : Json).

Record WSMessage : Type := mkWSMessage {
  ws_type : WSType;
  ws_event_name : option string;
  ws_data : WSData;
  ws_timestamp : Z;
  ws_correlationId : option string;
}.

End Models.

(** ** RelayClient (relay/relay-client.ts) *)

Module RelayClient.
Import Models.

Inductive ReadyState : Type := CONNECTING | OPEN | CLOSING | CLOSED.

(** A [WebSocket] object: its state and the frames passed to [ws.send]. *)
Record WebSocket : Type := mkWebSocket {
  readyState : ReadyState;
  sentFrames : list WSMessage;
}.

(** What a call of [resolve] or [reject] of a promise carries. *)
Inductive Settlement : Type :=
| resolved (value : WSData)
| rejected (reason : string).

(** The callback armed by [setTimeout] in [sendWithAck]. *)
Record Timer : Type := mkTimer {
  delay : Z;
  cb_correlationId : string;
  cb_agentId : string;
  cb_promise : nat;
}.

Record PendingAck : Type := mkPendingAck {
  pa_promise : nat;
  pa_timeout : nat;
}.

(** The client's own maps, and the heap objects its closures share:
    sockets by handle, armed timers by handle, and for every promise
    the calls of its [resolve]/[reject] functions made so far, oldest
    first. *)
Record t : Type := mkRelay {
  connections : gmap string nat;
  subscriptions : gmap string (gset string);
  pendingAcks : gmap string PendingAck;
  sockets : gmap nat WebSocket;
  timers : gmap nat Timer;
  promises : gmap nat (list Settlement);
}.

Definition empty : t :=
  {| connections := ∅; subscriptions := ∅; pendingAcks := ∅;
     sockets := ∅; timers := ∅; promises := ∅ |}.

Definition set_sockets (rc : t) (s : gmap nat WebSocket) : t :=
  {| connections := connections rc; subscriptions := subscriptions rc;
     pendingAcks := pendingAcks rc; sockets := s; timers := timers rc;
     promises := promises rc |}.

Definition set_subscriptions (rc : t) (s : gmap string (gset string)) : t :=
  {| connections := connections rc; subscriptions := s;
     pendingAcks := pendingAcks rc; sockets := sockets rc;
     timers := timers rc; promises := promises rc |}.

Definition set_connections (rc : t) (c : gmap string nat) : t :=
  {| connections := c; subscriptions := subscriptions rc;
     pendingAcks := pendingAcks rc; sockets := sockets rc;
     timers := timers rc; promises := promises rc |}.

(** [registerConnection(agentId, ws)] *)
Definition registerConnection (rc : t) (agentId : string) (ws : nat) : t :=
  set_connections rc (<[agentId := ws]> (connections rc)).

(** [subscribeToChannel(agentId, channelId)] *)
Definition subscribeToChannel (rc : t) (agentId channelId : string) : t :=
  let subs := default ∅ (subscriptions rc !! channelId) in
  set_subscriptions rc (<[channelId := {[agentId]} ∪ subs]> (subscriptions rc)).

(** [unsubscribeFromChannel(agentId, channelId)] *)
Definition unsubscribeFromChannel (rc : t) (agentId channelId : string) : t :=
  match subscriptions rc !! channelId with
  | Some subs =>
      set_subscriptions rc (<[channelId := subs ∖ {[agentId]}]> (subscriptions rc))
  | None => rc
  end.

(** [sendToAgent(agentId, message)]: dropped unless the agent has an
    open socket. *)
Definition sendToAgent (rc : t) (agentId : string) (message : WSMessage) : t :=
  match connections rc !! agentId with
  | Some h =>
      match sockets rc !! h with
      | Some ws =>
          match readyState ws with
          | OPEN =>
              set_sockets rc
                (<[h := {| readyState := OPEN;
                           sentFrames := sentFrames ws ++ [message] |}]>
                   (sockets rc))
          | _ => rc
          end
      | None => rc
      end
  | None => rc
  end.

(** [broadcastToChannel(channelId, message)] *)
Definition broadcastToChannel (rc : t) (channelId : string)
    (message : WSMessage) : t :=
  match subscriptions rc !! channelId with
  | None => rc
  | Some subscribers =>
      foldl (fun rc agentId => sendToAgent rc agentId message) rc
        (elements subscribers)
  end.

(** [broadcast(message)] *)
Definition broadcast (rc : t) (message : WSMessage) : t :=
  foldl (fun rc agentId => sendToAgent rc agentId message) rc
    (map fst (map_to_list (connections rc))).

(** [emitRelayEvent(event)]: [if (event.target)] is a truthiness test,
    an empty target counts as absent. *)
Definition emitRelayEvent (rc : t) (event : RelayEvent) : t :=
  let frame :=
    {| ws_type := ws_event; ws_event_name := Some (ev_type event);
       ws_data := data_relayEvent event;
       ws_timestamp := ev_timestamp event; ws_correlationId := None |} in
  match ev_target event with
  | Some target =>
      if String.eqb target "" then broadcast rc frame
      else broadcastToChannel rc target frame
  | None => broadcast rc frame
  end.

(** Handles for the next timer and promise object. *)
Definition freshTimer (rc : t) : nat := fresh (dom (timers rc)).
Definition freshPromise (rc : t) : nat := fresh (dom (promises rc)).

(** Calling the [resolve] or [reject] function of promise [p]. *)
Definition settle (rc : t) (p : nat) (s : Settlement) : t :=
  {| connections := connections rc; subscriptions := subscriptions rc;
     pendingAcks := pendingAcks rc; sockets := sockets rc;
     timers := timers rc;
     promises := <[p := default [] (promises rc !! p) ++ [s]]> (promises rc) |}.

(** [clearTimeout(handle)] *)
Definition clearTimeout (rc : t) (h : nat) : t :=
  {| connections := connections rc; subscriptions := subscriptions rc;
     pendingAcks := pendingAcks rc; sockets := sockets rc;
     timers := base.delete h (timers rc); promises := promises rc |}.

Definition set_pendingAcks (rc : t) (pa : gmap string PendingAck) : t :=
  {| connections := connections rc; subscriptions := subscriptions rc;
     pendingAcks := pa; sockets := sockets rc;
     timers := timers rc; promises := promises rc |}.

Definition DEFAULT_ACK_TIMEOUT : Z := 5000.

Definition timeoutMessage (agentId : string) : string :=
  "Timeout waiting for ack from " +:+ agentId.

(** [sendWithAck(agentId, message, timeoutMs = 5000)], with
    [correlationId] the value drawn from [uuid()].  Returns the handle
    of the returned promise, the message as mutated, and the client. *)
Definition sendWithAck (rc : t) (agentId : string) (message : WSMessage)
    (timeoutMs : option Z) (correlationId : string) : nat * WSMessage * t :=
  let message' :=
    {| ws_type := ws_type message; ws_event_name := ws_event_name message;
       ws_data := ws_data message; ws_timestamp := ws_timestamp message;
       ws_correlationId := Some correlationId |} in
  let p := freshPromise rc in
  let h := freshTimer rc in
  let timer :=
    {| delay := default DEFAULT_ACK_TIMEOUT timeoutMs;
       cb_correlationId := correlationId; cb_agentId := agentId;
       cb_promise := p |} in
  let rc1 :=
    {| connections := connections rc; subscriptions := subscriptions rc;
       pendingAcks := pendingAcks rc; sockets := sockets rc;
       timers := <[h := timer]> (timers rc);
       promises := <[p := []]> (promises rc) |} in
  let rc2 :=
    set_pendingAcks rc1
      (<[correlationId := {| pa_promise := p; pa_timeout := h |}]>
         (pendingAcks rc1)) in
  (p, message', sendToAgent rc2 agentId message').

(** [handleAck(correlationId, data)] *)
Definition handleAck (rc : t) (correlationId : string) (data : WSData) : t :=
  match pendingAcks rc !! correlationId with
  | Some pending =>
      let rc1 := clearTimeout rc (pa_timeout pending) in
      let rc2 := settle rc1 (pa_promise pending) (resolved data) in
      set_pendingAcks rc2 (base.delete correlationId (pendingAcks rc2))
  | None => rc
  end.

(** The runtime firing timer [h]: the callback of [sendWithAck] runs
    once and the timer is gone; a cleared timer never fires. *)
Definition fireTimer (rc : t) (h : nat) : t :=
  match timers rc !! h with
  | Some timer =>
      let rc1 := clearTimeout rc h in
      let rc2 :=
        set_pendingAcks rc1
          (base.delete (cb_correlationId timer) (pendingAcks rc1)) in
      settle rc2 (cb_promise timer)
        (rejected (timeoutMessage (cb_agentId timer)))
  | None => rc
  end.

(** What can happen to the client after a [sendWithAck]: an inbound
    frame of type [ack] (its [correlationId] may be missing), a timer
    firing, and further [sendWithAck] calls. *)
Inductive Stimulus : Type :=
| ackFrame (correlationId : option string) (data : WSData)
| timerFires (h : nat)
| anotherSend (agentId : string) (message : WSMessage)
    (timeoutMs : option Z) (correlationId : string).

Definition react (rc : t) (ev : Stimulus) : t :=
  match ev with
  | ackFrame (Some cid) d => handleAck rc cid d
  | ackFrame None _ => rc
  | timerFires h => fireTimer rc h
  | anotherSend a m tmo cid => (sendWithAck rc a m tmo cid).2
  end.

Definition run (rc : t) (evs : list Stimulus) : t := foldl react rc evs.

(** [getChannelSubscribers(channelId)]: [Array.from] of the
    subscriber set; as for [getMembers], the same elements, each once,
    in the order of the finite set and not of insertion. *)
Definition getChannelSubscribers (rc : t) (channelId : string) : list string :=
  elements (default ∅ (subscriptions rc !! channelId)).

(** [getConnectionCount()] *)
Definition getConnectionCount (rc : t) : nat := size (connections rc).

(** Whether the socket behind a handle is in state [WebSocket.CLOSED]. *)
Definition isClosed (rc : t) (h : nat) : bool :=
  match sockets rc !! h with
  | Some ws => match readyState ws with CLOSED => true | _ => false end
  | None => false
  end.

(** The body of the loop of [handleDisconnect] for one entry of the
    connection map; the first component collects the agent ids emitted
    with [agent:disconnected]. *)
Definition sweepOne (st : list string * t) (entry : string * nat)
    : list string * t :=
  let '(emitted, rc) := st in
  let '(agentId, h) := entry in
  if isClosed rc h then
    (emitted ++ [agentId],
     set_subscriptions
       (set_connections rc (base.delete agentId (connections rc)))
       ((fun subscribers => subscribers ∖ {[agentId]}) <$> subscriptions rc))
  else st.

(** [handleDisconnect(connectionId)]: the loop looks at every
    connection, not at the one named by its argument. *)
Definition handleDisconnect (rc : t) (connectionId : string) : list string * t :=
  foldl sweepOne ([], rc) (map_to_list (connections rc)).

End RelayClient.

(** ** ChannelService (services/channel-service.ts) *)

Module ChannelService.
Import Models.

Record ChannelCreateInput : Type := mkCreateInput {
  in_name : string;
  in_type : option ChannelType;
  in_topic : option string;
  in_isPrivate : option bool;
  in_metadata : option PartialChannelMetadata;
}.

Record t : Type := mkChannelService {
  channels : gmap string Channel;
  nameIndex : gmap string string;
  memberships : gmap string (gset string);
  projectId : string;
}.

(** [createDefaultAccessRules(type)] *)
Definition createDefaultAccessRules (type : ChannelType) : list ChannelAccessRule :=
  match type with
  | PUBLIC =>
      [ {| principal := "*"; principalType := principal_all; level := WRITE;
           rule_expiresAt := None |} ]
  | PRIVATE => []
  | BROADCAST =>
      [ {| principal := "*"; principalType := principal_all; level := READ;
           rule_expiresAt := None |} ]
  | DIRECT => []
  end.

(** [create(input, createdBy)], with [uuid] and [now] drawn from the
    uuid source and the clock. *)
Definition create (svc : t) (input : ChannelCreateInput) (createdBy : string)
    (uuid now : string) : Outcome Channel * t :=
  match nameIndex svc !! in_name input with
  | Some _ =>
      (Threw (AlreadyExists
                ("Channel " +:+ JsString.dquote +:+ in_name input +:+
                 JsString.dquote +:+ " already exists")),
       svc)
  | None =>
      let id := "ch-" +:+ uuid in
      let type := default PUBLIC (in_type input) in
      let channel :=
        {| ch_id := id;
           ch_name := in_name input;
           ch_projectId := projectId svc;
           ch_type := type;
           accessRules := createDefaultAccessRules type;
           defaultAccess :=
             match in_type input with
             | Some PRIVATE => None
             | _ => Some READ
             end;
           ch_metadata :=
             spreadMetadata
               {| displayName := in_name input; topic := in_topic input;
                  purpose := None; isArchived := false; allowExternal := false;
                  retentionDays := None; custom := None |}
               (in_metadata input);
           ch_createdBy := createdBy;
           ch_createdAt := now;
           memberCount := 0 |} in
      (Returned channel,
       {| channels := <[id := channel]> (channels svc);
          nameIndex := <[in_name input := id]> (nameIndex svc);
          memberships := <[id := ∅]> (memberships svc);
          projectId := projectId svc |})
  end.

(** [matchRule(rule, agentId)] *)
Definition matchRule (rule : ChannelAccessRule) (agentId : string) : bool :=
  match principalType rule with
  | principal_all => true
  | principal_agent => String.eqb (principal rule) agentId
  | principal_role => false
  end.

Definition ChannelAccessLevel_eqb (a b : ChannelAccessLevel) : bool :=
  match a, b with
  | READ, READ | WRITE, WRITE | ADMIN, ADMIN => true
  | _, _ => false
  end.

(** [levels.indexOf(x)]: the position of the first equal element, or -1. *)
Fixpoint indexOf (levels : list ChannelAccessLevel) (x : ChannelAccessLevel) : Z :=
  match levels with
  | [] => -1
  | l :: rest =>
      if ChannelAccessLevel_eqb l x then 0
      else
        let i := indexOf rest x in
        if i <? 0 then -1 else i + 1
  end.

(** [accessLevelSatisfies(actual, required)] *)
Definition accessLevelSatisfies (actual required : ChannelAccessLevel) : bool :=
  let levels := [READ; WRITE; ADMIN] in
  indexOf levels actual >=? indexOf levels required.

(** The [for] loop of [checkAccess] over the rules. *)
Fixpoint checkRules (rules : list ChannelAccessRule) (agentId : string)
    (requiredLevel : ChannelAccessLevel) : option bool :=
  match rules with
  | [] => None
  | rule :: rest =>
      if matchRule rule agentId
      then Some (accessLevelSatisfies (level rule) requiredLevel)
      else checkRules rest agentId requiredLevel
  end.

(** [checkAccess(channelId, agentId, requiredLevel)] *)
Definition checkAccess (svc : t) (channelId agentId : string)
    (requiredLevel : ChannelAccessLevel) : bool :=
  match channels svc !! channelId with
  | None => false
  | Some channel =>
      match checkRules (accessRules channel) agentId requiredLevel with
      | Some verdict => verdict
      | None =>
          match defaultAccess channel with
          | Some d => accessLevelSatisfies d requiredLevel
          | None => false
          end
      end
  end.

Definition set_memberCount (c : Channel) (n : nat) : Channel :=
  {| ch_id := ch_id c; ch_name := ch_name c; ch_projectId := ch_projectId c;
     ch_type := ch_type c; accessRules := accessRules c;
     defaultAccess := defaultAccess c; ch_metadata := ch_metadata c;
     ch_createdBy := ch_createdBy c; ch_createdAt := ch_createdAt c;
     memberCount := n |}.

Definition relay_do (f : RelayClient.t -> RelayClient.t)
    (relay : option RelayClient.t) : option RelayClient.t :=
  f <$> relay.

(** [join(channelId, agentId)]; [relay] is the optional [relayClient]
    the service was built with. *)
Definition join (svc : t) (relay : option RelayClient.t)
    (channelId agentId : string) : Outcome bool * t * option RelayClient.t :=
  match channels svc !! channelId with
  | None => (Returned false, svc, relay)
  | Some channel =>
      if negb (checkAccess svc channelId agentId READ) then
        (Threw (PermissionDenied "Permission denied: cannot join channel"),
         svc, relay)
      else
        match memberships svc !! channelId with
        | None => (Returned false, svc, relay)
        | Some members =>
            if decide (agentId ∈ members) then (Returned true, svc, relay)
            else
              let members' := {[agentId]} ∪ members in
              let channel' := set_memberCount channel (size members') in
              (Returned true,
               {| channels := <[channelId := channel']> (channels svc);
                  nameIndex := nameIndex svc;
                  memberships := <[channelId := members']> (memberships svc);
                  projectId := projectId svc |},
               relay_do (fun rc =>
                 RelayClient.subscribeToChannel rc agentId channelId) relay)
        end
  end.

(** [leave(channelId, agentId)] *)
Definition leave (svc : t) (relay : option RelayClient.t)
    (channelId agentId : string) : bool * t * option RelayClient.t :=
  match channels svc !! channelId with
  | None => (false, svc, relay)
  | Some channel =>
      match memberships svc !! channelId with
      | None => (false, svc, relay)
      | Some members =>
          if decide (agentId ∈ members) then
            let members' := members ∖ {[agentId]} in
            let channel' := set_memberCount channel (size members') in
            (true,
             {| channels := <[channelId := channel']> (channels svc);
                nameIndex := nameIndex svc;
                memberships := <[channelId := members']> (memberships svc);
                projectId := projectId svc |},
             relay_do (fun rc =>
               RelayClient.unsubscribeFromChannel rc agentId channelId) relay)
          else (true, svc, relay)
      end
  end.

(** [getMembers(channelId)]: [Array.from] of the member set.  The
    source lists a [Set] in the order of insertion; the list here has
    the same elements, each once, in the order of the finite set. *)
Definition getMembers (svc : t) (channelId : string) : list string :=
  match memberships svc !! channelId with
  | Some members => elements members
  | None => []
  end.

(** [isMember(channelId, agentId)] *)
Definition isMember (svc : t) (channelId agentId : string) : bool :=
  match memberships svc !! channelId with
  | Some members => bool_decide (agentId ∈ members)
  | None => false
  end.

(** [update(channelId, updates)] *)
Definition update (svc : t) (channelId : string)
    (updates : PartialChannelMetadata) : bool * t :=
  match channels svc !! channelId with
  | None => (false, svc)
  | Some c =>
      let c' :=
        {| ch_id := ch_id c; ch_name := ch_name c; ch_projectId := ch_projectId c;
           ch_type := ch_type c; accessRules := accessRules c;
           defaultAccess := defaultAccess c;
           ch_metadata := spreadMetadata (ch_metadata c) (Some updates);
           ch_createdBy := ch_createdBy c; ch_createdAt := ch_createdAt c;
           memberCount := memberCount c |} in
      (true,
       {| channels := <[channelId := c']> (channels svc);
          nameIndex := nameIndex svc; memberships := memberships svc;
          projectId := projectId svc |})
  end.

(** [addAccessRule(channelId, rule)] *)
Definition addAccessRule (svc : t) (channelId : string)
    (rule : ChannelAccessRule) : bool * t :=
  match channels svc !! channelId with
  | None => (false, svc)
  | Some c =>
      let c' :=
        {| ch_id := ch_id c; ch_name := ch_name c; ch_projectId := ch_projectId c;
           ch_type := ch_type c; accessRules := accessRules c ++ [rule];
           defaultAccess := defaultAccess c; ch_metadata := ch_metadata c;
           ch_createdBy := ch_createdBy c; ch_createdAt := ch_createdAt c;
           memberCount := memberCount c |} in
      (true,
       {| channels := <[channelId := c']> (channels svc);
          nameIndex := nameIndex svc; memberships := memberships svc;
          projectId := projectId svc |})
  end.

(** [delete(channelId)] *)
Definition delete (svc : t) (channelId : string) : bool * t :=
  match channels svc !! channelId with
  | None => (false, svc)
  | Some channel =>
      (true,
       {| channels := base.delete channelId (channels svc);
          nameIndex := base.delete (ch_name channel) (nameIndex svc);
          memberships := base.delete channelId (memberships svc);
          projectId := projectId svc |})
  end.

(** The service before the constructor creates the default channels. *)
Definition blank (projectId : string) : t :=
  {| channels := ∅; nameIndex := ∅; memberships := ∅; projectId := projectId |}.

(** The calls a client of the service can make, and their effect on
    the service and the relay. *)
Inductive Call : Type :=
| call_create (input : ChannelCreateInput) (createdBy uuid now : string)
| call_join (channelId agentId : string)
| call_leave (channelId agentId : string)
| call_addAccessRule (channelId : string) (rule : ChannelAccessRule)
| call_update (channelId : string) (updates : PartialChannelMetadata)
| call_delete (channelId : string).

Definition perform (st : t * option RelayClient.t) (c : Call)
    : t * option RelayClient.t :=
  let '(svc, relay) := st in
  match c with
  | call_create input createdBy uuid now =>
      ((create svc input createdBy uuid now).2, relay)
  | call_join channelId agentId =>
      let '(_, svc', relay') := join svc relay channelId agentId in
      (svc', relay')
  | call_leave channelId agentId =>
      let '(_, svc', relay') := leave svc relay channelId agentId in
      (svc', relay')
  | call_addAccessRule channelId rule => ((addAccessRule svc channelId rule).2, relay)
  | call_update channelId updates => ((update svc channelId updates).2, relay)
  | call_delete channelId => ((delete svc channelId).2, relay)
  end.

(** [new ChannelService(projectId, relayClient)]: the constructor
    creates [general] and [announcements], drawing two uuids. *)
Definition new (projectId : string) (uuid1 now1 uuid2 now2 : string) : t :=
  (foldl perform (blank projectId, None)
     [ call_create {| in_name := "general"; in_type := Some PUBLIC;
                      in_topic := Some "General discussion for all agents";
                      in_isPrivate := None; in_metadata := None |}
         "system" uuid1 now1;
       call_create {| in_name := "announcements"; in_type := Some BROADCAST;
                      in_topic := Some "System-wide announcements";
                      in_isPrivate := None; in_metadata := None |}
         "system" uuid2 now2 ]).1.

(** [getById(id)] *)
Definition getById (svc : t) (id : string) : option Channel :=
  channels svc !! id.

(** [getByName(name)]: [id ? this.channels.get(id) : undefined], an
    empty id counting as none. *)
Definition getByName (svc : t) (name : string) : option Channel :=
  match nameIndex svc !! name with
  | Some id => if String.eqb id "" then None else channels svc !! id
  | None => None
  end.

(** [getCount()] *)
Definition getCount (svc : t) : nat := size (channels svc).

(** A run of calls in which every [create] draws a uuid whose channel
    id is in use neither in the registry nor as a subscription key of
    the relay, as the uuid source guarantees. *)
Fixpoint freshCreates (st : t * option RelayClient.t) (calls : list Call) : Prop :=
  match calls with
  | [] => True
  | c :: rest =>
      match c with
      | call_create _ _ uuid _ =>
          channels st.1 !! ("ch-" +:+ uuid) = None /\
          match st.2 with
          | Some rc => RelayClient.subscriptions rc !! ("ch-" +:+ uuid) = None
          | None => True
          end
      | _ => True
      end /\
      freshCreates (perform st c) rest
  end.

End ChannelService.

(** ** PresenceService *)

Module PresenceService.
Import Models.

Definition HEARTBEAT_INTERVAL : Z := 30000.
Definition IDLE_TIMEOUT : Z := 60000.
Definition OFFLINE_TIMEOUT : Z := 120000.

Record ConnectionInfo : Type := mkConnectionInfo {
  ci_connectionId : option string;
  ci_clientType : option string;
  ci_clientVersion : option string;
  ci_ipAddress : option string;
}.

Record t : Type := mkPresenceService {
  presences : gmap string Presence;
  projectId : string;
}.

Definition new (projectId : string) : t :=
  {| presences := ∅; projectId := projectId |}.

Definition set_presences (svc : t) (ps : gmap string Presence) : t :=
  {| presences := ps; projectId := projectId svc |}.

Definition PresenceStatus_eqb (a b : PresenceStatus) : bool :=
  match a, b with
  | ONLINE, ONLINE | IDLE, IDLE | BUSY, BUSY
  | DO_NOT_DISTURB, DO_NOT_DISTURB | OFFLINE, OFFLINE => true
  | _, _ => false
  end.

(** [broadcastPresenceChange(agentId, status, extra)] at time [now]. *)
Definition presenceFrame (agentId : string) (st : PresenceStatus)
    (extra : PresenceExtra) (now : Z) : WSMessage :=
  {| ws_type := ws_presence; ws_event_name := None;
     ws_data := data_presence agentId st now extra;
     ws_timestamp := now; ws_correlationId := None |}.

Definition broadcastPresenceChange (relay : option RelayClient.t)
    (agentId : string) (st : PresenceStatus) (extra : PresenceExtra)
    (now : Z) : option RelayClient.t :=
  (fun rc => RelayClient.broadcast rc (presenceFrame agentId st extra now))
    <$> relay.

(** [connect(agentId, connectionInfo)]; [uuid] is drawn only when the
    caller gives no connection id, an empty string counting as none. *)
Definition connect (svc : t) (relay : option RelayClient.t) (agentId : string)
    (info : ConnectionInfo) (uuid : string) (now : Z)
    : Presence * t * option RelayClient.t :=
  let orElse (o : option string) (d : string) :=
    match o with
    | Some s => if String.eqb s "" then d else s
    | None => d
    end in
  let presence :=
    {| p_agentId := agentId;
       p_projectId := projectId svc;
       status := ONLINE;
       statusMessage := None;
       activity := None;
       lastHeartbeat := now;
       activeChannels := [];
       isTyping := false;
       typingInChannel := None;
       connection :=
         {| connectionId := orElse (ci_connectionId info) uuid;
            clientType := orElse (ci_clientType info) "api";
            clientVersion := orElse (ci_clientVersion info) "1.0.0";
            connectedAt := now;
            ipAddress := ci_ipAddress info |} |} in
  (presence,
   set_presences svc (<[agentId := presence]> (presences svc)),
   broadcastPresenceChange relay agentId ONLINE extra_none now).

Definition set_status (p : Presence) (st : PresenceStatus) : Presence :=
  {| p_agentId := p_agentId p; p_projectId := p_projectId p; status := st;
     statusMessage := statusMessage p; activity := activity p;
     lastHeartbeat := lastHeartbeat p; activeChannels := activeChannels p;
     isTyping := isTyping p; typingInChannel := typingInChannel p;
     connection := connection p |}.

(** [disconnect(agentId, reason)] *)
Definition disconnect (svc : t) (relay : option RelayClient.t)
    (agentId : string) (reason : DisconnectReason) (now : Z)
    : t * option RelayClient.t :=
  match presences svc !! agentId with
  | Some presence =>
      let svc1 :=
        set_presences svc (<[agentId := set_status presence OFFLINE]> (presences svc)) in
      let relay1 :=
        broadcastPresenceChange relay agentId OFFLINE (extra_reason reason) now in
      (set_presences svc1 (base.delete agentId (presences svc1)), relay1)
  | None => (svc, relay)
  end.

(** [setStatus(agentId, status, statusMessage)] *)
Definition setStatus (svc : t) (relay : option RelayClient.t)
    (agentId : string) (st : PresenceStatus) (message : option string)
    (now : Z) : bool * t * option RelayClient.t :=
  match presences svc !! agentId with
  | None => (false, svc, relay)
  | Some p =>
      let previousStatus := status p in
      let p' :=
        {| p_agentId := p_agentId p; p_projectId := p_projectId p;
           status := st;
           statusMessage := message; activity := activity p;
           lastHeartbeat := now; activeChannels := activeChannels p;
           isTyping := isTyping p; typingInChannel := typingInChannel p;
           connection := connection p |} in
      (true,
       set_presences svc (<[agentId := p']> (presences svc)),
       if PresenceStatus_eqb previousStatus st then relay
       else broadcastPresenceChange relay agentId st
              (extra_previousStatus previousStatus) now)
  end.

(** [heartbeat(agentId, activeChannels)] *)
Definition heartbeat (svc : t) (relay : option RelayClient.t)
    (agentId : string) (channels : option (list string)) (now : Z)
    : bool * t * option RelayClient.t :=
  match presences svc !! agentId with
  | None => (false, svc, relay)
  | Some p =>
      let p' :=
        {| p_agentId := p_agentId p; p_projectId := p_projectId p;
           status := status p;
           statusMessage := statusMessage p; activity := activity p;
           lastHeartbeat := now;
           activeChannels := default (activeChannels p) channels;
           isTyping := isTyping p; typingInChannel := typingInChannel p;
           connection := connection p |} in
      let svc1 := set_presences svc (<[agentId := p']> (presences svc)) in
      match status p' with
      | IDLE =>
          let '(_, svc2, relay2) := setStatus svc1 relay agentId ONLINE None now in
          (true, svc2, relay2)
      | _ => (true, svc1, relay)
      end
  end.

(** The body of the loop of [checkHeartbeats] for one entry of the
    map: [presence] is the object the iteration yields for [agentId]. *)
Definition checkOne (now : Z) (st : t * option RelayClient.t)
    (entry : string * Presence) : t * option RelayClient.t :=
  let '(svc, relay) := st in
  let '(agentId, presence) := entry in
  let elapsed := now - lastHeartbeat presence in
  if (elapsed >? OFFLINE_TIMEOUT)
     && negb (PresenceStatus_eqb (status presence) OFFLINE)
  then disconnect svc relay agentId timeout now
  else if (elapsed >? IDLE_TIMEOUT)
          && PresenceStatus_eqb (status presence) ONLINE
  then
    let '(_, svc', relay') := setStatus svc relay agentId IDLE None now in
    (svc', relay')
  else (svc, relay).

(** [checkHeartbeats()], run by the interval timer at time [now]. *)
Definition checkHeartbeats (svc : t) (relay : option RelayClient.t) (now : Z)
    : t * option RelayClient.t :=
  foldl (checkOne now) (svc, relay) (map_to_list (presences svc)).

(** [get(agentId)] *)
Definition get (svc : t) (agentId : string) : option Presence :=
  presences svc !! agentId.

Definition set_activity (p : Presence) (a : option PresenceActivity) : Presence :=
  {| p_agentId := p_agentId p; p_projectId := p_projectId p; status := status p;
     statusMessage := statusMessage p; activity := a;
     lastHeartbeat := lastHeartbeat p; activeChannels := activeChannels p;
     isTyping := isTyping p; typingInChannel := typingInChannel p;
     connection := connection p |}.

(** [startActivity(agentId, activityType, description, contextId)] *)
Definition startActivity (svc : t) (relay : option RelayClient.t)
    (agentId activityType : string) (description contextId : option string)
    (now : Z) : bool * t * option RelayClient.t :=
  match presences svc !! agentId with
  | None => (false, svc, relay)
  | Some p =>
      let started :=
        {| activity_type := activityType;
           activity_description := description;
           activity_contextId := contextId;
           activity_startedAt := now |} in
      let svc1 :=
        set_presences svc
          (<[agentId := set_activity p (Some started)]> (presences svc)) in
      let '(_, svc2, relay2) := setStatus svc1 relay agentId BUSY None now in
      (true, svc2, relay2)
  end.

(** [endActivity(agentId)] *)
Definition endActivity (svc : t) (relay : option RelayClient.t)
    (agentId : string) (now : Z) : bool * t * option RelayClient.t :=
  match presences svc !! agentId with
  | None => (false, svc, relay)
  | Some p =>
      let svc1 :=
        set_presences svc (<[agentId := set_activity p None]> (presences svc)) in
      let '(_, svc2, relay2) := setStatus svc1 relay agentId ONLINE None now in
      (true, svc2, relay2)
  end.

Definition set_activeChannels (p : Presence) (channels : list string) : Presence :=
  {| p_agentId := p_agentId p; p_projectId := p_projectId p; status := status p;
     statusMessage := statusMessage p; activity := activity p;
     lastHeartbeat := lastHeartbeat p; activeChannels := channels;
     isTyping := isTyping p; typingInChannel := typingInChannel p;
     connection := connection p |}.

(** [joinChannel(agentId, channelId)] *)
Definition joinChannel (svc : t) (agentId channelId : string) : bool * t :=
  match presences svc !! agentId with
  | None => (false, svc)
  | Some p =>
      if bool_decide (channelId ∈ activeChannels p) then (true, svc)
      else
        (true,
         set_presences svc
           (<[agentId := set_activeChannels p (activeChannels p ++ [channelId])]>
              (presences svc)))
  end.

(** [leaveChannel(agentId, channelId)] *)
Definition leaveChannel (svc : t) (agentId channelId : string) : bool * t :=
  match presences svc !! agentId with
  | None => (false, svc)
  | Some p =>
      (true,
       set_presences svc
         (<[agentId :=
              set_activeChannels p
                (filter (fun id => id <> channelId) (activeChannels p))]>
            (presences svc)))
  end.

End PresenceService.

(** ** JSON.stringify on the values the message service signs *)

Module JSON.
Import Models.

Definition hexDigit (n : nat) : ascii :=
  match get n "0123456789abcdef" with
  | Some c => c
  | None => "0"%char
  end.

(** The escape of one character inside a JSON string literal:
    the two-character escapes, [\u00XX] for the other control
    characters, and the character itself otherwise. *)
Definition escapeChar (c : ascii) : string :=
  let n := nat_of_ascii c in
  if (n =? 8)%nat then JsString.backslash +:+ "b"
  else if (n =? 9)%nat then JsString.backslash +:+ "t"
  else if (n =? 10)%nat then JsString.backslash +:+ "n"
  else if (n =? 12)%nat then JsString.backslash +:+ "f"
  else if (n =? 13)%nat then JsString.backslash +:+ "r"
  else if (n =? 34)%nat then JsString.backslash +:+ JsString.dquote
  else if (n =? 92)%nat then JsString.backslash +:+ JsString.backslash
  else if (n <? 32)%nat then
    JsString.backslash +:+ "u00" +:+
    String (hexDigit (n / 16)) (String (hexDigit (n mod 16)) EmptyString)
  else String c EmptyString.

Fixpoint escape (s : string) : string :=
  match s with
  | EmptyString => EmptyString
  | String c rest => escapeChar c +:+ escape rest
  end.

(** [JSON.stringify(s)] for a string [s]. *)
Definition quote (s : string) : string :=
  JsString.dquote +:+ escape s +:+ JsString.dquote.

(** Items separated by commas. *)
Fixpoint commas (items : list string) : string :=
  match items with
  | [] => ""
  | [x] => x
  | x :: rest => x +:+ "," +:+ commas rest
  end.

Definition array (items : list string) : string := "[" +:+ commas items +:+ "]".
Definition object (fields : list string) : string := "{" +:+ commas fields +:+ "}".
Definition field (key value : string) : string := quote key +:+ ":" +:+ value.

Fixpoint stringify (j : Json) : string :=
  match j with
  | JNull => "null"
  | JBool true => "true"
  | JBool false => "false"
  | JNum n => pretty n
  | JStr s => quote s
  | JArr items => array (map stringify items)
  | JObj fields =>
      object (map (fun kv => match kv with (k, v) => field k (stringify v) end) fields)
  end.

Definition stringifyRecord (fields : list (string * Json)) : string :=
  stringify (JObj fields).

Definition stringifyMention (m : MessageMention) : string :=
  object
    ([ field "type"
         (quote match mention_type m with
                | mention_agent => "agent"
                | mention_channel => "channel"
                | mention_all => "all"
                end) ]
     ++ match mention_targetId m with
        | Some target => [ field "targetId" (quote target) ]
        | None => []
        end
     ++ [ field "startIndex" (pretty (startIndex m));
          field "length" (pretty (mention_length m)) ]).

Definition stringifyAttachment (a : MessageAttachment) : string :=
  object
    [ field "id" (quote (att_id a));
      field "mimeType" (quote (mimeType a));
      field "filename" (quote (filename a));
      field "sizeBytes" (pretty (sizeBytes a));
      field "url" (quote (url a));
      field "contentHash" (quote (contentHash a)) ].

(** The fields of a content object that follow [text]; an undefined
    [data] is left out by [JSON.stringify]. *)
Definition contentTail (c : MessageContent) : list string :=
  match data c with
  | Some d => [ field "data" (stringifyRecord d) ]
  | None => []
  end
  ++ [ field "mentions" (array (map stringifyMention (mentions c)));
       field "attachments" (array (map stringifyAttachment (attachments c))) ].

Definition stringifyContent (c : MessageContent) : string :=
  object (field "text" (quote (text c)) :: contentTail c).

(** [JSON.stringify({ id, senderId, content, sentAt })] *)
Definition stringifySigned (id senderId : string) (c : MessageContent)
    (sentAt : string) : string :=
  object
    [ field "id" (quote id);
      field "senderId" (quote senderId);
      field "content" (stringifyContent c);
      field "sentAt" (quote sentAt) ].

End JSON.

(** ** MessageService *)

Module MessageService.
Import Models.

Record MessageSendInput : Type := mkSendInput {
  in_targetId : string;
  in_targetType : TargetType;
  in_type : option MessageType;
  in_text : string;
  in_data : option (list (string * Json));
  in_threadId : option string;
  in_correlationId : option string;
}.

Record t : Type := mkMessageService {
  messages : gmap string Message;
  channelMessages : gmap string (list string);
  threadMessages : gmap string (list string);
  projectId : string;
  signingKey : string;
}.

Definition new (projectId signingKey : string) : t :=
  {| messages := ∅; channelMessages := ∅; threadMessages := ∅;
     projectId := projectId; signingKey := signingKey |}.

(** *** Mentions: the scan of [/@(\w+)/g] *)

(** [\w] *)
Definition isWordChar (c : ascii) : bool :=
  let n := nat_of_ascii c in
  ((48 <=? n) && (n <=? 57) || (65 <=? n) && (n <=? 90)
   || (97 <=? n) && (n <=? 122) || (n =? 95))%nat.

Definition isAt (c : ascii) : bool := (nat_of_ascii c =? 64)%nat.

(** The mention recorded for a match that starts at [start] and
    captured [name] (at least one character). *)
Definition mentionOf (start : nat) (name : string) : MessageMention :=
  {| mention_type :=
       if String.eqb name "all" || String.eqb name "here"
       then mention_all else mention_agent;
     mention_targetId := None;
     startIndex := start;
     mention_length := S (String.length name) |}.

(** A match in progress: the index of its [@] and the word characters
    read so far, in reverse. *)
Definition closeMatch (open : option (nat * string)) : list MessageMention :=
  match open with
  | Some (start, String c rest) => [mentionOf start (String.rev (String c rest))]
  | _ => []
  end.

(** One left-to-right pass: an [@] opens a match, word characters
    extend it greedily, anything else closes it; an [@] followed by no
    word character matches nothing. *)
Fixpoint scanMentions (s : string) (index : nat) (open : option (nat * string))
    : list MessageMention :=
  match s with
  | EmptyString => closeMatch open
  | String c rest =>
      match open with
      | Some (start, name) =>
          if isWordChar c
          then scanMentions rest (S index) (Some (start, String c name))
          else
            closeMatch open
            ++ scanMentions rest (S index)
                 (if isAt c then Some (index, EmptyString) else None)
      | None =>
          scanMentions rest (S index)
            (if isAt c then Some (index, EmptyString) else None)
      end
  end.

(** [extractMentions(text)] *)
Definition extractMentions (text : string) : list MessageMention :=
  scanMentions text 0%nat None.

Definition set_deliveryStatus (m : Message) (st : MessageDeliveryStatus) : Message :=
  {| msg_id := msg_id m; msg_projectId := msg_projectId m;
     targetId := targetId m; targetType := targetType m;
     senderId := senderId m; msg_type := msg_type m; content := content m;
     threadId := threadId m; correlationId := correlationId m;
     signature := signature m; deliveryStatus := st; sentAt := sentAt m;
     editedAt := editedAt m; deletedAt := deletedAt m |}.

Definition set_text (c : MessageContent) (newText : string) : MessageContent :=
  {| text := newText; data := data c; mentions := mentions c;
     attachments := attachments c |}.

(** Assigning [message.content.text] from outside the service. *)
Definition mutateText (m : Message) (newText : string) : Message :=
  {| msg_id := msg_id m; msg_projectId := msg_projectId m;
     targetId := targetId m; targetType := targetType m;
     senderId := senderId m; msg_type := msg_type m;
     content := set_text (content m) newText;
     threadId := threadId m; correlationId := correlationId m;
     signature := signature m; deliveryStatus := deliveryStatus m;
     sentAt := sentAt m; editedAt := editedAt m; deletedAt := deletedAt m |}.

Definition set_messages (svc : t) (ms : gmap string Message) : t :=
  {| messages := ms; channelMessages := channelMessages svc;
     threadMessages := threadMessages svc; projectId := projectId svc;
     signingKey := signingKey svc |}.

(** [index.get(key).push(id)], creating the array when missing. *)
Definition pushIndex (index : gmap string (list string)) (key id : string)
    : gmap string (list string) :=
  <[key := default [] (index !! key) ++ [id]]> index.

(** [broadcastMessage(message)] at time [nowMs] *)
Definition broadcastMessage (relay : option RelayClient.t) (message : Message)
    (nowMs : Z) : option RelayClient.t :=
  match relay with
  | None => None
  | Some rc =>
      let wsMessage :=
        {| ws_type := ws_message; ws_event_name := None;
           ws_data := data_message message; ws_timestamp := nowMs;
           ws_correlationId := None |} in
      Some match targetType message with
           | target_channel =>
               RelayClient.broadcastToChannel rc (targetId message) wsMessage
           | target_agent =>
               RelayClient.sendToAgent rc (targetId message) wsMessage
           | target_broadcast => RelayClient.broadcast rc wsMessage
           end
  end.

(** [markDelivered(messageId, recipientId)] *)
Definition markDelivered (svc : t) (messageId recipientId : string) : t :=
  match messages svc !! messageId with
  | Some message =>
      match deliveryStatus message with
      | SENT =>
          set_messages svc
            (<[messageId := set_deliveryStatus message DELIVERED]> (messages svc))
      | _ => svc
      end
  | None => svc
  end.

(** [markRead(messageId, readerId)] *)
Definition markRead (svc : t) (messageId readerId : string) : t :=
  match messages svc !! messageId with
  | Some message =>
      set_messages svc
        (<[messageId := set_deliveryStatus message READ_]> (messages svc))
  | None => svc
  end.

(** [getById(id)] *)
Definition getById (svc : t) (id : string) : option Message :=
  messages svc !! id.

Section Signing.

(** [crypto.createHmac('sha256', key).update(payload).digest('base64')] *)
Variable hmacSha256 : string -> string -> string.

(** [signMessage(id, senderId, content, sentAt)] *)
Definition signMessage (svc : t) (id senderId : string)
    (c : MessageContent) (sentAt : string) : string :=
  let payload := JSON.stringifySigned id senderId c sentAt in
  hmacSha256 (signingKey svc) payload.

(** [verifySignature(message)] *)
Definition verifySignature (svc : t) (message : Message) : bool :=
  let expectedSig :=
    signMessage svc (msg_id message) (senderId message) (content message)
      (sentAt message) in
  String.eqb (signature message) expectedSig.

(** [send(input, senderId)].  [channelService] and [relay] are the
    optional collaborators the service was built with; [uuid], [now]
    (an ISO string) and [nowMs] come from the uuid source and the
    clock. *)
Definition send (svc : t) (channelService : option ChannelService.t)
    (relay : option RelayClient.t) (input : MessageSendInput)
    (sender uuid now : string) (nowMs : Z)
    : Outcome Message * t * option RelayClient.t :=
  let denied :=
    match in_targetType input, channelService with
    | target_channel, Some cs =>
        negb (ChannelService.checkAccess cs (in_targetId input) sender WRITE)
    | _, _ => false
    end in
  if denied then
    (Threw (PermissionDenied "Permission denied: cannot send to this channel"),
     svc, relay)
  else
    let id := "msg-" +:+ uuid in
    let c :=
      {| text := in_text input; data := in_data input;
         mentions := extractMentions (in_text input); attachments := [] |} in
    let message :=
      {| msg_id := id;
         msg_projectId := projectId svc;
         targetId := in_targetId input;
         targetType := in_targetType input;
         senderId := sender;
         msg_type := default TEXT (in_type input);
         content := c;
         threadId := in_threadId input;
         correlationId := in_correlationId input;
         signature := signMessage svc id sender c now;
         deliveryStatus := SENT;
         sentAt := now;
         editedAt := None;
         deletedAt := None |} in
    let channelIndex :=
      match in_targetType input with
      | target_channel => pushIndex (channelMessages svc) (in_targetId input) id
      | _ => channelMessages svc
      end in
    let threadIndex :=
      match in_threadId input with
      | Some thread =>
          if String.eqb thread "" then threadMessages svc
          else pushIndex (threadMessages svc) thread id
      | None => threadMessages svc
      end in
    (Returned message,
     {| messages := <[id := message]> (messages svc);
        channelMessages := channelIndex;
        threadMessages := threadIndex;
        projectId := projectId svc;
        signingKey := signingKey svc |},
     broadcastMessage relay message nowMs).

(** [edit(messageId, newText, editorId)] *)
Definition edit (svc : t) (relay : option RelayClient.t)
    (messageId newText editorId now : string) (nowMs : Z)
    : Outcome bool * t * option RelayClient.t :=
  match messages svc !! messageId with
  | None => (Returned false, svc, relay)
  | Some message =>
      if negb (String.eqb (senderId message) editorId) then
        (Threw (PermissionDenied "Permission denied: only sender can edit message"),
         svc, relay)
      else
        let c := set_text (content message) newText in
        let message' :=
          {| msg_id := msg_id message;
             msg_projectId := msg_projectId message;
             targetId := targetId message;
             targetType := targetType message;
             senderId := senderId message;
             msg_type := msg_type message;
             content := c;
             threadId := threadId message;
             correlationId := correlationId message;
             signature :=
               signMessage svc (msg_id message) (senderId message) c
                 (sentAt message);
             deliveryStatus := deliveryStatus message;
             sentAt := sentAt message;
             editedAt := Some now;
             deletedAt := deletedAt message |} in
        (Returned true,
         set_messages svc (<[messageId := message']> (messages svc)),
         (fun rc =>
               RelayClient.emitRelayEvent rc
                 {| ev_type := "message.sent"; ev_source := editorId;
                    ev_target := Some (targetId message);
                    ev_data := data_edited messageId newText;
                    ev_timestamp := nowMs |}) <$> relay)
  end.

End Signing.

(** [delete(messageId, deleterId)] *)
Definition delete (svc : t) (relay : option RelayClient.t)
    (messageId deleterId now : string) (nowMs : Z)
    : Outcome bool * t * option RelayClient.t :=
  match messages svc !! messageId with
  | None => (Returned false, svc, relay)
  | Some message =>
      if negb (String.eqb (senderId message) deleterId) then
        (Threw (PermissionDenied "Permission denied: only sender can delete message"),
         svc, relay)
      else
        let message' :=
          {| msg_id := msg_id message;
             msg_projectId := msg_projectId message;
             targetId := targetId message;
             targetType := targetType message;
             senderId := senderId message;
             msg_type := msg_type message;
             content := content message;
             threadId := threadId message;
             correlationId := correlationId message;
             signature := signature message;
             deliveryStatus := deliveryStatus message;
             sentAt := sentAt message;
             editedAt := editedAt message;
             deletedAt := Some now |} in
        (Returned true,
         set_messages svc (<[messageId := message']> (messages svc)),
         (fun rc =>
               RelayClient.emitRelayEvent rc
                 {| ev_type := "message.sent"; ev_source := deleterId;
                    ev_target := Some (targetId message);
                    ev_data := data_deleted messageId;
                    ev_timestamp := nowMs |}) <$> relay)
  end.

(** *** Listings *)

(** The truth value of an optional string: [undefined] and the empty
    string are false. *)
Definition truthy (o : option string) : bool :=
  match o with
  | Some s => negb (String.eqb s "")
  | None => false
  end.

(** [Array.prototype.sort(compare)], which is stable: an element
    goes in front of the first element it does not compare greater
    than, and the elements are put in from the last to the first. *)
Fixpoint insertBy {A : Type} (compare : A -> A -> Z) (x : A) (sorted : list A)
    : list A :=
  match sorted with
  | [] => [x]
  | y :: rest =>
      if compare x y <=? 0 then x :: y :: rest
      else y :: insertBy compare x rest
  end.

Fixpoint sort {A : Type} (compare : A -> A -> Z) (items : list A) : list A :=
  match items with
  | [] => []
  | x :: rest => insertBy compare x (sort compare rest)
  end.

(** [items.slice(0, end)]: a negative [end] counts from the end of
    the array. *)
Definition slice {A : Type} (items : list A) (end_ : Z) : list A :=
  if end_ <? 0 then take (Z.to_nat (Z.of_nat (length items) + end_)) items
  else take (Z.to_nat end_) items.

Section Listing.

(** [new Date(s).getTime()] on the ISO timestamps the service stores. *)
Variable getTime : string -> Z.

(** [getChannelMessages(channelId, limit = 50, before)] *)
Definition getChannelMessages (svc : t) (channelId : string)
    (limit : option Z) (before : option string) : list Message :=
  let ids := default [] (channelMessages svc !! channelId) in
  let found := omap (fun id => messages svc !! id) ids in
  let live := filter (fun m => truthy (deletedAt m) = false) found in
  let sorted :=
    sort (fun a b => getTime (sentAt b) - getTime (sentAt a)) live in
  let cut :=
    if truthy before then
      match messages svc !! default "" before with
      | Some beforeMsg =>
          filter (fun m => getTime (sentAt m) < getTime (sentAt beforeMsg))
            sorted
      | None => sorted
      end
    else sorted in
  slice cut (default 50 limit).

(** [getThreadMessages(threadId)] *)
Definition getThreadMessages (svc : t) (threadId : string) : list Message :=
  let ids := default [] (threadMessages svc !! threadId) in
  sort (fun a b => getTime (sentAt a) - getTime (sentAt b))
    (filter (fun m => truthy (deletedAt m) = false)
       (omap (fun id => messages svc !! id) ids)).

End Listing.

End MessageService.

(** * Properties *)

(** ** Strings *)

Section StringFacts.

Lemma string_app_cons (x : ascii) (a b : string) :
  String x a +:+ b = String x (a +:+ b).
Proof. reflexivity. Qed.

Lemma string_app_nil_l (b : string) : "" +:+ b = b.
Proof. reflexivity. Qed.

Lemma string_app_assoc (a b c : string) : (a +:+ b) +:+ c = a +:+ (b +:+ c).
Proof.
  induction a as [|x a IH]; [reflexivity|].
  rewrite !string_app_cons. f_equal. exact IH.
Qed.

Lemma string_app_nil_r (a : string) : a +:+ "" = a.
Proof.
  induction a as [|x a IH]; [reflexivity|].
  rewrite string_app_cons. f_equal. exact IH.
Qed.

Lemma string_app_length (a b : string) :
  String.length (a +:+ b) = (String.length a + String.length b)%nat.
Proof.
  induction a as [|x a IH]; [reflexivity|].
  rewrite string_app_cons. simpl. f_equal. exact IH.
Qed.

Lemma string_app_inv_head (a b c : string) : a +:+ b = a +:+ c -> b = c.
Proof.
  induction a as [|x a IH]; intros H; [exact H|].
  rewrite !string_app_cons in H. injection H as H. now apply IH.
Qed.

Lemma string_app_inv_tail (a b c : string) : a +:+ c = b +:+ c -> a = b.
Proof.
  revert b. induction a as [|x a IH]; intros [|y b] H.
  - reflexivity.
  - exfalso. apply (f_equal String.length) in H.
    rewrite !string_app_length in H. simpl in H. lia.
  - exfalso. apply (f_equal String.length) in H.
    rewrite !string_app_length in H. simpl in H. lia.
  - rewrite !string_app_cons in H. injection H as -> H. f_equal. now apply IH.
Qed.

Lemma substring_all (s : string) : substring 0 (String.length s) s = s.
Proof. induction s as [|x s IH]; simpl; [reflexivity | now rewrite IH]. Qed.

Lemma substring_app_skip (a b : string) (n : nat) :
  substring (String.length a) n (a +:+ b) = substring 0 n b.
Proof.
  induction a as [|x a IH]; [reflexivity|].
  rewrite string_app_cons. simpl. exact IH.
Qed.

Lemma substring_app_take (a b : string) :
  substring 0 (String.length a) (a +:+ b) = a.
Proof.
  induction a as [|x a IH].
  - rewrite string_app_nil_l. now destruct b.
  - rewrite string_app_cons. simpl. now rewrite IH.
Qed.

(** A string splits at any position inside it. *)
Lemma substring_split (s : string) (n : nat) :
  (n <= String.length s)%nat ->
  s = substring 0 n s +:+ substring n (String.length s - n) s.
Proof.
  revert n. induction s as [|x s IH]; intros [|n] Hn; simpl in *.
  - reflexivity.
  - lia.
  - now rewrite substring_all.
  - rewrite string_app_cons. f_equal. apply IH. lia.
Qed.

Lemma startsWith_spec (s pre : string) :
  JsString.startsWith s pre = true <-> exists rest, s = pre +:+ rest.
Proof.
  unfold JsString.startsWith. revert s.
  induction pre as [|x pre IH]; intros s.
  - split; [intros _; now exists s | now destruct s].
  - destruct s as [|y s]; simpl.
    + split; [discriminate | intros [rest H]; discriminate].
    + destruct (ascii_dec x y) as [->|Hne].
      * rewrite IH. split; intros [rest H]; exists rest.
        -- rewrite string_app_cons. now rewrite H.
        -- rewrite string_app_cons in H. now injection H.
      * split; [discriminate|]. intros [rest H].
        rewrite string_app_cons in H. injection H as H _. now subst.
Qed.

Lemma endsWith_spec (s suffix : string) :
  JsString.endsWith s suffix = true <-> exists stem, s = stem +:+ suffix.
Proof.
  unfold JsString.endsWith. rewrite andb_true_iff, Nat.leb_le, String.eqb_eq.
  split.
  - intros [Hle Hsub].
    exists (substring 0 (String.length s - String.length suffix) s).
    assert (Hs := substring_split s (String.length s - String.length suffix)
                    ltac:(lia)).
    replace (String.length s - (String.length s - String.length suffix))%nat
      with (String.length suffix) in Hs by lia.
    rewrite Hsub in Hs. exact Hs.
  - intros [stem ->]. rewrite string_app_length. split; [lia|].
    replace (String.length stem + String.length suffix - String.length suffix)%nat
      with (String.length stem) by lia.
    rewrite substring_app_skip. apply substring_all.
Qed.

Lemma dropLast_app_char (stem : string) (c : ascii) :
  JsString.dropLast (stem +:+ String c "") = stem.
Proof.
  unfold JsString.dropLast. rewrite string_app_length. simpl.
  replace (String.length stem + 1 - 1)%nat with (String.length stem) by lia.
  apply substring_app_take.
Qed.

End StringFacts.

(** ** AuthService: permission checks and token issuance *)

Section AuthProperties.
Import AuthService.

(** The resource patterns, in the words of the specification: [*]
    matches everything, an exact string matches itself, and
    [stem:*] matches whatever starts with [stem:]. *)
Definition resourceMatches (pattern res : string) : Prop :=
  pattern = "*" \/ pattern = res \/
  exists stem, pattern = stem +:+ ":*" /\ exists rest, res = stem +:+ ":" +:+ rest.

(** A permission authorizes an action when its action set holds the
    action itself or [admin]. *)
Definition authorizes (perm : Permission) (res : string) (action : Action) : Prop :=
  resourceMatches (resource perm) res /\
  (In action (actions perm) \/ In admin (actions perm)).

Lemma Action_eqb_eq (a b : Action) : Action_eqb a b = true <-> a = b.
Proof. destruct a, b; simpl; split; congruence. Qed.

Lemma includes_In (acts : list Action) (a : Action) :
  includes acts a = true <-> In a acts.
Proof.
  unfold includes. rewrite existsb_exists. split.
  - intros [x [Hin Heq]]. apply Action_eqb_eq in Heq. now subst.
  - intros Hin. exists a. split; [exact Hin | now apply Action_eqb_eq].
Qed.

Lemma matchResource_spec (pattern res : string) :
  matchResource pattern res = true <-> resourceMatches pattern res.
Proof.
  unfold matchResource, resourceMatches.
  destruct (String.eqb_spec pattern "*") as [->|Hstar].
  { split; [now left | reflexivity]. }
  destruct (String.eqb_spec pattern res) as [->|Hne].
  { split; [right; now left | reflexivity]. }
  destruct (JsString.endsWith pattern ":*") eqn:Hends.
  - apply endsWith_spec in Hends as [stem ->].
    assert (Hdrop : JsString.dropLast (stem +:+ ":*") = stem +:+ ":").
    { change ":*" with (":" +:+ "*"). rewrite <- string_app_assoc.
      apply dropLast_app_char. }
    rewrite Hdrop, startsWith_spec. split.
    + intros [rest ->]. right; right. exists stem. split; [reflexivity|].
      exists rest. now rewrite string_app_assoc.
    + intros [|[|[stem' [Heq [rest ->]]]]]; [contradiction..|].
      apply string_app_inv_tail in Heq. subst stem'.
      exists rest. now rewrite string_app_assoc.
  - split; [discriminate|].
    intros [|[|[stem [-> _]]]]; [contradiction..|].
    assert (JsString.endsWith (stem +:+ ":*") ":*" = true)
      by (apply endsWith_spec; now exists stem).
    congruence.
Qed.

(** C2. [checkPermissions] answers true exactly when some permission of
    the list matches the resource (by [*], by equality, or by a
    [stem:*] prefix pattern) and holds the requested action or
    [admin]; the single permission [admin] on [*] authorizes every
    action on every resource. *)
Theorem checkPermissions_spec :
  (forall (perms : list Permission) (res : string) (action : Action),
      checkPermissions perms res action = true <->
      exists perm, In perm perms /\ authorizes perm res action) /\
  (forall (res : string) (action : Action),
      checkPermissions [ {| resource := "*"; actions := [admin] |} ] res action
      = true).
Proof.
  assert (Hiff : forall perms res action,
             checkPermissions perms res action = true <->
             exists perm, In perm perms /\ authorizes perm res action).
  { intros perms res action. induction perms as [|perm rest IH]; simpl.
    - split; [discriminate | intros [p [[] _]]].
    - assert (Hhere :
        (matchResource (resource perm) res = true /\
         (includes (actions perm) action || includes (actions perm) admin) = true)
        <-> authorizes perm res action).
      { unfold authorizes.
        rewrite matchResource_spec, orb_true_iff, !includes_In. reflexivity. }
      destruct (matchResource (resource perm) res) eqn:Hm;
        [destruct (includes (actions perm) action || includes (actions perm) admin)
           eqn:Ha|].
      + split; [intros _|reflexivity]. exists perm. split; [now left|].
        apply Hhere. now split.
      + rewrite IH. split.
        * intros [p [Hin Hp]]. exists p. split; [now right | exact Hp].
        * intros [p [[<-|Hin] Hp]]; [|now exists p].
          apply Hhere in Hp as [_ Hp]. discriminate.
      + rewrite IH. split.
        * intros [p [Hin Hp]]. exists p. split; [now right | exact Hp].
        * intros [p [[<-|Hin] Hp]]; [|now exists p].
          apply Hhere in Hp as [Hp _]. discriminate.
  }
  split; [exact Hiff|].
  intros res action. apply Hiff.
  exists {| resource := "*"; actions := [admin] |}.
  split; [now left|]. split; [now left | right; now left].
Qed.

Lemma sign_outcome (payload : TokenPayload) (key : string) (lifetime_ms : Z) :
  key <> "" ->
  (lifetime_ms mod 1000 = 0 ->
   sign payload key lifetime_ms
   = Issued {| jwt_payload := payload; jwt_key := key;
               jwt_lifetime_ms := lifetime_ms |}) /\
  (lifetime_ms mod 1000 <> 0 ->
   exists message, sign payload key lifetime_ms = SignThrew message).
Proof.
  intros Hkey. apply String.eqb_neq in Hkey. unfold sign. rewrite Hkey. split.
  - intros Hwhole. apply Z.eqb_eq in Hwhole. now rewrite Hwhole.
  - intros Hpart. apply Z.eqb_neq in Hpart. rewrite Hpart. now eexists.
Qed.

Definition thirtyOneDays : Z := 31 * 24 * 60 * 60 * 1000.

Definition worker1 : AgentIdentity :=
  {| agent_id := "agent-1"; agent_name := "Worker1";
     agent_permissions := createDefaultPermissions |}.

(** Against C5 as it is stated: a service built with a lifetime of 31
    days, above the ceiling of 30 days, issues a token valid for the
    full 31 days; the lifetime is neither rejected nor clamped. *)
Lemma generateToken_ignores_cap :
  let svc := AuthService.new (Some "secret") (Some thirtyOneDays) None "uuid-0" in
  TOKEN_MAX_LIFETIME_SECONDS * 1000 < tokenExpiry svc /\
  exists token,
    generateToken svc worker1 0 = Issued token /\
    issuedAt (jwt_payload token) = 0 /\
    expiresAt (jwt_payload token) = thirtyOneDays /\
    jwt_lifetime_ms token = thirtyOneDays.
Proof.
  cbv zeta. split; [reflexivity|]. eexists. split; [reflexivity|].
  repeat split.
Qed.

(** C5, as the code has it.  Token issuance knows no ceiling on the
    lifetime and no [ExpiredConfiguration]: for every lifetime that is a
    whole number of seconds, of whatever size, a token is issued whose
    payload carries the agent id, the agent name, the permissions,
    [issuedAt] and [expiresAt = issuedAt + lifetime], signed with the
    secret of the service for that lifetime.  The one failure is that
    of the JWT library, which throws for a lifetime that is not a whole
    number of seconds. *)
Theorem generateToken_outcome (svc : t) (agent : AgentIdentity) (now : Z) :
  safeInteger now -> safeInteger (tokenExpiry svc) ->
  safeInteger (now + tokenExpiry svc) ->
  secret svc <> "" ->
  (tokenExpiry svc mod 1000 = 0 ->
   generateToken svc agent now
   = Issued {| jwt_payload :=
                 {| agentId := agent_id agent; agentName := agent_name agent;
                    permissions := agent_permissions agent; issuedAt := now;
                    expiresAt := now + tokenExpiry svc |};
               jwt_key := secret svc;
               jwt_lifetime_ms := tokenExpiry svc |}) /\
  (tokenExpiry svc mod 1000 <> 0 ->
   exists message, generateToken svc agent now = SignThrew message).
Proof.
  intros _ _ _ Hkey. unfold generateToken. now apply sign_outcome.
Qed.

Lemma generateToken_outcome_witness :
  exists token,
    generateToken (AuthService.new None (Some thirtyOneDays) None "uuid-0")
      worker1 1767225600000
    = Issued token /\
    expiresAt (jwt_payload token) = 1767225600000 + thirtyOneDays.
Proof.
  eexists. split.
  - apply (generateToken_outcome
             (AuthService.new None (Some thirtyOneDays) None "uuid-0")
             worker1 1767225600000).
    + split; reflexivity.
    + split; reflexivity.
    + split; reflexivity.
    + discriminate.
    + reflexivity.
  - reflexivity.
Defined.

End AuthProperties.

(** ** ChannelService: access rules and membership *)

Section ChannelProperties.
Import Models ChannelService.

(** The order read < write < admin. *)
Definition levelRank (l : ChannelAccessLevel) : nat :=
  match l with READ => 0 | WRITE => 1 | ADMIN => 2 end.

(** A level satisfies a requirement when it is at least the requirement. *)
Definition satisfies (actual required : ChannelAccessLevel) : bool :=
  (levelRank required <=? levelRank actual)%nat.

(** The structural match of a rule, in the words of the
    specification: [all] matches any agent, [agent] only the agent
    it names. *)
Definition principalMatches (rule : ChannelAccessRule) (agentId : string) : Prop :=
  principalType rule = principal_all \/
  (principalType rule = principal_agent /\ principal rule = agentId).

Lemma accessLevelSatisfies_rank (actual required : ChannelAccessLevel) :
  accessLevelSatisfies actual required = satisfies actual required.
Proof. destruct actual, required; reflexivity. Qed.

Lemma matchRule_spec (rule : ChannelAccessRule) (agentId : string) :
  matchRule rule agentId = true <-> principalMatches rule agentId.
Proof.
  unfold matchRule, principalMatches.
  destruct (principalType rule); rewrite ?String.eqb_eq.
  - split; [intros H; right; now split | now intros [|[_ H]]].
  - split; [discriminate | intros [|[? _]]; discriminate].
  - split; [now left | reflexivity].
Qed.

Lemma checkRules_first (before after : list ChannelAccessRule)
    (rule : ChannelAccessRule) (agentId : string) (required : ChannelAccessLevel) :
  Forall (fun r => ~ principalMatches r agentId) before ->
  principalMatches rule agentId ->
  checkRules (before ++ rule :: after) agentId required =
  Some (satisfies (level rule) required).
Proof.
  intros Hbefore Hrule. induction Hbefore as [|r before Hr _ IH]; simpl.
  - apply matchRule_spec in Hrule. rewrite Hrule.
    now rewrite accessLevelSatisfies_rank.
  - destruct (matchRule r agentId) eqn:Hm; [|exact IH].
    apply matchRule_spec in Hm. contradiction.
Qed.

Lemma checkRules_none (rules : list ChannelAccessRule) (agentId : string)
    (required : ChannelAccessLevel) :
  Forall (fun r => ~ principalMatches r agentId) rules ->
  checkRules rules agentId required = None.
Proof.
  induction 1 as [|r rules Hr _ IH]; simpl; [reflexivity|].
  destruct (matchRule r agentId) eqn:Hm; [|exact IH].
  apply matchRule_spec in Hm. contradiction.
Qed.

(** C1. On an existing channel [checkAccess] returns the verdict of
    the first rule, in list order, whose principal matches the agent,
    the verdict being "the rule's level is at least the required
    one" under read < write < admin; with no matching rule the
    default access decides in the same way, and with no matching rule
    and no default access a read is refused. *)
Theorem checkAccess_first_match (svc : ChannelService.t)
    (channelId agentId : string) (channel : Channel) :
  channels svc !! channelId = Some channel ->
  (forall before rule after required,
      accessRules channel = before ++ rule :: after ->
      Forall (fun r => ~ principalMatches r agentId) before ->
      principalMatches rule agentId ->
      checkAccess svc channelId agentId required
      = satisfies (level rule) required) /\
  (forall required,
      Forall (fun r => ~ principalMatches r agentId) (accessRules channel) ->
      checkAccess svc channelId agentId required
      = match defaultAccess channel with
        | Some d => satisfies d required
        | None => false
        end) /\
  (Forall (fun r => ~ principalMatches r agentId) (accessRules channel) ->
   defaultAccess channel = None ->
   checkAccess svc channelId agentId READ = false).
Proof.
  intros Hch. unfold checkAccess. rewrite Hch. repeat split.
  - intros before rule after required Hrules Hbefore Hrule.
    rewrite Hrules, (checkRules_first _ _ _ _ _ Hbefore Hrule). reflexivity.
  - intros required Hnone. rewrite (checkRules_none _ _ _ Hnone).
    destruct (defaultAccess channel); [apply accessLevelSatisfies_rank | reflexivity].
  - intros Hnone Hdef. rewrite (checkRules_none _ _ _ Hnone), Hdef. reflexivity.
Qed.

(** The private channel [#ops] of the scenario, after the rule for
    [Worker1] was added. *)
Definition opsChannel : Channel :=
  {| ch_id := "ch-ops"; ch_name := "ops"; ch_projectId := "p";
     ch_type := PRIVATE;
     accessRules :=
       [ {| principal := "Worker1"; principalType := principal_agent;
            level := WRITE; rule_expiresAt := None |} ];
     defaultAccess := None;
     ch_metadata := {| displayName := "ops"; topic := None; purpose := None;
                       isArchived := false; allowExternal := false;
                       retentionDays := None; custom := None |};
     ch_createdBy := "Lead"; ch_createdAt := "2026-01-01T00:00:00.000Z";
     memberCount := 0 |}.

Definition opsService : ChannelService.t :=
  {| channels := {[ "ch-ops" := opsChannel ]};
     nameIndex := {[ "ops" := "ch-ops" ]};
     memberships := {[ "ch-ops" := ∅ ]};
     projectId := "p" |}.

Lemma checkAccess_first_match_witness :
  channels opsService !! "ch-ops" = Some opsChannel /\
  checkAccess opsService "ch-ops" "Worker2" READ = false.
Proof.
  split; [reflexivity|].
  apply (checkAccess_first_match opsService "ch-ops" "Worker2" opsChannel);
    [reflexivity | | reflexivity].
  repeat constructor. intros [H|[_ H]]; discriminate.
Defined.

(** *** Membership *)

(** Every channel has a membership set and counts its members. *)
Definition countsAgree (svc : ChannelService.t) : Prop :=
  forall id channel,
    channels svc !! id = Some channel ->
    exists members,
      memberships svc !! id = Some members /\ memberCount channel = size members.

Lemma countsAgree_blank (projectId : string) : countsAgree (blank projectId).
Proof. intros id channel H. simpl in H. rewrite lookup_empty in H. discriminate. Qed.

Lemma countsAgree_perform (st : ChannelService.t * option RelayClient.t)
    (c : Call) :
  countsAgree st.1 -> countsAgree (perform st c).1.
Proof.
  destruct st as [svc relay]. simpl. intros Hinv.
  destruct c as [input createdBy uuid now | channelId agentId
                | channelId agentId | channelId rule | channelId updates
                | channelId]; simpl.
  - unfold create. destruct (nameIndex svc !! in_name input); [exact Hinv|].
    simpl. intros id channel Hid. simpl in *.
    destruct (decide ("ch-" +:+ uuid = id)) as [<-|Hne].
    + rewrite lookup_insert_eq in Hid. injection Hid as <-.
      exists ∅. rewrite lookup_insert_eq. split; [reflexivity|].
      rewrite size_empty. reflexivity.
    + rewrite lookup_insert_ne in Hid by exact Hne.
      rewrite lookup_insert_ne by exact Hne. now apply Hinv.
  - unfold join. destruct (channels svc !! channelId) as [channel|] eqn:Hch;
      [|exact Hinv].
    destruct (negb (checkAccess svc channelId agentId READ)); [exact Hinv|].
    destruct (memberships svc !! channelId) as [members|] eqn:Hm; [|exact Hinv].
    destruct (decide (agentId ∈ members)); [exact Hinv|].
    simpl. intros id c Hid. simpl in *.
    destruct (decide (channelId = id)) as [<-|Hne].
    + rewrite lookup_insert_eq in Hid. injection Hid as <-.
      eexists. rewrite lookup_insert_eq. split; reflexivity.
    + rewrite lookup_insert_ne in Hid by exact Hne.
      rewrite lookup_insert_ne by exact Hne. now apply Hinv.
  - unfold leave. destruct (channels svc !! channelId) as [channel|] eqn:Hch;
      [|exact Hinv].
    destruct (memberships svc !! channelId) as [members|] eqn:Hm; [|exact Hinv].
    destruct (decide (agentId ∈ members)); [|exact Hinv].
    simpl. intros id c Hid. simpl in *.
    destruct (decide (channelId = id)) as [<-|Hne].
    + rewrite lookup_insert_eq in Hid. injection Hid as <-.
      eexists. rewrite lookup_insert_eq. split; reflexivity.
    + rewrite lookup_insert_ne in Hid by exact Hne.
      rewrite lookup_insert_ne by exact Hne. now apply Hinv.
  - unfold addAccessRule.
    destruct (channels svc !! channelId) as [channel|] eqn:Hch; [|exact Hinv].
    simpl. intros id c Hid. simpl in *.
    destruct (decide (channelId = id)) as [<-|Hne].
    + rewrite lookup_insert_eq in Hid. injection Hid as <-.
      simpl. now apply Hinv.
    + rewrite lookup_insert_ne in Hid by exact Hne. now apply Hinv.
  - unfold update.
    destruct (channels svc !! channelId) as [channel|] eqn:Hch; [|exact Hinv].
    simpl. intros id c Hid. simpl in *.
    destruct (decide (channelId = id)) as [<-|Hne].
    + rewrite lookup_insert_eq in Hid. injection Hid as <-.
      simpl. now apply Hinv.
    + rewrite lookup_insert_ne in Hid by exact Hne. now apply Hinv.
  - unfold delete.
    destruct (channels svc !! channelId) as [channel|] eqn:Hch; [|exact Hinv].
    simpl. intros id c Hid. simpl in *.
    destruct (decide (channelId = id)) as [<-|Hne].
    + rewrite lookup_delete_eq in Hid. discriminate.
    + rewrite lookup_delete_ne in Hid by exact Hne.
      rewrite lookup_delete_ne by exact Hne. now apply Hinv.
Qed.

Lemma countsAgree_calls (calls : list Call)
    (st : ChannelService.t * option RelayClient.t) :
  countsAgree st.1 -> countsAgree (foldl perform st calls).1.
Proof.
  revert st. induction calls as [|c calls IH]; intros st Hinv; simpl.
  - exact Hinv.
  - apply IH. now apply countsAgree_perform.
Qed.

(** The freshly constructed registry, with its two default channels. *)
Lemma countsAgree_new (projectId uuid1 now1 uuid2 now2 : string) :
  countsAgree (ChannelService.new projectId uuid1 now1 uuid2 now2).
Proof. unfold ChannelService.new. apply countsAgree_calls, countsAgree_blank. Qed.

Lemma checkAccess_set_memberCount (svc : ChannelService.t)
    (channelId agentId : string) (channel : Channel) (n : nat)
    (ms : gmap string (gset string)) (required : ChannelAccessLevel) :
  channels svc !! channelId = Some channel ->
  checkAccess
    {| channels := <[channelId := set_memberCount channel n]> (channels svc);
       nameIndex := nameIndex svc; memberships := ms;
       projectId := ChannelService.projectId svc |}
    channelId agentId required
  = checkAccess svc channelId agentId required.
Proof.
  intros Hch. unfold checkAccess. simpl.
  rewrite lookup_insert_eq, Hch. reflexivity.
Qed.

Lemma join_member (svc svc1 : ChannelService.t)
    (relay relay1 : option RelayClient.t) (channelId agentId : string) :
  join svc relay channelId agentId = (Returned true, svc1, relay1) ->
  exists channel members,
    channels svc1 !! channelId = Some channel /\
    memberships svc1 !! channelId = Some members /\
    agentId ∈ members /\
    (countsAgree svc -> memberCount channel = size members).
Proof.
  unfold join. intros H.
  destruct (channels svc !! channelId) as [channel|] eqn:Hch; [|discriminate].
  destruct (negb (checkAccess svc channelId agentId READ)); [discriminate|].
  destruct (memberships svc !! channelId) as [members|] eqn:Hm; [|discriminate].
  destruct (decide (agentId ∈ members)) as [Hin|Hin]; injection H as <- <-.
  - exists channel, members. repeat split; try assumption.
    intros Hinv. destruct (Hinv _ _ Hch) as [members' [Hm' Hcount]]. congruence.
  - eexists _, _. simpl. rewrite !lookup_insert_eq.
    split; [reflexivity|]. split; [reflexivity|].
    split; [set_solver | intros _; reflexivity].
Qed.

Lemma join_again (svc svc1 : ChannelService.t)
    (relay relay1 : option RelayClient.t) (channelId agentId : string) :
  join svc relay channelId agentId = (Returned true, svc1, relay1) ->
  join svc1 relay1 channelId agentId = (Returned true, svc1, relay1).
Proof.
  unfold join at 1. intros H.
  destruct (channels svc !! channelId) as [channel|] eqn:Hch; [|discriminate].
  destruct (negb (checkAccess svc channelId agentId READ)) eqn:Hacc;
    [discriminate|].
  destruct (memberships svc !! channelId) as [members|] eqn:Hm; [|discriminate].
  destruct (decide (agentId ∈ members)) as [Hin|Hin]; injection H as <- <-.
  - unfold join. rewrite Hch, Hacc, Hm.
    destruct (decide (agentId ∈ members)); [reflexivity | contradiction].
  - unfold join.
    rewrite (checkAccess_set_memberCount svc channelId agentId channel _ _ READ Hch).
    simpl. rewrite !lookup_insert_eq, Hacc.
    destruct (decide (agentId ∈ {[agentId]} ∪ members)) as [_|Hout];
      [reflexivity | exfalso; set_solver].
Qed.

Lemma elements_count_one (members : gset string) (agentId : string) :
  agentId ∈ members ->
  count_occ String.string_dec (elements members) agentId = 1%nat.
Proof.
  intros Hin. apply NoDup_count_occ'; [apply NoDup_ListNoDup, NoDup_elements|].
  apply list_elem_of_In, elem_of_elements, Hin.
Qed.

(** C7. In every state reached from the empty registry by create,
    join, leave, addAccessRule, update and delete calls, each channel's
    [memberCount] is the size of its membership set; and when a join
    succeeds there, the agent is in the membership set, listed exactly
    once among the members, the count agrees, and a second join
    changes nothing at all. *)
Theorem memberCount_invariant (projectId : string)
    (relay : option RelayClient.t) (calls : list Call) :
  let st := foldl perform (blank projectId, relay) calls in
  countsAgree st.1 /\
  forall channelId agentId svc1 relay1,
    join st.1 st.2 channelId agentId = (Returned true, svc1, relay1) ->
    (exists channel members,
        channels svc1 !! channelId = Some channel /\
        memberships svc1 !! channelId = Some members /\
        memberCount channel = size members /\
        agentId ∈ members /\
        count_occ String.string_dec (getMembers svc1 channelId) agentId = 1%nat) /\
    join svc1 relay1 channelId agentId = (Returned true, svc1, relay1).
Proof.
  intros st.
  assert (Hinv : countsAgree st.1)
    by (apply countsAgree_calls, countsAgree_blank).
  split; [exact Hinv|].
  intros channelId agentId svc1 relay1 Hjoin. split.
  - destruct (join_member _ _ _ _ _ _ Hjoin) as (channel & members & Hch & Hm & Hin & Hcount).
    exists channel, members. repeat split; try assumption.
    + now apply Hcount.
    + unfold getMembers. rewrite Hm. now apply elements_count_one.
  - now apply (join_again _ _ _ _ _ _ Hjoin).
Qed.

(** A run of the registry: the constructor's two default channels,
    then a join and a leave by other agents. *)
Definition generalId : string := "ch-0001".

Definition sampleCalls : list Call :=
  [ call_create {| in_name := "general"; in_type := Some PUBLIC;
                   in_topic := None; in_isPrivate := None;
                   in_metadata := None |} "system" "0001" "t0";
    call_create {| in_name := "announcements"; in_type := Some BROADCAST;
                   in_topic := None; in_isPrivate := None;
                   in_metadata := None |} "system" "0002" "t0";
    call_join generalId "Worker1";
    call_join generalId "Worker2";
    call_leave generalId "Worker1" ].

Lemma memberCount_invariant_witness :
  let st := foldl perform (blank "p", Some RelayClient.empty) sampleCalls in
  exists svc1 relay1,
    join st.1 st.2 generalId "Lead" = (Returned true, svc1, relay1) /\
    join svc1 relay1 generalId "Lead" = (Returned true, svc1, relay1).
Proof.
  intros st.
  destruct (join st.1 st.2 generalId "Lead") as [[[[]|e] svc1] relay1] eqn:Hjoin;
    [|exfalso; vm_compute in Hjoin; discriminate..].
  exists svc1, relay1. split; [reflexivity|].
  exact (proj2 (proj2 (memberCount_invariant "p" (Some RelayClient.empty) sampleCalls)
                  generalId "Lead" svc1 relay1 Hjoin)).
Defined.

End ChannelProperties.

(** ** JSON strings can be read back *)

Section JsonFacts.
Import JSON.

Definition hexValue (c : ascii) : nat :=
  let n := nat_of_ascii c in
  if (n <? 58)%nat then (n - 48)%nat else (n - 87)%nat.

(** Reading one escaped character back from the front of a string. *)
Definition unescapeChar (s : string) : option (ascii * string) :=
  match s with
  | EmptyString => None
  | String c rest =>
      if (nat_of_ascii c =? 92)%nat then
        match rest with
        | EmptyString => None
        | String e rest' =>
            match nat_of_ascii e with
            | 98 => Some (ascii_of_nat 8, rest')
            | 116 => Some (ascii_of_nat 9, rest')
            | 110 => Some (ascii_of_nat 10, rest')
            | 102 => Some (ascii_of_nat 12, rest')
            | 114 => Some (ascii_of_nat 13, rest')
            | 117 =>
                match rest' with
                | String _ (String _ (String h (String l rest''))) =>
                    Some (ascii_of_nat (16 * hexValue h + hexValue l), rest'')
                | _ => None
                end
            | _ => Some (e, rest')
            end%nat
        end
      else Some (c, rest)
  end.

Lemma unescapeChar_escapeChar (c : ascii) (rest : string) :
  unescapeChar (escapeChar c +:+ rest) = Some (c, rest).
Proof. destruct c as [[] [] [] [] [] [] [] []]; reflexivity. Qed.

Lemma escape_inj (s1 s2 : string) : escape s1 = escape s2 -> s1 = s2.
Proof.
  revert s2. induction s1 as [|c1 s1 IH]; intros [|c2 s2] H; simpl in H.
  - reflexivity.
  - apply (f_equal unescapeChar) in H.
    rewrite unescapeChar_escapeChar in H. discriminate.
  - apply (f_equal unescapeChar) in H.
    rewrite unescapeChar_escapeChar in H. discriminate.
  - apply (f_equal unescapeChar) in H.
    rewrite !unescapeChar_escapeChar in H. injection H as -> H.
    f_equal. now apply IH.
Qed.

Lemma commas_cons (a b : string) (rest : list string) :
  commas (a :: b :: rest) = a +:+ "," +:+ commas (b :: rest).
Proof. reflexivity. Qed.

Lemma commas_single (a : string) : commas [a] = a.
Proof. reflexivity. Qed.

(** The signed payload is the escaped text between two strings that
    do not depend on the text. *)
Lemma stringifySigned_text (id sender sentAt : string)
    (c : Models.MessageContent) :
  exists before after, forall newText,
    stringifySigned id sender (MessageService.set_text c newText) sentAt
    = before +:+ escape newText +:+ after.
Proof.
  exists ("{" +:+ field "id" (quote id) +:+ "," +:+
          field "senderId" (quote sender) +:+ "," +:+
          quote "content" +:+ ":" +:+ "{" +:+ quote "text" +:+ ":" +:+
          JsString.dquote).
  exists (JsString.dquote +:+ "," +:+ commas (contentTail c) +:+ "}" +:+ "," +:+
          field "sentAt" (quote sentAt) +:+ "}").
  intros newText.
  unfold stringifySigned, stringifyContent, object, field, quote.
  assert (Htail : contentTail (MessageService.set_text c newText) = contentTail c)
    by reflexivity.
  rewrite Htail.
  assert (Hcons : exists x rest, contentTail c = x :: rest).
  { unfold contentTail. destruct (Models.data c); simpl; eauto. }
  destruct Hcons as (x & rest & ->).
  cbn [MessageService.set_text Models.text].
  rewrite !commas_cons, commas_single, !string_app_assoc. reflexivity.
Qed.

Lemma stringifySigned_text_inj (id sender sentAt : string)
    (c : Models.MessageContent) (t1 t2 : string) :
  stringifySigned id sender (MessageService.set_text c t1) sentAt
  = stringifySigned id sender (MessageService.set_text c t2) sentAt ->
  t1 = t2.
Proof.
  destruct (stringifySigned_text id sender sentAt c) as (before & after & Heq).
  rewrite !Heq. intros H.
  apply string_app_inv_head, string_app_inv_tail in H.
  now apply escape_inj.
Qed.

End JsonFacts.

(** ** MessageService: sending, signing, editing, delivery status *)

Section MessageProperties.
Import Models MessageService.

Variable hmacSha256 : string -> string -> string.

(** The keyed hash does not collide on two given payloads. *)
Definition noCollision (key p q : string) : Prop :=
  hmacSha256 key p = hmacSha256 key q -> p = q.

(** C3. A send to a channel by a sender whom the channel service
    refuses write access throws the permission error, and the message
    store, both indexes and the relay are what they were before the
    call: nothing is created, stored, indexed or pushed. *)
Theorem send_denied_leaves_state (svc : MessageService.t)
    (cs : ChannelService.t) (relay : option RelayClient.t)
    (input : MessageSendInput) (sender uuid now : string) (nowMs : Z) :
  in_targetType input = target_channel ->
  ChannelService.checkAccess cs (in_targetId input) sender WRITE = false ->
  send hmacSha256 svc (Some cs) relay input sender uuid now nowMs
  = (Threw (PermissionDenied "Permission denied: cannot send to this channel"),
     svc, relay).
Proof.
  intros Htarget Hdenied. unfold send. rewrite Htarget, Hdenied. reflexivity.
Qed.

Lemma send_returns (svc svc' : MessageService.t) (cs : option ChannelService.t)
    (relay relay' : option RelayClient.t) (input : MessageSendInput)
    (sender uuid now : string) (nowMs : Z) (m : Message) :
  send hmacSha256 svc cs relay input sender uuid now nowMs
  = (Returned m, svc', relay') ->
  messages svc' !! msg_id m = Some m /\
  signingKey svc' = signingKey svc /\
  signature m = signMessage hmacSha256 svc (msg_id m) (senderId m) (content m)
                  (sentAt m) /\
  text (content m) = in_text input /\
  mentions (content m) = extractMentions (in_text input) /\
  deliveryStatus m = SENT.
Proof.
  unfold send. intros H.
  destruct (match in_targetType input with
            | target_channel => _ | _ => _ end); [discriminate|].
  injection H as <- <- _. simpl. rewrite lookup_insert_eq. repeat split.
Qed.

Lemma verifySignature_signed (svc svc' : MessageService.t) (m : Message) :
  signingKey svc' = signingKey svc ->
  signature m = signMessage hmacSha256 svc (msg_id m) (senderId m) (content m)
                  (sentAt m) ->
  verifySignature hmacSha256 svc' m = true.
Proof.
  intros Hkey Hsig. unfold verifySignature. rewrite Hsig.
  unfold signMessage. rewrite Hkey. apply String.eqb_refl.
Qed.

Lemma edit_returns (svc svc' : MessageService.t)
    (relay relay' : option RelayClient.t)
    (messageId newText editorId now : string) (nowMs : Z) (m : Message) :
  messages svc !! messageId = Some m ->
  edit hmacSha256 svc relay messageId newText editorId now nowMs
  = (Returned true, svc', relay') ->
  svc' = set_messages svc
           (<[messageId :=
                {| msg_id := msg_id m; msg_projectId := msg_projectId m;
                   targetId := targetId m; targetType := targetType m;
                   senderId := senderId m; msg_type := msg_type m;
                   content := set_text (content m) newText;
                   threadId := threadId m; correlationId := correlationId m;
                   signature :=
                     signMessage hmacSha256 svc (msg_id m) (senderId m)
                       (set_text (content m) newText) (sentAt m);
                   deliveryStatus := deliveryStatus m; sentAt := sentAt m;
                   editedAt := Some now; deletedAt := deletedAt m |}]>
              (messages svc)).
Proof.
  unfold edit. intros -> H.
  destruct (negb (String.eqb (senderId m) editorId)); [discriminate|].
  now injection H as <- _.
Qed.

(** C4. The message returned by a send verifies; the same message
    with its text overwritten from outside by a different text does not
    verify, provided the keyed hash does not collide on the two signed
    payloads; and whatever the stored signature was, after a successful
    edit the stored message verifies again. *)
Theorem signature_round_trip (svc svc1 : MessageService.t)
    (cs : option ChannelService.t) (relay relay1 : option RelayClient.t)
    (input : MessageSendInput) (sender uuid now : string) (nowMs : Z)
    (m : Message) :
  send hmacSha256 svc cs relay input sender uuid now nowMs
  = (Returned m, svc1, relay1) ->
  verifySignature hmacSha256 svc1 m = true /\
  (forall tampered,
      tampered <> text (content m) ->
      noCollision (signingKey svc1)
        (JSON.stringifySigned (msg_id m) (senderId m)
           (set_text (content m) tampered) (sentAt m))
        (JSON.stringifySigned (msg_id m) (senderId m) (content m) (sentAt m)) ->
      verifySignature hmacSha256 svc1 (mutateText m tampered) = false) /\
  (forall stored svc2 relay2 messageId newText editorId editTime editMs,
      messages svc1 !! messageId = Some stored ->
      edit hmacSha256 svc1 relay1 messageId newText editorId
        editTime editMs = (Returned true, svc2, relay2) ->
      exists edited,
        messages svc2 !! messageId = Some edited /\
        text (content edited) = newText /\
        verifySignature hmacSha256 svc2 edited = true).
Proof.
  intros Hsend.
  destruct (send_returns _ _ _ _ _ _ _ _ _ _ _ Hsend)
    as (Hstored & Hkey & Hsig & Htext & Hmentions & Hstatus).
  split; [now apply (verifySignature_signed svc)|]. split.
  - intros tampered Hne Hfree.
    unfold verifySignature. apply String.eqb_neq. intros Heq.
    simpl in Heq. rewrite Hsig in Heq. unfold signMessage in Heq.
    rewrite <- Hkey in Heq. symmetry in Heq. apply Hfree in Heq.
    assert (Hc : content m = set_text (content m) (text (content m)))
      by (now destruct (content m)).
    rewrite Hc in Heq at 2.
    apply stringifySigned_text_inj in Heq. contradiction.
  - intros stored svc2 relay2 messageId newText editorId editTime editMs Hst Hedit.
    rewrite (edit_returns _ _ _ _ _ _ _ _ _ _ Hst Hedit).
    eexists. simpl. rewrite lookup_insert_eq. split; [reflexivity|].
    split; [reflexivity|].
    unfold verifySignature, signMessage. simpl. apply String.eqb_refl.
Qed.

(** C6. [markDelivered] moves a stored message to [delivered] only
    when its status is exactly [sent], touching nothing else of it;
    from any other status (pending, delivered, read, failed) the call
    changes nothing; and no other message is affected. *)
Theorem markDelivered_only_from_sent (svc : MessageService.t)
    (messageId recipientId : string) (m : Message) :
  messages svc !! messageId = Some m ->
  (deliveryStatus m = SENT ->
   messages (markDelivered svc messageId recipientId) !! messageId
   = Some (set_deliveryStatus m DELIVERED)) /\
  (deliveryStatus m <> SENT ->
   markDelivered svc messageId recipientId = svc) /\
  (forall other, other <> messageId ->
   messages (markDelivered svc messageId recipientId) !! other
   = messages svc !! other).
Proof.
  intros Hm. unfold markDelivered. rewrite Hm. repeat split.
  - intros ->. simpl. apply lookup_insert_eq.
  - intros Hne. destruct (deliveryStatus m); congruence.
  - intros other Hother.
    destruct (deliveryStatus m); try reflexivity.
    simpl. apply lookup_insert_ne. congruence.
Qed.

(** C10. A successful edit of a stored message replaces the text,
    sets [editedAt] and recomputes the signature, and nothing else:
    the mentions (not extracted again, so they still describe the old
    text), data, attachments, sentAt, deliveryStatus, threadId,
    senderId and the remaining fields are those of the message before
    the edit, the other messages and both indexes are untouched. *)
Theorem edit_frame (svc svc' : MessageService.t)
    (relay relay' : option RelayClient.t)
    (messageId newText editorId now : string) (nowMs : Z) (m : Message) :
  messages svc !! messageId = Some m ->
  edit hmacSha256 svc relay messageId newText editorId now nowMs
  = (Returned true, svc', relay') ->
  exists m',
    messages svc' !! messageId = Some m' /\
    (text (content m') = newText /\
     editedAt m' = Some now /\
     signature m' = signMessage hmacSha256 svc (msg_id m) (senderId m)
                      (content m') (sentAt m)) /\
    (mentions (content m') = mentions (content m) /\
     data (content m') = data (content m) /\
     attachments (content m') = attachments (content m) /\
     sentAt m' = sentAt m /\
     deliveryStatus m' = deliveryStatus m /\
     threadId m' = threadId m /\
     senderId m' = senderId m /\
     msg_id m' = msg_id m /\
     msg_projectId m' = msg_projectId m /\
     targetId m' = targetId m /\
     targetType m' = targetType m /\
     msg_type m' = msg_type m /\
     correlationId m' = correlationId m /\
     deletedAt m' = deletedAt m) /\
    (forall other, other <> messageId ->
       messages svc' !! other = messages svc !! other) /\
    channelMessages svc' = channelMessages svc /\
    threadMessages svc' = threadMessages svc.
Proof.
  intros Hm Hedit. rewrite (edit_returns _ _ _ _ _ _ _ _ _ _ Hm Hedit).
  eexists. simpl. rewrite lookup_insert_eq. split; [reflexivity|].
  simpl. repeat split.
  intros other Hother. apply lookup_insert_ne. congruence.
Qed.

End MessageProperties.

(** ** The message properties on a concrete run *)

Section MessageExamples.
Import Models MessageService.

(** A keyed function to run the definitions with: key, then payload. *)
Definition concatMac (key payload : string) : string := key +:+ payload.

Definition opsMessages : MessageService.t := MessageService.new "p" "signing-key".

Definition helloInput : MessageSendInput :=
  {| in_targetId := "ch-ops"; in_targetType := target_channel;
     in_type := None; in_text := "hello @Lead"; in_data := None;
     in_threadId := None; in_correlationId := None |}.

Definition sentHello : Outcome Message * MessageService.t * option RelayClient.t :=
  send concatMac opsMessages (Some opsService) (Some RelayClient.empty)
    helloInput "Worker1" "0001" "2026-01-01T00:00:00.000Z" 0.

Lemma send_denied_leaves_state_witness :
  ChannelService.checkAccess opsService "ch-ops" "Worker2" WRITE = false /\
  send concatMac opsMessages (Some opsService) (Some RelayClient.empty)
    helloInput "Worker2" "0001" "2026-01-01T00:00:00.000Z" 0
  = (Threw (PermissionDenied "Permission denied: cannot send to this channel"),
     opsMessages, Some RelayClient.empty).
Proof.
  split; [reflexivity|].
  apply (send_denied_leaves_state concatMac); reflexivity.
Defined.

Lemma markDelivered_only_from_sent_witness :
  exists m,
    messages sentHello.1.2 !! "msg-0001" = Some m /\
    deliveryStatus m = SENT /\
    messages (markDelivered sentHello.1.2 "msg-0001" "Lead") !! "msg-0001"
    = Some (set_deliveryStatus m DELIVERED).
Proof.
  eexists. split; [reflexivity|]. split; [reflexivity|].
  apply (markDelivered_only_from_sent sentHello.1.2 "msg-0001" "Lead");
    reflexivity.
Defined.

Lemma signature_round_trip_witness :
  exists m svc1 relay1,
    sentHello = (Returned m, svc1, relay1) /\
    verifySignature concatMac svc1 m = true /\
    verifySignature concatMac svc1 (mutateText m "hello @all") = false.
Proof.
  eexists _, _, _. split; [reflexivity|].
  destruct (signature_round_trip concatMac opsMessages _ (Some opsService)
              (Some RelayClient.empty) _ helloInput "Worker1" "0001"
              "2026-01-01T00:00:00.000Z" 0 _ eq_refl) as (Hsent & Htampered & _).
  split; [exact Hsent|].
  apply Htampered; [discriminate|].
  unfold noCollision, concatMac. apply string_app_inv_head.
Defined.

Definition editedHello : Outcome bool * MessageService.t * option RelayClient.t :=
  edit concatMac sentHello.1.2 sentHello.2 "msg-0001" "bye" "Worker1"
    "2026-01-01T00:05:00.000Z" 300000.

Lemma edit_frame_witness :
  editedHello.1.1 = Returned true /\
  exists m',
    messages editedHello.1.2 !! "msg-0001" = Some m' /\
    text (content m') = "bye" /\
    mentions (content m') = extractMentions "hello @Lead" /\
    deliveryStatus m' = SENT.
Proof.
  split; [reflexivity|].
  destruct (edit_frame concatMac sentHello.1.2 editedHello.1.2 sentHello.2
              editedHello.2 "msg-0001" "bye" "Worker1"
              "2026-01-01T00:05:00.000Z" 300000 _ eq_refl eq_refl)
    as (m' & Hm' & (Htext & _) & (Hmentions & _ & _ & _ & Hstatus & _) & _).
  exists m'. split; [exact Hm'|]. split; [exact Htext|].
  split; [rewrite Hmentions | rewrite Hstatus]; reflexivity.
Defined.

(** The mentions kept by that edit describe [hello @Lead], not [bye]. *)
Example edit_keeps_stale_mentions :
  exists m',
    messages editedHello.1.2 !! "msg-0001" = Some m' /\
    mentions (content m')
    = [ {| mention_type := mention_agent; mention_targetId := None;
           startIndex := 6; mention_length := 5 |} ] /\
    extractMentions (text (content m')) = [].
Proof. eexists. repeat split. Qed.

End MessageExamples.

(** ** RelayClient: acknowledged sends *)

Section AckProperties.
Import Models RelayClient.

(** Every armed timer rejects a promise that exists, and every entry
    of the pending-ack table resolves a promise that exists and holds
    the timer that was armed for its correlation id. *)
Definition wellFormed (rc : RelayClient.t) : Prop :=
  (forall h tm, timers rc !! h = Some tm -> is_Some (promises rc !! cb_promise tm)) /\
  (forall c pa, pendingAcks rc !! c = Some pa ->
     is_Some (promises rc !! pa_promise pa) /\
     exists tm, timers rc !! pa_timeout pa = Some tm /\ cb_correlationId tm = c).

(** No armed timer was set up for correlation id [cid]. *)
Definition unused (rc : RelayClient.t) (cid : string) : Prop :=
  forall h tm, timers rc !! h = Some tm -> cb_correlationId tm <> cid.

(** A stimulus that is not a send under correlation id [cid]. *)
Definition otherCorrelation (cid : string) (ev : Stimulus) : Prop :=
  match ev with
  | anotherSend _ _ _ c => c <> cid
  | _ => True
  end.

(** The first stimulus that concerns the send under [cid] with timer
    [h] to agent [agentId], as the settlement it causes. *)
Fixpoint firstOutcome (cid : string) (h : nat) (agentId : string)
    (evs : list Stimulus) : option Settlement :=
  match evs with
  | [] => None
  | ackFrame (Some c) d :: rest =>
      if String.eqb c cid then Some (resolved d)
      else firstOutcome cid h agentId rest
  | timerFires h' :: rest =>
      if Nat.eqb h' h then Some (rejected (timeoutMessage agentId))
      else firstOutcome cid h agentId rest
  | _ :: rest => firstOutcome cid h agentId rest
  end.

Lemma sendToAgent_tables (rc : RelayClient.t) (agentId : string) (m : WSMessage) :
  timers (sendToAgent rc agentId m) = timers rc /\
  promises (sendToAgent rc agentId m) = promises rc /\
  pendingAcks (sendToAgent rc agentId m) = pendingAcks rc.
Proof.
  unfold sendToAgent.
  destruct (connections rc !! agentId) as [h|]; [|auto].
  destruct (sockets rc !! h) as [ws|]; [|auto].
  destruct (readyState ws); auto.
Qed.

Lemma sendWithAck_tables (rc : RelayClient.t) (agentId : string) (m : WSMessage)
    (tmo : option Z) (cid : string) :
  let rc1 := (sendWithAck rc agentId m tmo cid).2 in
  timers rc1 = <[freshTimer rc :=
                   {| delay := default DEFAULT_ACK_TIMEOUT tmo;
                      cb_correlationId := cid; cb_agentId := agentId;
                      cb_promise := freshPromise rc |}]> (timers rc) /\
  promises rc1 = <[freshPromise rc := []]> (promises rc) /\
  pendingAcks rc1 = <[cid := {| pa_promise := freshPromise rc;
                                pa_timeout := freshTimer rc |}]> (pendingAcks rc).
Proof.
  unfold sendWithAck. cbn [snd].
  match goal with |- context [sendToAgent ?r ?a ?x] =>
    destruct (sendToAgent_tables r a x) as (-> & -> & ->) end.
  repeat split.
Qed.

Lemma freshTimer_unarmed (rc : RelayClient.t) : timers rc !! freshTimer rc = None.
Proof.
  unfold freshTimer. apply not_elem_of_dom. apply (is_fresh (dom (timers rc))).
Qed.

Lemma freshPromise_new (rc : RelayClient.t) : promises rc !! freshPromise rc = None.
Proof.
  unfold freshPromise. apply not_elem_of_dom. apply (is_fresh (dom (promises rc))).
Qed.

Section OneSend.

(** The send under observation: its correlation id, promise, timer,
    recipient and delay. *)
Variables (cid : string) (p h : nat) (agentId : string) (dl : Z).

Let theTimer : Timer :=
  {| delay := dl; cb_correlationId := cid; cb_agentId := agentId; cb_promise := p |}.

Let theEntry : PendingAck := {| pa_promise := p; pa_timeout := h |}.

(** Neither an ack nor the timeout has come yet. *)
Definition waiting (rc : RelayClient.t) : Prop :=
  pendingAcks rc !! cid = Some theEntry /\
  timers rc !! h = Some theTimer /\
  promises rc !! p = Some [] /\
  (forall h' tm, timers rc !! h' = Some tm -> h' <> h ->
     cb_promise tm <> p /\ cb_correlationId tm <> cid) /\
  (forall c pa, pendingAcks rc !! c = Some pa -> c <> cid ->
     pa_promise pa <> p /\ pa_timeout pa <> h).

(** The promise was settled by [s], once, and nothing can reach it
    any more. *)
Definition settled (s : Settlement) (rc : RelayClient.t) : Prop :=
  pendingAcks rc !! cid = None /\
  promises rc !! p = Some [s] /\
  (forall h' tm, timers rc !! h' = Some tm -> cb_promise tm <> p) /\
  (forall c pa, pendingAcks rc !! c = Some pa -> pa_promise pa <> p).

Lemma waiting_ack (rc : RelayClient.t) (d : WSData) :
  waiting rc -> settled (resolved d) (handleAck rc cid d).
Proof.
  intros (Hentry & Htimer & Hprom & Htimers & Hentries).
  unfold handleAck. rewrite Hentry. unfold settled. cbn. repeat split.
  - apply lookup_delete_eq.
  - rewrite lookup_insert_eq, Hprom. reflexivity.
  - intros h' tm Hh'. destruct (decide (h' = h)) as [->|Hne].
    + rewrite lookup_delete_eq in Hh'. discriminate.
    + rewrite lookup_delete_ne in Hh' by congruence. now apply (Htimers h' tm).
  - intros c pa Hc. destruct (decide (c = cid)) as [->|Hne].
    + rewrite lookup_delete_eq in Hc. discriminate.
    + rewrite lookup_delete_ne in Hc by congruence. now apply (Hentries c pa).
Qed.

Lemma waiting_timeout (rc : RelayClient.t) :
  waiting rc -> settled (rejected (timeoutMessage agentId)) (fireTimer rc h).
Proof.
  intros (Hentry & Htimer & Hprom & Htimers & Hentries).
  unfold fireTimer. rewrite Htimer. unfold settled. cbn. repeat split.
  - apply lookup_delete_eq.
  - rewrite lookup_insert_eq, Hprom. reflexivity.
  - intros h' tm Hh'. destruct (decide (h' = h)) as [->|Hne].
    + rewrite lookup_delete_eq in Hh'. discriminate.
    + rewrite lookup_delete_ne in Hh' by congruence. now apply (Htimers h' tm).
  - intros c pa Hc. destruct (decide (c = cid)) as [->|Hne].
    + rewrite lookup_delete_eq in Hc. discriminate.
    + rewrite lookup_delete_ne in Hc by congruence. now apply (Hentries c pa).
Qed.

Lemma waiting_other (rc : RelayClient.t) (ev : Stimulus) :
  waiting rc -> otherCorrelation cid ev ->
  firstOutcome cid h agentId [ev] = None ->
  waiting (react rc ev).
Proof.
  intros Hw Hother Hfirst.
  pose proof Hw as (Hentry & Htimer & Hprom & Htimers & Hentries).
  destruct ev as [[c|] d | h' | a m tmo c]; cbn [react]; [| exact Hw | |].
  - cbn in Hfirst. destruct (String.eqb_spec c cid) as [|Hc]; [discriminate|].
    unfold handleAck. destruct (pendingAcks rc !! c) as [pa|] eqn:Hpa; [|exact Hw].
    destruct (Hentries c pa Hpa Hc) as [Hp Hh].
    unfold waiting. cbn. repeat split.
    + rewrite lookup_delete_ne by congruence. exact Hentry.
    + rewrite lookup_delete_ne by congruence. exact Htimer.
    + rewrite lookup_insert_ne by congruence. exact Hprom.
    + apply lookup_delete_Some in H as [_ H]. now apply (Htimers h' tm).
    + apply lookup_delete_Some in H as [_ H]. now apply (Htimers h' tm).
    + apply lookup_delete_Some in H as [_ H]. now apply (Hentries c0 pa0).
    + apply lookup_delete_Some in H as [_ H]. now apply (Hentries c0 pa0).
  - cbn in Hfirst. destruct (Nat.eqb_spec h' h) as [|Hh']; [discriminate|].
    unfold fireTimer. destruct (timers rc !! h') as [tm|] eqn:Htm; [|exact Hw].
    destruct (Htimers h' tm Htm Hh') as [Hp Hc].
    unfold waiting. cbn. repeat split.
    + rewrite lookup_delete_ne by congruence. exact Hentry.
    + rewrite lookup_delete_ne by congruence. exact Htimer.
    + rewrite lookup_insert_ne by congruence. exact Hprom.
    + apply lookup_delete_Some in H as [_ H]. now apply (Htimers h'0 tm0).
    + apply lookup_delete_Some in H as [_ H]. now apply (Htimers h'0 tm0).
    + apply lookup_delete_Some in H as [_ H]. now apply (Hentries c pa).
    + apply lookup_delete_Some in H as [_ H]. now apply (Hentries c pa).
  - cbn in Hother.
    destruct (sendWithAck_tables rc a m tmo c) as (Ht & Hp & Ha).
    assert (Hfp : freshPromise rc <> p).
    { intros E. pose proof (freshPromise_new rc) as Hn. rewrite E in Hn. congruence. }
    assert (Hft : freshTimer rc <> h).
    { intros E. pose proof (freshTimer_unarmed rc) as Hn. rewrite E in Hn. congruence. }
    unfold waiting. rewrite Ht, Hp, Ha. repeat split.
    + rewrite lookup_insert_ne by congruence. exact Hentry.
    + rewrite lookup_insert_ne by congruence. exact Htimer.
    + rewrite lookup_insert_ne by congruence. exact Hprom.
    + apply lookup_insert_Some in H as [[_ <-]|[_ H]]; [exact Hfp|].
      now apply (Htimers h' tm).
    + apply lookup_insert_Some in H as [[_ <-]|[_ H]]; [exact Hother|].
      now apply (Htimers h' tm).
    + apply lookup_insert_Some in H as [[_ <-]|[_ H]]; [exact Hfp|].
      now apply (Hentries c0 pa).
    + apply lookup_insert_Some in H as [[_ <-]|[_ H]]; [exact Hft|].
      now apply (Hentries c0 pa).
Qed.

Lemma settled_react (s : Settlement) (rc : RelayClient.t) (ev : Stimulus) :
  settled s rc -> otherCorrelation cid ev -> settled s (react rc ev).
Proof.
  intros Hs Hother.
  pose proof Hs as (Hentry & Hprom & Htimers & Hentries).
  destruct ev as [[c|] d | h' | a m tmo c]; cbn [react]; [| exact Hs | |].
  - unfold handleAck. destruct (pendingAcks rc !! c) as [pa|] eqn:Hpa; [|exact Hs].
    pose proof (Hentries c pa Hpa) as Hp.
    unfold settled. cbn. repeat split.
    + apply lookup_delete_None. now right.
    + rewrite lookup_insert_ne by congruence. exact Hprom.
    + intros h' tm [_ H]%lookup_delete_Some. now apply (Htimers h' tm).
    + intros c0 pa0 [_ H]%lookup_delete_Some. now apply (Hentries c0 pa0).
  - unfold fireTimer. destruct (timers rc !! h') as [tm|] eqn:Htm; [|exact Hs].
    pose proof (Htimers h' tm Htm) as Hp.
    unfold settled. cbn. repeat split.
    + apply lookup_delete_None. now right.
    + rewrite lookup_insert_ne by congruence. exact Hprom.
    + intros h'0 tm0 [_ H]%lookup_delete_Some. now apply (Htimers h'0 tm0).
    + intros c pa [_ H]%lookup_delete_Some. now apply (Hentries c pa).
  - cbn in Hother.
    destruct (sendWithAck_tables rc a m tmo c) as (Ht & Hp & Ha).
    assert (Hfp : freshPromise rc <> p).
    { intros E. pose proof (freshPromise_new rc) as Hn. rewrite E in Hn. congruence. }
    unfold settled. rewrite Ht, Hp, Ha. repeat split.
    + rewrite lookup_insert_ne by congruence. exact Hentry.
    + rewrite lookup_insert_ne by congruence. exact Hprom.
    + intros h' tm [[_ <-]|[_ H]]%lookup_insert_Some; [exact Hfp|].
      now apply (Htimers h' tm).
    + intros c0 pa [[_ <-]|[_ H]]%lookup_insert_Some; [exact Hfp|].
      now apply (Hentries c0 pa).
Qed.

Lemma settled_run (s : Settlement) (evs : list Stimulus) (rc : RelayClient.t) :
  settled s rc -> Forall (otherCorrelation cid) evs -> settled s (run rc evs).
Proof.
  revert rc. induction evs as [|ev evs IH]; intros rc Hs Hall; [exact Hs|].
  inversion Hall as [|? ? Hev Hrest]; subst. cbn.
  apply IH; [|exact Hrest]. now apply settled_react.
Qed.

Lemma waiting_run (evs : list Stimulus) (rc : RelayClient.t) :
  waiting rc -> Forall (otherCorrelation cid) evs ->
  match firstOutcome cid h agentId evs with
  | None => waiting (run rc evs)
  | Some s => settled s (run rc evs)
  end.
Proof.
  revert rc. induction evs as [|ev evs IH]; intros rc Hw Hall; [exact Hw|].
  inversion Hall as [|? ? Hev Hrest]; subst.
  destruct (firstOutcome cid h agentId [ev]) as [s|] eqn:Hone.
  - assert (Hsame : firstOutcome cid h agentId (ev :: evs) = Some s).
    { destruct ev as [[c|] d | h' | a m tmo c]; cbn in *; try discriminate.
      - destruct (String.eqb c cid); [exact Hone | discriminate].
      - destruct (Nat.eqb h' h); [exact Hone | discriminate]. }
    rewrite Hsame. cbn. apply settled_run; [|exact Hrest].
    destruct ev as [[c|] d | h' | a m tmo c]; cbn in Hone; try discriminate.
    + destruct (String.eqb_spec c cid) as [->|]; [|discriminate].
      injection Hone as <-. now apply waiting_ack.
    + destruct (Nat.eqb_spec h' h) as [->|]; [|discriminate].
      injection Hone as <-. now apply waiting_timeout.
  - assert (Hsame : firstOutcome cid h agentId (ev :: evs)
                    = firstOutcome cid h agentId evs).
    { destruct ev as [[c|] d | h' | a m tmo c]; cbn in *; try reflexivity.
      - destruct (String.eqb c cid); [discriminate | reflexivity].
      - destruct (Nat.eqb h' h); [discriminate | reflexivity]. }
    rewrite Hsame. cbn. apply IH; [|exact Hrest]. now apply waiting_other.
Qed.

End OneSend.

Lemma sendWithAck_waiting (rc : RelayClient.t) (agentId : string) (m : WSMessage)
    (tmo : option Z) (cid : string) :
  wellFormed rc -> unused rc cid ->
  waiting cid (freshPromise rc) (freshTimer rc) agentId
    (default DEFAULT_ACK_TIMEOUT tmo) (sendWithAck rc agentId m tmo cid).2.
Proof.
  intros [Hwt Hwe] Hunused.
  destruct (sendWithAck_tables rc agentId m tmo cid) as (Ht & Hp & Ha).
  unfold waiting. rewrite Ht, Hp, Ha. repeat split.
  - apply lookup_insert_eq.
  - apply lookup_insert_eq.
  - apply lookup_insert_eq.
  - apply lookup_insert_Some in H as [[E _]|[_ H]]; [congruence|].
    intros E. destruct (Hwt h' tm H) as [x Hx].
    rewrite E, freshPromise_new in Hx. discriminate.
  - apply lookup_insert_Some in H as [[E _]|[_ H]]; [congruence|].
    now apply (Hunused h' tm).
  - apply lookup_insert_Some in H as [[E _]|[_ H]]; [congruence|].
    intros E. destruct (Hwe c pa H) as [[x Hx] _].
    rewrite E, freshPromise_new in Hx. discriminate.
  - apply lookup_insert_Some in H as [[E _]|[_ H]]; [congruence|].
    intros E. destruct (Hwe c pa H) as [_ (tm & Htm & _)].
    rewrite E, freshTimer_unarmed in Htm. discriminate.
Qed.

Lemma wellFormed_empty : wellFormed RelayClient.empty.
Proof.
  split; cbn.
  - intros h tm H. rewrite lookup_empty in H. discriminate.
  - intros c pa H. rewrite lookup_empty in H. discriminate.
Qed.

Lemma unused_empty (cid : string) : unused RelayClient.empty cid.
Proof. intros h tm H. cbn in H. rewrite lookup_empty in H. discriminate. Qed.

(** Well-formedness is kept by everything that can happen to the tables. *)
Lemma wellFormed_react (rc : RelayClient.t) (ev : Stimulus) :
  wellFormed rc -> wellFormed (react rc ev).
Proof.
  intros Hwf. pose proof Hwf as [Hwt Hwe].
  destruct ev as [[c|] d | h | a m tmo c]; cbn [react]; [| exact Hwf | |].
  - unfold handleAck. destruct (pendingAcks rc !! c) as [pa|] eqn:Hpa; [|exact Hwf].
    destruct (Hwe c pa Hpa) as [_ (tmc & Htmc & Hback)].
    split; cbn.
    + intros h tm [_ H]%lookup_delete_Some.
      apply lookup_insert_is_Some'. right. now apply (Hwt h tm).
    + intros c' pa' [Hne H]%lookup_delete_Some.
      destruct (Hwe c' pa' H) as [Hp (tm & Htm & Hb)]. split.
      * apply lookup_insert_is_Some'. now right.
      * exists tm. split; [|exact Hb].
        rewrite lookup_delete_ne; [exact Htm|]. intros E. rewrite E in Htmc.
        congruence.
  - unfold fireTimer. destruct (timers rc !! h) as [tmh|] eqn:Htmh; [|exact Hwf].
    split; cbn.
    + intros h' tm [_ H]%lookup_delete_Some.
      apply lookup_insert_is_Some'. right. now apply (Hwt h' tm).
    + intros c' pa' [Hne H]%lookup_delete_Some.
      destruct (Hwe c' pa' H) as [Hp (tm & Htm & Hb)]. split.
      * apply lookup_insert_is_Some'. now right.
      * exists tm. split; [|exact Hb].
        rewrite lookup_delete_ne; [exact Htm|]. intros E. rewrite <- E in Htm.
        congruence.
  - destruct (sendWithAck_tables rc a m tmo c) as (Ht & Hp & Ha).
    unfold wellFormed. rewrite Ht, Hp, Ha. split.
    + intros h tm [[_ <-]|[_ H]]%lookup_insert_Some; cbn.
      * rewrite lookup_insert_eq. eauto.
      * apply lookup_insert_is_Some'. right. now apply (Hwt h tm).
    + intros c' pa' [[<- <-]|[Hne H]]%lookup_insert_Some; cbn.
      * rewrite !lookup_insert_eq. split; [eauto|]. eexists. split; reflexivity.
      * destruct (Hwe c' pa' H) as [Hpp (tm & Htm & Hb)]. split.
        -- apply lookup_insert_is_Some'. now right.
        -- exists tm. split; [|exact Hb].
           rewrite lookup_insert_ne; [exact Htm|]. intros E.
           rewrite <- E, freshTimer_unarmed in Htm. discriminate.
Qed.

(** C9. [sendWithAck] puts the drawn correlation id on the frame, arms
    a timer with the given delay, 5000 ms when none is given, and
    registers the pending entry.  Whatever acks, timer firings and
    further sends follow, the calls made to the promise's
    resolve/reject functions are exactly the one caused by the first ack
    carrying that correlation id or the first firing of that timer,
    whichever comes first: a resolve with the ack's data, or a reject
    with the timeout error; from then on the table has no entry for the
    correlation id.  Before either, the promise is pending and the entry
    in place. *)
Theorem sendWithAck_settles_once (rc : RelayClient.t) (agentId : string)
    (message : WSMessage) (timeoutMs : option Z) (cid : string)
    (evs : list Stimulus) :
  wellFormed rc -> unused rc cid -> Forall (otherCorrelation cid) evs ->
  let sent := sendWithAck rc agentId message timeoutMs cid in
  let p := sent.1.1 in
  let h := freshTimer rc in
  let entry := {| pa_promise := p; pa_timeout := h |} in
  ws_correlationId sent.1.2 = Some cid /\
  timers sent.2 !! h
  = Some {| delay := default 5000 timeoutMs; cb_correlationId := cid;
            cb_agentId := agentId; cb_promise := p |} /\
  pendingAcks sent.2 !! cid = Some entry /\
  promises sent.2 !! p = Some [] /\
  match firstOutcome cid h agentId evs with
  | Some s =>
      promises (run sent.2 evs) !! p = Some [s] /\
      pendingAcks (run sent.2 evs) !! cid = None
  | None =>
      promises (run sent.2 evs) !! p = Some [] /\
      pendingAcks (run sent.2 evs) !! cid = Some entry
  end.
Proof.
  intros Hwf Hunused Hall sent p h entry.
  pose proof (sendWithAck_waiting rc agentId message timeoutMs cid Hwf Hunused)
    as Hw.
  pose proof Hw as (Hentry & Htimer & Hprom & _).
  split; [reflexivity|]. split; [exact Htimer|].
  split; [exact Hentry|]. split; [exact Hprom|].
  pose proof (waiting_run cid _ _ agentId _ evs _ Hw Hall) as Hrun.
  fold h in Hrun. fold sent in Hrun.
  destruct (firstOutcome cid h agentId evs) as [s|].
  - destruct Hrun as (Hnone & Hp & _). split; assumption.
  - destruct Hrun as (He & _ & Hp & _). split; assumption.
Qed.

Definition pingFrame : WSMessage :=
  {| ws_type := ws_message; ws_event_name := None;
     ws_data := data_json (JStr "ping"); ws_timestamp := 0;
     ws_correlationId := None |}.

(** Agent B never acks within the second: the timer fires, and an ack
    that comes late changes nothing. *)
Lemma sendWithAck_settles_once_witness :
  let sent := sendWithAck RelayClient.empty "agentB" pingFrame (Some 1000) "c-1" in
  let after :=
    run sent.2 [ timerFires (freshTimer RelayClient.empty);
                 ackFrame (Some "c-1") (data_json JNull) ] in
  promises after !! sent.1.1 = Some [rejected (timeoutMessage "agentB")] /\
  pendingAcks after !! "c-1" = None.
Proof.
  intros sent after.
  assert (Hall : Forall (otherCorrelation "c-1")
                   [ timerFires (freshTimer RelayClient.empty);
                     ackFrame (Some "c-1") (data_json JNull) ])
    by (repeat constructor).
  destruct (sendWithAck_settles_once RelayClient.empty "agentB" pingFrame
              (Some 1000) "c-1" _ wellFormed_empty (unused_empty "c-1") Hall)
    as (_ & _ & _ & _ & Hrun).
  cbn [firstOutcome] in Hrun. rewrite Nat.eqb_refl in Hrun. exact Hrun.
Defined.

End AckProperties.

(** ** PresenceService: the heartbeat checker *)

Section PresenceProperties.
Import Models PresenceService.

(** What one run of the checker at time [now] does to a presence
    record, judged on the record's own [lastHeartbeat]: removal past
    the offline timeout, idle (with the heartbeat time overwritten by
    [setStatus]) past the idle timeout while online, nothing otherwise. *)
Definition transition (now : Z) (p : Presence) : option Presence :=
  let elapsed := now - lastHeartbeat p in
  if (elapsed >? OFFLINE_TIMEOUT) && negb (PresenceStatus_eqb (status p) OFFLINE)
  then None
  else if (elapsed >? IDLE_TIMEOUT) && PresenceStatus_eqb (status p) ONLINE
  then Some {| p_agentId := p_agentId p; p_projectId := p_projectId p;
               status := IDLE; statusMessage := None; activity := activity p;
               lastHeartbeat := now; activeChannels := activeChannels p;
               isTyping := isTyping p; typingInChannel := typingInChannel p;
               connection := connection p |}
  else Some p.

Lemma disconnect_spec (svc : PresenceService.t) (relay : option RelayClient.t)
    (agentId : string) (reason : DisconnectReason) (now : Z) (p : Presence) :
  presences svc !! agentId = Some p ->
  disconnect svc relay agentId reason now
  = (set_presences svc (base.delete agentId (presences svc)),
     broadcastPresenceChange relay agentId OFFLINE (extra_reason reason) now).
Proof.
  intros Hp. unfold disconnect. rewrite Hp. cbn.
  unfold set_presences. cbn. now rewrite delete_insert_eq.
Qed.

Lemma checkOne_presences (now : Z) (svc : PresenceService.t)
    (relay : option RelayClient.t) (agentId : string) (p : Presence) :
  presences svc !! agentId = Some p ->
  forall k,
    presences (checkOne now (svc, relay) (agentId, p)).1 !! k
    = if decide (k = agentId) then transition now p else presences svc !! k.
Proof.
  intros Hp k. unfold checkOne, transition.
  destruct ((now - lastHeartbeat p >? OFFLINE_TIMEOUT)
            && negb (PresenceStatus_eqb (status p) OFFLINE)).
  - rewrite (disconnect_spec _ _ _ _ _ _ Hp). cbn.
    destruct (decide (k = agentId)) as [->|Hne].
    + apply lookup_delete_eq.
    + now apply lookup_delete_ne.
  - destruct ((now - lastHeartbeat p >? IDLE_TIMEOUT)
              && PresenceStatus_eqb (status p) ONLINE).
    + unfold setStatus. rewrite Hp. cbn.
      destruct (decide (k = agentId)) as [->|Hne].
      * apply lookup_insert_eq.
      * now apply lookup_insert_ne.
    + cbn. destruct (decide (k = agentId)) as [->|Hne]; [exact Hp | reflexivity].
Qed.

Lemma checkAll_presences (now : Z) (entries : list (string * Presence)) :
  forall (svc : PresenceService.t) (relay : option RelayClient.t),
    NoDup entries.*1 ->
    (forall a p, (a, p) ∈ entries -> presences svc !! a = Some p) ->
    forall k,
      presences (foldl (checkOne now) (svc, relay) entries).1 !! k
      = if decide (k ∈ entries.*1)
        then presences svc !! k ≫= transition now
        else presences svc !! k.
Proof.
  induction entries as [|[a p] entries IH]; intros svc relay Hnodup Hlive k.
  - cbn. destruct (decide (k ∈ [])) as [Hin|_]; [|reflexivity].
    now apply not_elem_of_nil in Hin.
  - cbn [foldl]. cbn in Hnodup. apply NoDup_cons in Hnodup as [Hfresh Hnodup].
    assert (Ha : presences svc !! a = Some p) by (apply Hlive; left).
    destruct (checkOne now (svc, relay) (a, p)) as [svc1 relay1] eqn:Hstep.
    assert (Hone := checkOne_presences now svc relay a p Ha).
    rewrite Hstep in Hone. cbn in Hone.
    rewrite IH; [|exact Hnodup|].
    + rewrite !Hone. cbn [fmap list_fmap fst].
      destruct (decide (k = a)) as [->|Hne].
      * destruct (decide (a ∈ entries.*1)) as [Hin|_]; [contradiction|].
        destruct (decide (a ∈ a :: entries.*1)) as [_|Hout];
          [|exfalso; apply Hout; left].
        now rewrite Ha.
      * destruct (decide (k ∈ entries.*1)) as [Hin|Hout];
          destruct (decide (k ∈ a :: entries.*1)) as [Hin'|Hout'];
          try reflexivity.
        -- exfalso. apply Hout'. now right.
        -- exfalso. apply elem_of_cons in Hin' as [|]; contradiction.
    + intros a' p' Hin. rewrite Hone.
      destruct (decide (a' = a)) as [->|Hne].
      * exfalso. apply Hfresh. apply list_elem_of_fmap. now exists (a, p').
      * apply Hlive. now right.
Qed.

(** Each agent's record goes through its own transition, whatever the
    other records are. *)
Lemma checkHeartbeats_presences (svc : PresenceService.t)
    (relay : option RelayClient.t) (now : Z) (k : string) :
  presences (checkHeartbeats svc relay now).1 !! k
  = presences svc !! k ≫= transition now.
Proof.
  unfold checkHeartbeats. rewrite checkAll_presences.
  - destruct (decide (k ∈ (map_to_list (presences svc)).*1)) as [_|Hout];
      [reflexivity|].
    destruct (presences svc !! k) as [p|] eqn:Hk; [|reflexivity].
    exfalso. apply Hout. apply list_elem_of_fmap. exists (k, p).
    split; [reflexivity|]. now apply elem_of_map_to_list.
  - apply NoDup_fst_map_to_list.
  - intros a p Hin. now apply elem_of_map_to_list.
Qed.

(** Judged on the [lastHeartbeat] field of the record, the two
    branches of the checker are the timeouts: removal past 120 s unless
    offline, idle between 60 s and 120 s while online; the idle branch
    stores the time of the check as the new [lastHeartbeat]. *)
Lemma checkHeartbeats_branches (svc : PresenceService.t)
    (relay : option RelayClient.t) (now : Z) (agentId : string) (p : Presence) :
  presences svc !! agentId = Some p ->
  (now - lastHeartbeat p > 120000 -> status p <> OFFLINE ->
   get (checkHeartbeats svc relay now).1 agentId = None) /\
  (60000 < now - lastHeartbeat p <= 120000 -> status p = ONLINE ->
   exists p',
     get (checkHeartbeats svc relay now).1 agentId = Some p' /\
     status p' = IDLE /\ lastHeartbeat p' = now).
Proof.
  intros Hp. unfold get. rewrite checkHeartbeats_presences, Hp. cbn.
  unfold transition, OFFLINE_TIMEOUT, IDLE_TIMEOUT. split.
  - intros Helapsed Hstatus.
    replace (now - lastHeartbeat p >? 120000) with true by (symmetry; lia).
    destruct (status p); cbn; congruence.
  - intros [Hlo Hhi] Hstatus.
    replace (now - lastHeartbeat p >? 120000) with false by (symmetry; lia).
    replace (now - lastHeartbeat p >? 60000) with true by (symmetry; lia).
    rewrite Hstatus. cbn. eexists. repeat split.
Qed.

(** The idle transition made by the checker re-arms the offline
    timeout: the record is still there, idle, at every later check
    within 120 s of that transition, however long ago the last
    heartbeat of the agent was. *)
Lemma idle_transition_defers_offline (svc : PresenceService.t)
    (relay : option RelayClient.t) (now1 now2 : Z) (agentId : string)
    (p : Presence) :
  presences svc !! agentId = Some p -> status p = ONLINE ->
  60000 < now1 - lastHeartbeat p <= 120000 ->
  now1 <= now2 <= now1 + 120000 ->
  let st1 := checkHeartbeats svc relay now1 in
  exists p2,
    get (checkHeartbeats st1.1 st1.2 now2).1 agentId = Some p2 /\
    status p2 = IDLE.
Proof.
  intros Hp Hstatus Hfirst Hsecond st1.
  destruct (checkHeartbeats_branches svc relay now1 agentId p Hp)
    as [_ Hidle].
  destruct (Hidle Hfirst Hstatus) as (p1 & Hp1 & Hst1 & Hhb1).
  unfold get in *. fold st1 in Hp1.
  rewrite checkHeartbeats_presences, Hp1. cbn.
  unfold transition, OFFLINE_TIMEOUT, IDLE_TIMEOUT. rewrite Hhb1, Hst1.
  replace (now2 - now1 >? 120000) with false by (symmetry; lia).
  cbn. rewrite andb_false_r. eexists. split; [reflexivity | exact Hst1].
Qed.

Definition apiClient : ConnectionInfo :=
  {| ci_connectionId := Some "conn-1"; ci_clientType := None;
     ci_clientVersion := None; ci_ipAddress := None |}.

(** The service after [connect] of [agent-1] at time 0 and checker
    runs at the given times, with no heartbeat in between. *)
Definition afterChecks (times : list Z) : PresenceService.t :=
  let connected :=
    connect (PresenceService.new "p") (Some RelayClient.empty) "agent-1"
      apiClient "uuid-1" 0 in
  (foldl (fun st now => checkHeartbeats st.1 st.2 now)
     (connected.1.2, connected.2) times).1.

(** C8. An agent connects at time 0 and never sends a heartbeat; the
    checker runs every 30 s.  The run at 90 s marks the agent idle and
    stores 90 s as its [lastHeartbeat]; at 150 s, 180 s and 210 s, more
    than 120 s after the connect, the agent is still present and idle;
    it is removed only by the run at 240 s. *)
Theorem heartbeat_offline_deferred :
  status <$> get (afterChecks [30000; 60000]) "agent-1" = Some ONLINE /\
  status <$> get (afterChecks [30000; 60000; 90000]) "agent-1" = Some IDLE /\
  lastHeartbeat <$> get (afterChecks [30000; 60000; 90000]) "agent-1"
  = Some 90000 /\
  status <$> get (afterChecks [30000; 60000; 90000; 120000; 150000]) "agent-1"
  = Some IDLE /\
  status <$> get (afterChecks [30000; 60000; 90000; 120000; 150000; 180000;
                               210000]) "agent-1"
  = Some IDLE /\
  get (afterChecks [30000; 60000; 90000; 120000; 150000; 180000; 210000;
                    240000]) "agent-1"
  = None.
Proof. repeat split; vm_compute; reflexivity. Qed.

End PresenceProperties.

(** * Further properties of the services *)

(** ** AuthService: the shape of permission lists *)

Section PermissionLists.
Import AuthService.

(** One permission authorizing on its own. *)
Definition grants (res : string) (action : Action) (perm : Permission) : bool :=
  matchResource (resource perm) res
  && (includes (actions perm) action || includes (actions perm) admin).

Lemma checkPermissions_existsb (perms : list Permission) (res : string)
    (action : Action) :
  checkPermissions perms res action = existsb (grants res action) perms.
Proof.
  induction perms as [|perm rest IH]; [reflexivity|].
  cbn [checkPermissions existsb]. unfold grants at 1.
  destruct (matchResource (resource perm) res); cbn [andb];
    [destruct (includes (actions perm) action || includes (actions perm) admin)|];
    cbn [orb]; auto.
Qed.

(** The verdict on a list is the disjunction of the verdicts on its
    parts, and does not depend on the order of the list: no permission
    can take away what another grants. *)
Theorem checkPermissions_additive :
  (forall (perms more : list Permission) (res : string) (action : Action),
      checkPermissions (perms ++ more) res action
      = checkPermissions perms res action || checkPermissions more res action) /\
  (forall (perms perms' : list Permission) (res : string) (action : Action),
      Permutation perms perms' ->
      checkPermissions perms res action = checkPermissions perms' res action).
Proof.
  split.
  - intros perms more res action.
    rewrite !checkPermissions_existsb. apply existsb_app.
  - intros perms perms' res action Hperm.
    rewrite !checkPermissions_existsb.
    induction Hperm as [|x l l' _ IH|x y l|l l' l'' _ IH1 _ IH2]; cbn [existsb].
    + reflexivity.
    + now rewrite IH.
    + now rewrite !orb_assoc, (orb_comm (grants res action y)).
    + now rewrite IH1.
Qed.

Lemma checkPermissions_additive_witness :
  Permutation createDefaultPermissions (rev createDefaultPermissions) /\
  checkPermissions createDefaultPermissions "message:42" write
  = checkPermissions (rev createDefaultPermissions) "message:42" write.
Proof.
  assert (Hperm : Permutation createDefaultPermissions (rev createDefaultPermissions))
    by apply Permutation_rev.
  split; [exact Hperm|].
  exact (proj2 checkPermissions_additive _ _ "message:42" write Hperm).
Defined.

Lemma prefixPattern_matches (stem res : string) :
  matchResource (stem +:+ ":*") res = true <->
  exists rest, res = stem +:+ ":" +:+ rest.
Proof.
  rewrite matchResource_spec. unfold resourceMatches. split.
  - intros [Hstar|[Heq|(stem' & Hstem & rest & Hres)]].
    + exfalso. apply (f_equal String.length) in Hstar.
      rewrite string_app_length in Hstar. cbn in Hstar. lia.
    + exists "*". now rewrite <- Heq.
    + apply string_app_inv_tail in Hstem. subst stem'. now exists rest.
  - intros [rest ->]. right; right. exists stem. split; [reflexivity|].
    now exists rest.
Qed.

(** What the default permissions of a new agent allow: reading and
    writing, never [admin], and only on resources under [channel:],
    [message:] or [presence:]. *)
Theorem defaultPermissions_scope (res : string) (action : Action) :
  checkPermissions createDefaultPermissions res action = true <->
  action <> admin /\
  exists kind rest,
    (kind = "channel" \/ kind = "message" \/ kind = "presence") /\
    res = kind +:+ ":" +:+ rest.
Proof.
  assert (Hone : forall kind,
             grants res action
               {| resource := kind +:+ ":*"; actions := [read; write] |} = true
             <-> (exists rest, res = kind +:+ ":" +:+ rest) /\ action <> admin).
  { intros kind. unfold grants. cbn [resource actions].
    rewrite andb_true_iff, prefixPattern_matches.
    assert (Hact : (includes [read; write] action || includes [read; write] admin)
                   = true <-> action <> admin)
      by (destruct action; cbn; split; congruence).
    now rewrite Hact. }
  rewrite checkPermissions_existsb. unfold createDefaultPermissions.
  cbn [existsb]. rewrite orb_false_r, !orb_true_iff.
  change "channel:*" with ("channel" +:+ ":*").
  change "message:*" with ("message" +:+ ":*").
  change "presence:*" with ("presence" +:+ ":*").
  rewrite !Hone. split.
  - intros [[[rest ->] Ha]|[[[rest ->] Ha]|[[rest ->] Ha]]];
      (split; [exact Ha|]).
    + exists "channel", rest. split; [now left | reflexivity].
    + exists "message", rest. split; [right; now left | reflexivity].
    + exists "presence", rest. split; [right; now right | reflexivity].
  - intros [Ha (kind & rest & Hkind & Hres)]. subst res.
    destruct Hkind as [Hk|[Hk|Hk]]; subst kind.
    + left. split; [now exists rest | exact Ha].
    + right; left. split; [now exists rest | exact Ha].
    + right; right. split; [now exists rest | exact Ha].
Qed.

End PermissionLists.

(** ** ChannelService: the life of a channel *)

Section ChannelLifecycle.
Import Models ChannelService.

(** [create] refuses a name that is taken and changes nothing; with a
    free name it returns the new channel, which is then found by id and
    by name, has no members and counts none. *)
Theorem create_outcome (svc : ChannelService.t) (input : ChannelCreateInput)
    (createdBy uuid now : string) :
  (is_Some (nameIndex svc !! in_name input) ->
   exists msg,
     create svc input createdBy uuid now = (Threw (AlreadyExists msg), svc)) /\
  (nameIndex svc !! in_name input = None ->
   exists channel svc',
     create svc input createdBy uuid now = (Returned channel, svc') /\
     ch_id channel = "ch-" +:+ uuid /\
     ch_name channel = in_name input /\
     ch_createdBy channel = createdBy /\
     memberCount channel = 0%nat /\
     getById svc' (ch_id channel) = Some channel /\
     getByName svc' (in_name input) = Some channel /\
     getMembers svc' (ch_id channel) = []).
Proof.
  unfold create. split.
  - intros [id Hid]. rewrite Hid. eauto.
  - intros Hfree. rewrite Hfree. eexists _, _. split; [reflexivity|].
    cbn. unfold getById, getByName, getMembers. cbn.
    rewrite !lookup_insert_eq. repeat split.
Qed.

Definition opsInput : ChannelCreateInput :=
  {| in_name := "ops"; in_type := Some PRIVATE; in_topic := None;
     in_isPrivate := None; in_metadata := None |}.

Lemma create_outcome_witness :
  exists msg,
    create opsService opsInput "Lead" "0002" "t1"
    = (Threw (AlreadyExists msg), opsService).
Proof.
  apply (proj1 (create_outcome opsService opsInput "Lead" "0002" "t1")).
  eexists. reflexivity.
Defined.

Lemma create_returned (svc svc' : ChannelService.t)
    (input : ChannelCreateInput) (createdBy uuid now : string)
    (channel : Channel) :
  create svc input createdBy uuid now = (Returned channel, svc') ->
  channels svc' !! ch_id channel = Some channel /\
  memberships svc' !! ch_id channel = Some ∅ /\
  accessRules channel = createDefaultAccessRules (default PUBLIC (in_type input)) /\
  defaultAccess channel
  = match in_type input with Some PRIVATE => None | _ => Some READ end.
Proof.
  unfold create. destruct (nameIndex svc !! in_name input); [discriminate|].
  intros H. injection H as <- <-. cbn. rewrite !lookup_insert_eq. repeat split.
Qed.

(** What a new channel admits, by its type: on a public channel every
    agent may read and write but not administer; broadcast and direct
    channels are read-only for every agent; a private channel admits
    nobody, its creator included: until a rule is added, even a join by
    the creator is refused. *)
Theorem create_access_by_type (svc svc' : ChannelService.t)
    (input : ChannelCreateInput) (createdBy uuid now : string)
    (channel : Channel) :
  create svc input createdBy uuid now = (Returned channel, svc') ->
  (forall agentId required,
      checkAccess svc' (ch_id channel) agentId required
      = match default PUBLIC (in_type input) with
        | PUBLIC => satisfies WRITE required
        | BROADCAST | DIRECT => satisfies READ required
        | PRIVATE => false
        end) /\
  (in_type input = Some PRIVATE ->
   forall relay,
     join svc' relay (ch_id channel) createdBy
     = (Threw (PermissionDenied "Permission denied: cannot join channel"),
        svc', relay)).
Proof.
  intros Hcreate.
  destruct (create_returned _ _ _ _ _ _ _ Hcreate) as (Hch & _ & Hrules & Hdef).
  split.
  - intros agentId required. unfold checkAccess. rewrite Hch, Hrules, Hdef.
    destruct (in_type input) as [[]|]; cbn; now destruct required.
  - intros Htype relay. unfold join, checkAccess.
    rewrite Hch, Hrules, Hdef, Htype. reflexivity.
Qed.

Lemma create_access_by_type_witness :
  exists channel svc',
    create (blank "p") opsInput "Lead" "0001" "t0" = (Returned channel, svc') /\
    checkAccess svc' (ch_id channel) "Lead" READ = false /\
    join svc' None (ch_id channel) "Lead"
    = (Threw (PermissionDenied "Permission denied: cannot join channel"),
       svc', None).
Proof.
  eexists _, _. split; [reflexivity|].
  destruct (create_access_by_type (blank "p") _ opsInput "Lead" "0001" "t0" _
              eq_refl) as [Haccess Hjoin].
  split; [exact (Haccess "Lead" READ) | exact (Hjoin eq_refl None)].
Defined.

(** *** Access rules are only ever appended *)

Lemma checkRules_snoc (rules : list ChannelAccessRule) (rule : ChannelAccessRule)
    (agentId : string) (required : ChannelAccessLevel) :
  checkRules (rules ++ [rule]) agentId required
  = match checkRules rules agentId required with
    | Some verdict => Some verdict
    | None =>
        if matchRule rule agentId
        then Some (accessLevelSatisfies (level rule) required)
        else None
    end.
Proof.
  induction rules as [|r rules IH]; cbn; [reflexivity|].
  destruct (matchRule r agentId); [reflexivity | exact IH].
Qed.

Lemma checkRules_matched (rules : list ChannelAccessRule) (agentId : string)
    (required : ChannelAccessLevel) :
  Exists (fun r => principalMatches r agentId) rules ->
  is_Some (checkRules rules agentId required).
Proof.
  induction 1 as [r rules Hr|r rules _ IH]; cbn.
  - apply matchRule_spec in Hr. rewrite Hr. eauto.
  - destruct (matchRule r agentId); [eauto | exact IH].
Qed.

Lemma checkAccess_addAccessRule (svc : ChannelService.t) (channelId : string)
    (rule : ChannelAccessRule) (channel : Channel) (agentId : string)
    (required : ChannelAccessLevel) :
  channels svc !! channelId = Some channel ->
  checkAccess (addAccessRule svc channelId rule).2 channelId agentId required
  = match checkRules (accessRules channel ++ [rule]) agentId required with
    | Some verdict => verdict
    | None =>
        match defaultAccess channel with
        | Some d => accessLevelSatisfies d required
        | None => false
        end
    end.
Proof.
  intros Hch. unfold addAccessRule. rewrite Hch. unfold checkAccess. cbn.
  rewrite lookup_insert_eq. reflexivity.
Qed.

(** A rule added to a channel changes nothing for an agent that an
    earlier rule already matches.  On a public or broadcast channel,
    whose first rule matches everybody, [addAccessRule] therefore never
    changes any verdict. *)
Theorem addAccessRule_shadowed (svc : ChannelService.t) (channelId : string)
    (rule : ChannelAccessRule) (channel : Channel) (agentId : string) :
  channels svc !! channelId = Some channel ->
  Exists (fun r => principalMatches r agentId) (accessRules channel) ->
  forall required,
    checkAccess (addAccessRule svc channelId rule).2 channelId agentId required
    = checkAccess svc channelId agentId required.
Proof.
  intros Hch Hmatched required.
  rewrite (checkAccess_addAccessRule _ _ _ _ _ _ Hch), checkRules_snoc.
  unfold checkAccess. rewrite Hch.
  destruct (checkRules_matched _ agentId required Hmatched) as [v ->].
  reflexivity.
Qed.

Definition generalChannel : Channel :=
  {| ch_id := "ch-general"; ch_name := "general"; ch_projectId := "p";
     ch_type := PUBLIC; accessRules := createDefaultAccessRules PUBLIC;
     defaultAccess := Some READ;
     ch_metadata := {| displayName := "general"; topic := None; purpose := None;
                       isArchived := false; allowExternal := false;
                       retentionDays := None; custom := None |};
     ch_createdBy := "system"; ch_createdAt := "t0"; memberCount := 0 |}.

Definition generalService : ChannelService.t :=
  {| channels := {[ "ch-general" := generalChannel ]};
     nameIndex := {[ "general" := "ch-general" ]};
     memberships := {[ "ch-general" := ∅ ]};
     projectId := "p" |}.

Definition adminRule (agentId : string) : ChannelAccessRule :=
  {| principal := agentId; principalType := principal_agent; level := ADMIN;
     rule_expiresAt := None |}.

(** An admin rule for [Lead] on the public channel leaves [Lead]
    without admin access. *)
Lemma addAccessRule_shadowed_witness :
  checkAccess (addAccessRule generalService "ch-general" (adminRule "Lead")).2
    "ch-general" "Lead" ADMIN
  = false.
Proof.
  rewrite (addAccessRule_shadowed generalService "ch-general" (adminRule "Lead")
             generalChannel "Lead" eq_refl).
  - reflexivity.
  - left. now left.
Defined.

(** For an agent that no rule of the channel matches, an added rule
    that matches the agent decides from then on, by its level; an added
    rule that does not match the agent changes nothing for it; and the
    other channels are not affected. *)
Theorem addAccessRule_grants (svc : ChannelService.t) (channelId : string)
    (rule : ChannelAccessRule) (channel : Channel) (agentId : string) :
  channels svc !! channelId = Some channel ->
  Forall (fun r => ~ principalMatches r agentId) (accessRules channel) ->
  (forall required,
      checkAccess (addAccessRule svc channelId rule).2 channelId agentId required
      = if matchRule rule agentId then satisfies (level rule) required
        else checkAccess svc channelId agentId required) /\
  (forall other agent required,
      other <> channelId ->
      checkAccess (addAccessRule svc channelId rule).2 other agent required
      = checkAccess svc other agent required).
Proof.
  intros Hch Hnone. split.
  - intros required.
    rewrite (checkAccess_addAccessRule _ _ _ _ _ _ Hch), checkRules_snoc.
    rewrite (checkRules_none _ _ _ Hnone).
    unfold checkAccess. rewrite Hch, (checkRules_none _ _ _ Hnone).
    destruct (matchRule rule agentId); [apply accessLevelSatisfies_rank | reflexivity].
  - intros other agent required Hother.
    unfold addAccessRule. rewrite Hch. unfold checkAccess. cbn.
    rewrite lookup_insert_ne by congruence. reflexivity.
Qed.

Definition writeRule (agentId : string) : ChannelAccessRule :=
  {| principal := agentId; principalType := principal_agent; level := WRITE;
     rule_expiresAt := None |}.

Definition emptyOps : ChannelService.t :=
  {| channels :=
       {[ "ch-ops" :=
            {| ch_id := "ch-ops"; ch_name := "ops"; ch_projectId := "p";
               ch_type := PRIVATE; accessRules := []; defaultAccess := None;
               ch_metadata := ch_metadata opsChannel; ch_createdBy := "Lead";
               ch_createdAt := "t0"; memberCount := 0 |} ]};
     nameIndex := {[ "ops" := "ch-ops" ]};
     memberships := {[ "ch-ops" := ∅ ]};
     projectId := "p" |}.

(** The scenario of the private channel: [Worker1] is refused, the
    rule is added, [Worker1] may write. *)
Lemma addAccessRule_grants_witness :
  checkAccess emptyOps "ch-ops" "Worker1" READ = false /\
  checkAccess (addAccessRule emptyOps "ch-ops" (writeRule "Worker1")).2
    "ch-ops" "Worker1" WRITE = true.
Proof.
  split; [reflexivity|].
  destruct (addAccessRule_grants emptyOps "ch-ops" (writeRule "Worker1") _
              "Worker1" eq_refl) as [Hgrant _]; [constructor|].
  rewrite Hgrant. reflexivity.
Defined.

(** *** Joining and leaving *)

(** [join] answers false for a missing channel, throws for an agent
    without read access, in both cases changing nothing; otherwise it
    returns true, the agent is a member afterwards, members stay
    members, and the other channels keep their membership. *)
Theorem join_outcome (svc : ChannelService.t) (relay : option RelayClient.t)
    (channelId agentId : string) :
  (channels svc !! channelId = None ->
   join svc relay channelId agentId = (Returned false, svc, relay)) /\
  (is_Some (channels svc !! channelId) ->
   checkAccess svc channelId agentId READ = false ->
   join svc relay channelId agentId
   = (Threw (PermissionDenied "Permission denied: cannot join channel"),
      svc, relay)) /\
  (is_Some (channels svc !! channelId) ->
   is_Some (memberships svc !! channelId) ->
   checkAccess svc channelId agentId READ = true ->
   exists svc' relay',
     join svc relay channelId agentId = (Returned true, svc', relay') /\
     isMember svc' channelId agentId = true /\
     (forall agent, isMember svc channelId agent = true ->
                    isMember svc' channelId agent = true) /\
     (forall other agent, other <> channelId ->
                          isMember svc' other agent = isMember svc other agent)).
Proof.
  unfold join. repeat split.
  - intros ->. reflexivity.
  - intros [channel ->] ->. reflexivity.
  - intros [channel ->] [members Hm] ->. rewrite Hm. cbn [negb].
    destruct (decide (agentId ∈ members)) as [Hin|Hout].
    + exists svc, relay. split; [reflexivity|]. unfold isMember. rewrite Hm.
      split; [now apply bool_decide_eq_true|]. split; auto.
    + eexists _, _. split; [reflexivity|]. unfold isMember. cbn.
      rewrite lookup_insert_eq, Hm. split; [|split].
      * apply bool_decide_eq_true. set_solver.
      * intros agent Hagent. apply bool_decide_eq_true in Hagent.
        apply bool_decide_eq_true. set_solver.
      * intros other agent Hother. rewrite lookup_insert_ne by congruence.
        reflexivity.
Qed.

Lemma join_outcome_witness :
  join emptyOps None "ch-ops" "Worker1"
  = (Threw (PermissionDenied "Permission denied: cannot join channel"),
     emptyOps, None).
Proof.
  apply (proj1 (proj2 (join_outcome emptyOps None "ch-ops" "Worker1")));
    [eexists|]; reflexivity.
Defined.

Lemma set_memberCount_same (c : Channel) : set_memberCount c (memberCount c) = c.
Proof. now destruct c. Qed.

Lemma set_memberCount_twice (c : Channel) (n k : nat) :
  set_memberCount (set_memberCount c n) k = set_memberCount c k.
Proof. reflexivity. Qed.

(** [leave] asks for no permission: on an existing channel it returns
    true whatever the access rules say, and the agent is no member
    afterwards.  A join of a new member followed by a leave restores the
    registry exactly, member count included. *)
Theorem leave_undoes_join (svc : ChannelService.t) (relay : option RelayClient.t)
    (channelId agentId : string) (channel : Channel) (members : gset string) :
  channels svc !! channelId = Some channel ->
  memberships svc !! channelId = Some members ->
  (exists svc' relay',
      leave svc relay channelId agentId = (true, svc', relay') /\
      isMember svc' channelId agentId = false) /\
  (memberCount channel = size members ->
   agentId ∉ members ->
   forall svc1 relay1,
     join svc relay channelId agentId = (Returned true, svc1, relay1) ->
     (leave svc1 relay1 channelId agentId).1.2 = svc).
Proof.
  intros Hch Hm. split.
  - unfold leave. rewrite Hch, Hm.
    destruct (decide (agentId ∈ members)) as [Hin|Hout].
    + eexists _, _. split; [reflexivity|]. unfold isMember. cbn.
      rewrite lookup_insert_eq. apply bool_decide_eq_false.
      intros [_ Hn]%elem_of_difference. apply Hn. now apply elem_of_singleton.
    + exists svc, relay. split; [reflexivity|]. unfold isMember. rewrite Hm.
      now apply bool_decide_eq_false.
  - intros Hcount Hout svc1 relay1. unfold join. rewrite Hch, Hm.
    destruct (negb (checkAccess svc channelId agentId READ)); [discriminate|].
    destruct (decide (agentId ∈ members)) as [Hin|_]; [contradiction|].
    intros H. injection H as <- <-. unfold leave. cbn.
    rewrite !lookup_insert_eq.
    destruct (decide (agentId ∈ {[agentId]} ∪ members)) as [_|Hno];
      [|exfalso; set_solver].
    cbn. rewrite !insert_insert_eq, set_memberCount_twice.
    assert (Hback : ({[agentId]} ∪ members) ∖ {[agentId]} = members).
    { apply set_eq. intros x.
      rewrite elem_of_difference, elem_of_union, elem_of_singleton.
      split; [intros [[->|Hx] Hn]; [contradiction | exact Hx]|].
      intros Hx. split; [now right|]. intros ->. contradiction. }
    rewrite Hback, <- Hcount, set_memberCount_same.
    rewrite (insert_id _ _ _ Hch), (insert_id _ _ _ Hm).
    now destruct svc.
Qed.

Definition openOps : ChannelService.t :=
  (addAccessRule emptyOps "ch-ops" (writeRule "Worker1")).2.

Lemma leave_undoes_join_witness :
  exists svc1 relay1,
    join openOps None "ch-ops" "Worker1" = (Returned true, svc1, relay1) /\
    (leave svc1 relay1 "ch-ops" "Worker1").1.2 = openOps.
Proof.
  eexists _, _. split; [reflexivity|].
  refine (proj2 (leave_undoes_join openOps None "ch-ops" "Worker1" _ ∅
                   eq_refl eq_refl) _ _ _ _ eq_refl).
  - reflexivity.
  - apply not_elem_of_empty.
Defined.

(** *** Deleting *)

(** After [delete] the channel is found neither by id nor by name, has
    no members, admits nobody, cannot be joined or left (both answer
    false without throwing), and its name is free for a new channel. *)
Theorem delete_purges (svc : ChannelService.t) (channelId : string)
    (channel : Channel) :
  channels svc !! channelId = Some channel ->
  let svc' := (delete svc channelId).2 in
  (delete svc channelId).1 = true /\
  getById svc' channelId = None /\
  getByName svc' (ch_name channel) = None /\
  getMembers svc' channelId = [] /\
  (forall agentId required, checkAccess svc' channelId agentId required = false) /\
  (forall relay agentId,
      join svc' relay channelId agentId = (Returned false, svc', relay)) /\
  (forall relay agentId,
      leave svc' relay channelId agentId = (false, svc', relay)) /\
  (forall input createdBy uuid now,
      in_name input = ch_name channel ->
      exists c s, create svc' input createdBy uuid now = (Returned c, s)).
Proof.
  intros Hch svc'. subst svc'. unfold delete. rewrite Hch. cbn.
  unfold getById, getByName, getMembers, checkAccess, join, leave, create. cbn.
  rewrite !lookup_delete_eq. repeat split.
  intros input createdBy uuid now ->. rewrite lookup_delete_eq. eauto.
Qed.

Lemma delete_purges_witness :
  getByName (delete opsService "ch-ops").2 "ops" = None /\
  exists c s,
    create (delete opsService "ch-ops").2 opsInput "Lead" "0003" "t2"
    = (Returned c, s).
Proof.
  destruct (delete_purges opsService "ch-ops" opsChannel eq_refl)
    as (_ & _ & Hname & _ & _ & _ & _ & Hfree).
  split; [exact Hname|]. now apply Hfree.
Defined.

End ChannelLifecycle.

(** ** ChannelService: what every reachable registry satisfies *)

Section ChannelInvariants.
Import Models ChannelService.

Lemma accessLevelSatisfies_READ (actual : ChannelAccessLevel) :
  accessLevelSatisfies actual READ = true.
Proof. now destruct actual. Qed.

Lemma checkAccess_other (svc svc' : ChannelService.t) (channelId agentId : string)
    (required : ChannelAccessLevel) :
  channels svc' !! channelId = channels svc !! channelId ->
  checkAccess svc' channelId agentId required
  = checkAccess svc channelId agentId required.
Proof. intros H. unfold checkAccess. now rewrite H. Qed.

Lemma read_access_kept (svc : ChannelService.t) (channelId agentId : string)
    (rule : ChannelAccessRule) :
  checkAccess svc channelId agentId READ = true ->
  checkAccess (addAccessRule svc channelId rule).2 channelId agentId READ = true.
Proof.
  intros Hread.
  destruct (channels svc !! channelId) as [channel|] eqn:Hch.
  - rewrite (checkAccess_addAccessRule _ _ _ _ _ _ Hch), checkRules_snoc.
    unfold checkAccess in Hread. rewrite Hch in Hread.
    destruct (checkRules (accessRules channel) agentId READ); [exact Hread|].
    destruct (matchRule rule agentId); [apply accessLevelSatisfies_READ | exact Hread].
  - unfold checkAccess in Hread. rewrite Hch in Hread. discriminate.
Qed.

(** Every member of a channel has read access to it. *)
Definition membersCanRead (svc : ChannelService.t) : Prop :=
  forall id members agentId,
    memberships svc !! id = Some members -> agentId ∈ members ->
    checkAccess svc id agentId READ = true.

Lemma membersCanRead_perform (st : ChannelService.t * option RelayClient.t)
    (c : Call) :
  membersCanRead st.1 -> membersCanRead (perform st c).1.
Proof.
  destruct st as [svc relay]. cbn [fst]. intros Hinv.
  destruct c as [input createdBy uuid now | channelId agentId
                | channelId agentId | channelId rule | channelId updates
                | channelId]; cbn [perform].
  - unfold create. destruct (nameIndex svc !! in_name input); [exact Hinv|].
    cbn. intros id members a Hm Ha. cbn in Hm.
    destruct (decide ("ch-" +:+ uuid = id)) as [<-|Hne].
    + rewrite lookup_insert_eq in Hm. injection Hm as <-.
      now apply not_elem_of_empty in Ha.
    + rewrite lookup_insert_ne in Hm by exact Hne.
      rewrite checkAccess_other with (svc := svc); [now apply (Hinv id members)|].
      cbn. now rewrite lookup_insert_ne.
  - unfold join. destruct (channels svc !! channelId) as [channel|] eqn:Hch;
      [|exact Hinv].
    destruct (negb (checkAccess svc channelId agentId READ)) eqn:Hacc; [exact Hinv|].
    destruct (memberships svc !! channelId) as [members0|] eqn:Hm0; [|exact Hinv].
    destruct (decide (agentId ∈ members0)); [exact Hinv|].
    cbn. intros id members a Hm Ha. cbn in Hm.
    destruct (decide (channelId = id)) as [<-|Hne].
    + rewrite lookup_insert_eq in Hm. injection Hm as <-.
      rewrite (checkAccess_set_memberCount svc channelId a channel _ _ READ Hch).
      apply elem_of_union in Ha as [Ha|Ha].
      * apply elem_of_singleton in Ha. subst a. now apply negb_false_iff.
      * now apply (Hinv channelId members0).
    + rewrite lookup_insert_ne in Hm by exact Hne.
      rewrite checkAccess_other with (svc := svc); [now apply (Hinv id members)|].
      cbn. now rewrite lookup_insert_ne.
  - unfold leave. destruct (channels svc !! channelId) as [channel|] eqn:Hch;
      [|exact Hinv].
    destruct (memberships svc !! channelId) as [members0|] eqn:Hm0; [|exact Hinv].
    destruct (decide (agentId ∈ members0)); [|exact Hinv].
    cbn. intros id members a Hm Ha. cbn in Hm.
    destruct (decide (channelId = id)) as [<-|Hne].
    + rewrite lookup_insert_eq in Hm. injection Hm as <-.
      rewrite (checkAccess_set_memberCount svc channelId a channel _ _ READ Hch).
      apply elem_of_difference in Ha as [Ha _].
      now apply (Hinv channelId members0).
    + rewrite lookup_insert_ne in Hm by exact Hne.
      rewrite checkAccess_other with (svc := svc); [now apply (Hinv id members)|].
      cbn. now rewrite lookup_insert_ne.
  - intros id members a Hm Ha.
    assert (Hm' : memberships svc !! id = Some members).
    { revert Hm. unfold addAccessRule.
      now destruct (channels svc !! channelId). }
    destruct (decide (channelId = id)) as [<-|Hne].
    + apply read_access_kept. now apply (Hinv channelId members).
    + rewrite checkAccess_other with (svc := svc); [now apply (Hinv id members)|].
      unfold addAccessRule. destruct (channels svc !! channelId); [|reflexivity].
      cbn. now rewrite lookup_insert_ne.
  - unfold update. destruct (channels svc !! channelId) as [channel|] eqn:Hch;
      [|exact Hinv].
    cbn. intros id members a Hm Ha. cbn in Hm.
    specialize (Hinv id members a Hm Ha). revert Hinv.
    unfold checkAccess. cbn.
    destruct (decide (channelId = id)) as [<-|Hne].
    + now rewrite lookup_insert_eq, Hch.
    + now rewrite lookup_insert_ne.
  - unfold delete. destruct (channels svc !! channelId) as [channel|] eqn:Hch;
      [|exact Hinv].
    cbn. intros id members a Hm Ha. cbn in Hm.
    apply lookup_delete_Some in Hm as [Hne Hm].
    rewrite checkAccess_other with (svc := svc); [now apply (Hinv id members)|].
    cbn. now rewrite lookup_delete_ne.
Qed.

(** In every registry reached from the empty one, whoever is a member
    of a channel has read access to it: membership is only gained
    through a checked join, and no call takes read access away. *)
Theorem members_can_read (projectId : string) (relay : option RelayClient.t)
    (calls : list Call) (channelId agentId : string) :
  isMember (foldl perform (blank projectId, relay) calls).1 channelId agentId
  = true ->
  checkAccess (foldl perform (blank projectId, relay) calls).1 channelId agentId
    READ = true.
Proof.
  assert (Hinv : forall st, membersCanRead st.1 ->
                            membersCanRead (foldl perform st calls).1).
  { induction calls as [|c calls IH]; intros st Hst; [exact Hst|].
    cbn. apply IH. now apply membersCanRead_perform. }
  specialize (Hinv (blank projectId, relay)).
  intros Hmember. unfold isMember in Hmember.
  destruct (memberships _ !! channelId) as [members|] eqn:Hm; [|discriminate].
  apply bool_decide_eq_true in Hmember.
  apply (Hinv ltac:(intros id m a H; cbn in H; rewrite lookup_empty in H;
                    discriminate) channelId members agentId Hm Hmember).
Qed.

Lemma members_can_read_witness :
  isMember (foldl perform (blank "p", None) sampleCalls).1 generalId "Worker2"
  = true /\
  checkAccess (foldl perform (blank "p", None) sampleCalls).1 generalId "Worker2"
    READ = true.
Proof.
  assert (H : isMember (foldl perform (blank "p", None) sampleCalls).1 generalId
                "Worker2" = true) by reflexivity.
  split; [exact H|].
  exact (members_can_read "p" None sampleCalls generalId "Worker2" H).
Defined.

(** The default access of a channel is read or none. *)
Definition lowDefaults (svc : ChannelService.t) : Prop :=
  forall id channel,
    channels svc !! id = Some channel ->
    defaultAccess channel = None \/ defaultAccess channel = Some READ.

Lemma lowDefaults_perform (st : ChannelService.t * option RelayClient.t)
    (c : Call) :
  lowDefaults st.1 -> lowDefaults (perform st c).1.
Proof.
  destruct st as [svc relay]. cbn [fst]. intros Hinv.
  assert (Hreplace : forall cid (c' ch : Channel) ms,
             channels svc !! cid = Some ch ->
             defaultAccess c' = defaultAccess ch ->
             lowDefaults {| channels := <[cid := c']> (channels svc);
                            nameIndex := nameIndex svc; memberships := ms;
                            projectId := ChannelService.projectId svc |}).
  { intros cid c' ch ms Hch Hsame id channel Hid. cbn in Hid.
    apply lookup_insert_Some in Hid as [[_ <-]|[_ Hid]].
    - rewrite Hsame. now apply (Hinv cid).
    - now apply (Hinv id). }
  destruct c as [input createdBy uuid now | channelId agentId
                | channelId agentId | channelId rule | channelId updates
                | channelId]; cbn [perform].
  - unfold create. destruct (nameIndex svc !! in_name input); [exact Hinv|].
    cbn. intros id channel Hid. cbn in Hid.
    apply lookup_insert_Some in Hid as [[_ <-]|[_ Hid]]; [|now apply (Hinv id)].
    cbn. destruct (in_type input) as [[]|]; auto.
  - unfold join. destruct (channels svc !! channelId) as [channel|] eqn:Hch;
      [|exact Hinv].
    destruct (negb (checkAccess svc channelId agentId READ)); [exact Hinv|].
    destruct (memberships svc !! channelId) as [members0|]; [|exact Hinv].
    destruct (decide (agentId ∈ members0)); [exact Hinv|].
    cbn. now apply (Hreplace channelId _ channel).
  - unfold leave. destruct (channels svc !! channelId) as [channel|] eqn:Hch;
      [|exact Hinv].
    destruct (memberships svc !! channelId) as [members0|]; [|exact Hinv].
    destruct (decide (agentId ∈ members0)); [|exact Hinv].
    cbn. now apply (Hreplace channelId _ channel).
  - unfold addAccessRule.
    destruct (channels svc !! channelId) as [channel|] eqn:Hch; [|exact Hinv].
    cbn. now apply (Hreplace channelId _ channel).
  - unfold update.
    destruct (channels svc !! channelId) as [channel|] eqn:Hch; [|exact Hinv].
    cbn. now apply (Hreplace channelId _ channel).
  - unfold delete.
    destruct (channels svc !! channelId) as [channel|] eqn:Hch; [|exact Hinv].
    cbn. intros id c Hid. cbn in Hid.
    apply lookup_delete_Some in Hid as [_ Hid]. now apply (Hinv id).
Qed.

Lemma lowDefaults_calls (calls : list Call)
    (st : ChannelService.t * option RelayClient.t) :
  lowDefaults st.1 -> lowDefaults (foldl perform st calls).1.
Proof.
  revert st. induction calls as [|c calls IH]; intros st Hst; [exact Hst|].
  cbn. apply IH. now apply lowDefaults_perform.
Qed.

(** In a registry reached from the empty one, adding an access rule
    never turns a granted access into a refusal, at any level: rules
    are appended behind the ones that already decide, and a rule that
    comes to decide for an agent replaces at most the default read
    access. *)
Theorem access_never_revoked (projectId : string) (relay : option RelayClient.t)
    (calls : list Call) (channelId agentId : string) (rule : ChannelAccessRule)
    (required : ChannelAccessLevel) :
  let svc := (foldl perform (blank projectId, relay) calls).1 in
  checkAccess svc channelId agentId required = true ->
  checkAccess (addAccessRule svc channelId rule).2 channelId agentId required
  = true.
Proof.
  intros svc Hbefore.
  assert (Hlow : lowDefaults svc).
  { subst svc. apply lowDefaults_calls.
    intros id ch H. cbn in H. rewrite lookup_empty in H. discriminate. }
  destruct (channels svc !! channelId) as [channel|] eqn:Hch.
  - rewrite (checkAccess_addAccessRule _ _ _ _ _ _ Hch), checkRules_snoc.
    unfold checkAccess in Hbefore. rewrite Hch in Hbefore.
    destruct (checkRules (accessRules channel) agentId required);
      [exact Hbefore|].
    destruct (matchRule rule agentId); [|exact Hbefore].
    destruct (Hlow channelId channel Hch) as [Hd|Hd]; rewrite Hd in Hbefore;
      [discriminate|].
    destruct required; try discriminate. apply accessLevelSatisfies_READ.
  - unfold checkAccess in Hbefore. rewrite Hch in Hbefore. discriminate.
Qed.

Lemma access_never_revoked_witness :
  let svc := (foldl perform (blank "p", None) sampleCalls).1 in
  checkAccess svc generalId "Worker1" WRITE = true /\
  checkAccess
    (addAccessRule svc generalId
       {| principal := "Worker1"; principalType := principal_agent;
          level := READ; rule_expiresAt := None |}).2
    generalId "Worker1" WRITE = true.
Proof.
  intros svc.
  assert (H : checkAccess svc generalId "Worker1" WRITE = true) by reflexivity.
  split; [exact H|].
  exact (access_never_revoked "p" None sampleCalls generalId "Worker1" _ WRITE H).
Defined.

(** *** The name index *)

(** The name index and the channel table describe each other: every
    stored channel sits under its own, non-empty id and is indexed by
    its name, and every index entry leads to a channel of that name. *)
Definition indexed (svc : ChannelService.t) : Prop :=
  (forall id channel,
      channels svc !! id = Some channel ->
      ch_id channel = id /\ id <> "" /\ nameIndex svc !! ch_name channel = Some id) /\
  (forall name id,
      nameIndex svc !! name = Some id ->
      exists channel, channels svc !! id = Some channel /\ ch_name channel = name).

Lemma indexed_replace (svc : ChannelService.t) (cid : string)
    (c' ch : Channel) (ms : gmap string (gset string)) :
  channels svc !! cid = Some ch ->
  ch_id c' = ch_id ch -> ch_name c' = ch_name ch ->
  indexed svc ->
  indexed {| channels := <[cid := c']> (channels svc);
             nameIndex := nameIndex svc; memberships := ms;
             projectId := ChannelService.projectId svc |}.
Proof.
  intros Hch Hid Hname [Hfwd Hback]. split; cbn.
  - intros id channel [[<- <-]|[Hne H]]%lookup_insert_Some.
    + rewrite Hid, Hname. now apply Hfwd.
    + now apply Hfwd.
  - intros name id Hn. destruct (Hback name id Hn) as (channel & Hc & Hcn).
    destruct (decide (cid = id)) as [<-|Hne].
    + exists c'. rewrite lookup_insert_eq. split; [reflexivity|].
      rewrite Hname. congruence.
    + exists channel. now rewrite lookup_insert_ne.
Qed.

Lemma indexed_perform (st : ChannelService.t * option RelayClient.t)
    (c : Call) :
  freshCreates st [c] -> indexed st.1 -> indexed (perform st c).1.
Proof.
  destruct st as [svc relay]. cbn [fst]. intros [Hfresh _] Hinv.
  pose proof Hinv as [Hfwd Hback].
  destruct c as [input createdBy uuid now | channelId agentId
                | channelId agentId | channelId rule | channelId updates
                | channelId]; cbn [perform].
  - destruct Hfresh as [Hfresh _]. cbn in Hfresh. unfold create.
    destruct (nameIndex svc !! in_name input) eqn:Hname; [exact Hinv|].
    split; cbn.
    + intros id channel [[<- <-]|[Hne H]]%lookup_insert_Some; cbn.
      * rewrite lookup_insert_eq. repeat split. discriminate.
      * destruct (Hfwd id channel H) as (Hi & Hn & Hx). repeat split; auto.
        rewrite lookup_insert_ne; [exact Hx|]. intros E.
        rewrite E in Hname. congruence.
    + intros name id [[<- <-]|[Hne H]]%lookup_insert_Some.
      * eexists. rewrite lookup_insert_eq. split; reflexivity.
      * destruct (Hback name id H) as (channel & Hc & Hcn).
        exists channel. split; [|exact Hcn].
        rewrite lookup_insert_ne; [exact Hc|]. intros E. rewrite <- E in Hc.
        congruence.
  - unfold join. destruct (channels svc !! channelId) as [channel|] eqn:Hch;
      [|exact Hinv].
    destruct (negb (checkAccess svc channelId agentId READ)); [exact Hinv|].
    destruct (memberships svc !! channelId) as [members0|]; [|exact Hinv].
    destruct (decide (agentId ∈ members0)); [exact Hinv|].
    cbn. now apply (indexed_replace svc channelId _ channel).
  - unfold leave. destruct (channels svc !! channelId) as [channel|] eqn:Hch;
      [|exact Hinv].
    destruct (memberships svc !! channelId) as [members0|]; [|exact Hinv].
    destruct (decide (agentId ∈ members0)); [|exact Hinv].
    cbn. now apply (indexed_replace svc channelId _ channel).
  - unfold addAccessRule.
    destruct (channels svc !! channelId) as [channel|] eqn:Hch; [|exact Hinv].
    cbn. now apply (indexed_replace svc channelId _ channel).
  - unfold update.
    destruct (channels svc !! channelId) as [channel|] eqn:Hch; [|exact Hinv].
    cbn. now apply (indexed_replace svc channelId _ channel).
  - unfold delete.
    destruct (channels svc !! channelId) as [channel|] eqn:Hch; [|exact Hinv].
    destruct (Hfwd channelId channel Hch) as (_ & _ & Hidx).
    split; cbn.
    + intros id c [Hne H]%lookup_delete_Some.
      destruct (Hfwd id c H) as (Hi & Hn & Hx). repeat split; auto.
      rewrite lookup_delete_ne; [exact Hx|]. intros E.
      rewrite E in Hidx. congruence.
    + intros name id [Hne H]%lookup_delete_Some.
      destruct (Hback name id H) as (c & Hc & Hcn).
      exists c. split; [|exact Hcn].
      rewrite lookup_delete_ne; [exact Hc|]. intros E. subst id.
      congruence.
Qed.

Lemma freshCreates_cons (st : ChannelService.t * option RelayClient.t)
    (c : Call) (calls : list Call) :
  freshCreates st (c :: calls) ->
  freshCreates st [c] /\ freshCreates (perform st c) calls.
Proof. cbn. intros [H1 H2]. repeat split; assumption. Qed.

Lemma indexed_calls (calls : list Call)
    (st : ChannelService.t * option RelayClient.t) :
  freshCreates st calls -> indexed st.1 -> indexed (foldl perform st calls).1.
Proof.
  revert st. induction calls as [|c calls IH]; intros st Hf Hst; [exact Hst|].
  apply freshCreates_cons in Hf as [Hc Hrest].
  cbn. apply IH; [exact Hrest|]. now apply indexed_perform.
Qed.

(** With channel ids drawn fresh, the registry reached from the empty
    one keeps names unique: [getByName] finds exactly the stored
    channel of that name, and two stored channels of one name are the
    same entry. *)
Theorem names_identify_channels (projectId : string)
    (relay : option RelayClient.t) (calls : list Call) :
  freshCreates (blank projectId, relay) calls ->
  let svc := (foldl perform (blank projectId, relay) calls).1 in
  (forall name channel,
      getByName svc name = Some channel <->
      (getById svc (ch_id channel) = Some channel /\ ch_name channel = name)) /\
  (forall id1 id2 c1 c2,
      getById svc id1 = Some c1 -> getById svc id2 = Some c2 ->
      ch_name c1 = ch_name c2 -> id1 = id2).
Proof.
  intros Hfresh svc.
  assert (Hinv : indexed svc).
  { subst svc. apply indexed_calls; [exact Hfresh|]. split; cbn.
    - intros id ch H. rewrite lookup_empty in H. discriminate.
    - intros name id H. rewrite lookup_empty in H. discriminate. }
  destruct Hinv as [Hfwd Hback]. unfold getByName, getById. split.
  - intros name channel. split.
    + destruct (nameIndex svc !! name) as [id|] eqn:Hn; [|discriminate].
      destruct (String.eqb id ""); [discriminate|]. intros Hc.
      destruct (Hback name id Hn) as (c & Hc' & Hcn).
      assert (c = channel) by congruence. subst c.
      destruct (Hfwd id channel Hc) as (-> & _ & _). now split.
    + intros [Hc <-]. destruct (Hfwd _ _ Hc) as (_ & Hne & Hidx).
      rewrite Hidx. apply String.eqb_neq in Hne. now rewrite Hne.
  - intros id1 id2 c1 c2 H1 H2 Hsame.
    destruct (Hfwd id1 c1 H1) as (_ & _ & Hi1).
    destruct (Hfwd id2 c2 H2) as (_ & _ & Hi2).
    rewrite Hsame in Hi1. congruence.
Qed.

Lemma names_identify_channels_witness :
  freshCreates (blank "p", None) sampleCalls /\
  forall channel,
    getByName (foldl perform (blank "p", None) sampleCalls).1 "general"
    = Some channel ->
    ch_name channel = "general".
Proof.
  assert (Hfresh : freshCreates (blank "p", None) sampleCalls)
    by (cbn; repeat split; reflexivity).
  split; [exact Hfresh|].
  intros channel H.
  exact (proj2 (proj1 (proj1 (names_identify_channels "p" None sampleCalls Hfresh)
                         "general" channel) H)).
Defined.

(** *** Membership and relay subscriptions *)

(** The relay's subscription set of every channel with a membership set
    is that membership set. *)
Definition synced (st : ChannelService.t * option RelayClient.t) : Prop :=
  exists rc,
    st.2 = Some rc /\
    forall id members,
      memberships st.1 !! id = Some members ->
      default ∅ (RelayClient.subscriptions rc !! id) = members.

Lemma synced_perform (st : ChannelService.t * option RelayClient.t) (c : Call) :
  freshCreates st [c] -> synced st -> synced (perform st c).
Proof.
  destruct st as [svc relay]. intros [Hfresh _] (rc & Hrelay & Hinv).
  cbn in Hrelay. subst relay. cbn [fst] in Hinv.
  destruct c as [input createdBy uuid now | channelId agentId
                | channelId agentId | channelId rule | channelId updates
                | channelId]; cbn [perform].
  - destruct Hfresh as [_ Hfresh]. cbn in Hfresh. unfold create.
    destruct (nameIndex svc !! in_name input); [exists rc; now split|].
    exists rc. split; [reflexivity|]. cbn.
    intros id members [[<- <-]|[Hne H]]%lookup_insert_Some.
    + now rewrite Hfresh.
    + now apply Hinv.
  - unfold join. destruct (channels svc !! channelId) as [channel|];
      [|exists rc; now split].
    destruct (negb (checkAccess svc channelId agentId READ));
      [exists rc; now split|].
    destruct (memberships svc !! channelId) as [members0|] eqn:Hm0;
      [|exists rc; now split].
    destruct (decide (agentId ∈ members0)); [exists rc; now split|].
    eexists. split; [reflexivity|]. cbn.
    intros id members [[<- <-]|[Hne H]]%lookup_insert_Some.
    + rewrite lookup_insert_eq. cbn. now rewrite (Hinv channelId members0 Hm0).
    + rewrite lookup_insert_ne by exact Hne. now apply Hinv.
  - unfold leave. destruct (channels svc !! channelId) as [channel|];
      [|exists rc; now split].
    destruct (memberships svc !! channelId) as [members0|] eqn:Hm0;
      [|exists rc; now split].
    destruct (decide (agentId ∈ members0)) as [Hin|]; [|exists rc; now split].
    eexists. split; [reflexivity|]. cbn.
    pose proof (Hinv channelId members0 Hm0) as Hsub.
    unfold RelayClient.unsubscribeFromChannel.
    destruct (RelayClient.subscriptions rc !! channelId) as [subs|] eqn:Hs.
    + cbn in Hsub. subst subs. cbn.
      intros id members [[<- <-]|[Hne H]]%lookup_insert_Some.
      * now rewrite lookup_insert_eq.
      * rewrite lookup_insert_ne by exact Hne. now apply Hinv.
    + cbn in Hsub. subst members0. now apply not_elem_of_empty in Hin.
  - exists rc. split; [reflexivity|]. cbn. unfold addAccessRule.
    destruct (channels svc !! channelId); exact Hinv.
  - exists rc. split; [reflexivity|]. cbn. unfold update.
    destruct (channels svc !! channelId); exact Hinv.
  - exists rc. split; [reflexivity|]. cbn. unfold delete.
    destruct (channels svc !! channelId); [|exact Hinv]. cbn.
    intros id members [_ H]%lookup_delete_Some. now apply Hinv.
Qed.

Lemma synced_calls (calls : list Call)
    (st : ChannelService.t * option RelayClient.t) :
  freshCreates st calls -> synced st -> synced (foldl perform st calls).
Proof.
  revert st. induction calls as [|c calls IH]; intros st Hf Hst; [exact Hst|].
  apply freshCreates_cons in Hf as [Hc Hrest].
  cbn. apply IH; [exact Hrest|]. now apply synced_perform.
Qed.

End ChannelInvariants.

(** ** RelayClient: who receives a frame *)

Section RelayDelivery.
Import Models RelayClient.

(** A socket after [k] deliveries of a frame: an open socket has the
    frame appended [k] times to what it sent, any other is untouched. *)
Definition received (frame : WSMessage) (k : nat) (ws : WebSocket) : WebSocket :=
  match readyState ws with
  | OPEN => {| readyState := OPEN; sentFrames := sentFrames ws ++ replicate k frame |}
  | _ => ws
  end.

(** How many of the agents are registered on the socket with handle [h]. *)
Definition boundTo (rc : RelayClient.t) (h : nat) (agents : list string) : nat :=
  length (filter (fun a => connections rc !! a = Some h) agents).

Lemma received_zero (frame : WSMessage) (ws : WebSocket) : received frame 0 ws = ws.
Proof.
  unfold received. destruct ws as [[] frames]; cbn; try reflexivity.
  now rewrite app_nil_r.
Qed.

Lemma received_add (frame : WSMessage) (i j : nat) (ws : WebSocket) :
  received frame j (received frame i ws) = received frame (i + j) ws.
Proof.
  unfold received. destruct ws as [[] frames]; cbn; try reflexivity.
  now rewrite replicate_add, app_assoc.
Qed.

Lemma sendToAgent_effect (rc : RelayClient.t) (agentId : string)
    (frame : WSMessage) :
  connections (sendToAgent rc agentId frame) = connections rc /\
  subscriptions (sendToAgent rc agentId frame) = subscriptions rc /\
  forall h,
    sockets (sendToAgent rc agentId frame) !! h
    = received frame (boundTo rc h [agentId]) <$> sockets rc !! h.
Proof.
  assert (Hidle : forall h, sockets rc !! h = received frame 0 <$> sockets rc !! h).
  { intros h. destruct (sockets rc !! h) as [ws|]; cbn; [|reflexivity].
    now rewrite received_zero. }
  destruct (connections rc !! agentId) as [h0|] eqn:Hconn.
  - assert (Hcount : forall h, boundTo rc h [agentId]
                               = if decide (h0 = h) then 1%nat else 0%nat).
    { intros h. unfold boundTo. destruct (decide (h0 = h)) as [<-|Hne].
      - now rewrite filter_cons_True.
      - rewrite filter_cons_False; [reflexivity|]. congruence. }
    assert (Hrest : forall h, h0 <> h ->
               sockets rc !! h = received frame (boundTo rc h [agentId])
                                   <$> sockets rc !! h).
    { intros h Hne. rewrite Hcount. destruct (decide (h0 = h)); [contradiction|].
      apply Hidle. }
    unfold sendToAgent. rewrite Hconn.
    destruct (sockets rc !! h0) as [ws|] eqn:Hws.
    + destruct (readyState ws) eqn:Hstate.
      2: { split; [reflexivity|]. split; [reflexivity|]. intros h.
           cbn [sockets set_sockets].
           destruct (decide (h0 = h)) as [<-|Hne];
             [|rewrite lookup_insert_ne by exact Hne; now apply Hrest].
           rewrite lookup_insert_eq, Hws, Hcount.
           destruct (decide (h0 = h0)); [|contradiction].
           cbn. unfold received. now rewrite Hstate. }
      all: split; [reflexivity|]; split; [reflexivity|]; intros h;
        destruct (decide (h0 = h)) as [<-|Hne]; [|now apply Hrest];
        rewrite Hws; cbn; unfold received; now rewrite Hstate.
    + split; [reflexivity|]. split; [reflexivity|]. intros h.
      destruct (decide (h0 = h)) as [<-|Hne]; [|now apply Hrest].
      now rewrite Hws.
  - unfold sendToAgent. rewrite Hconn.
    split; [reflexivity|]. split; [reflexivity|]. intros h.
    unfold boundTo. rewrite filter_cons_False by congruence. apply Hidle.
Qed.

Lemma sendToAll_effect (frame : WSMessage) (agents : list string) :
  forall rc : RelayClient.t,
    let rc' := foldl (fun rc a => sendToAgent rc a frame) rc agents in
    connections rc' = connections rc /\
    subscriptions rc' = subscriptions rc /\
    forall h,
      sockets rc' !! h = received frame (boundTo rc h agents) <$> sockets rc !! h.
Proof.
  induction agents as [|a agents IH]; intros rc; cbn [foldl].
  - repeat split. intros h. unfold boundTo. cbn.
    destruct (sockets rc !! h) as [ws|]; cbn; [|reflexivity].
    now rewrite received_zero.
  - destruct (sendToAgent_effect rc a frame) as (Hc1 & Hs1 & Hk1).
    destruct (IH (sendToAgent rc a frame)) as (Hc & Hs & Hk).
    split; [congruence|]. split; [congruence|].
    intros h. rewrite Hk, Hk1.
    assert (Hsplit : boundTo rc h (a :: agents)
                     = (boundTo rc h [a] + boundTo (sendToAgent rc a frame) h agents)%nat).
    { unfold boundTo. rewrite Hc1.
      destruct (decide (connections rc !! a = Some h)) as [Ha|Ha].
      - now rewrite !filter_cons_True by exact Ha.
      - now rewrite !filter_cons_False by exact Ha. }
    rewrite Hsplit.
    destruct (sockets rc !! h) as [ws|]; cbn; [|reflexivity].
    now rewrite received_add.
Qed.

Lemma broadcastToChannel_effect (rc : RelayClient.t) (channelId : string)
    (frame : WSMessage) :
  let rc' := broadcastToChannel rc channelId frame in
  connections rc' = connections rc /\
  subscriptions rc' = subscriptions rc /\
  forall h,
    sockets rc' !! h
    = received frame (boundTo rc h (getChannelSubscribers rc channelId))
        <$> sockets rc !! h.
Proof.
  unfold broadcastToChannel, getChannelSubscribers.
  destruct (subscriptions rc !! channelId) as [subscribers|]; cbn [default].
  - apply sendToAll_effect.
  - repeat split. intros h. rewrite elements_empty. unfold boundTo. cbn.
    destruct (sockets rc !! h) as [ws|]; cbn; [|reflexivity].
    now rewrite received_zero.
Qed.

Lemma broadcast_effect (rc : RelayClient.t) (frame : WSMessage) :
  let rc' := broadcast rc frame in
  connections rc' = connections rc /\
  subscriptions rc' = subscriptions rc /\
  forall h,
    sockets rc' !! h
    = received frame (boundTo rc h (map fst (map_to_list (connections rc))))
        <$> sockets rc !! h.
Proof. unfold broadcast. apply sendToAll_effect. Qed.

(** The three ways of pushing a frame. *)
Inductive Push : Type :=
| toAgent (agentId : string)
| toChannel (channelId : string)
| toAll.

Definition push (rc : RelayClient.t) (how : Push) (frame : WSMessage)
    : RelayClient.t :=
  match how with
  | toAgent agentId => sendToAgent rc agentId frame
  | toChannel channelId => broadcastToChannel rc channelId frame
  | toAll => broadcast rc frame
  end.

(** The agents a push is addressed to. *)
Definition recipients (rc : RelayClient.t) (how : Push) : list string :=
  match how with
  | toAgent agentId => [agentId]
  | toChannel channelId => getChannelSubscribers rc channelId
  | toAll => map fst (map_to_list (connections rc))
  end.

Lemma push_effect (rc : RelayClient.t) (how : Push) (frame : WSMessage) :
  connections (push rc how frame) = connections rc /\
  subscriptions (push rc how frame) = subscriptions rc /\
  forall h,
    sockets (push rc how frame) !! h
    = received frame (boundTo rc h (recipients rc how)) <$> sockets rc !! h.
Proof.
  destruct how as [agentId|channelId|]; cbn [push recipients].
  - apply sendToAgent_effect.
  - apply broadcastToChannel_effect.
  - apply broadcast_effect.
Qed.

(** [sendToAgent], [broadcastToChannel] and [broadcast] change sockets
    only.  An open socket gets the frame appended once for every
    addressed agent that is registered on it (the named agent, the
    subscribers of the channel, every registered agent); a socket that
    is not open, and the socket of an agent that is not addressed, is
    left as it was: nothing is queued for an agent that is not
    reachable, and a frame to an unknown agent or a channel without
    subscriptions changes nothing at all. *)
Theorem relay_delivery (rc : RelayClient.t) (how : Push) (frame : WSMessage) :
  let rc' := push rc how frame in
  connections rc' = connections rc /\
  subscriptions rc' = subscriptions rc /\
  (forall h ws,
      sockets rc !! h = Some ws ->
      sockets rc' !! h
      = Some match readyState ws with
             | OPEN =>
                 {| readyState := OPEN;
                    sentFrames :=
                      sentFrames ws
                      ++ replicate (boundTo rc h (recipients rc how)) frame |}
             | _ => ws
             end) /\
  (forall h, sockets rc !! h = None -> sockets rc' !! h = None) /\
  ((forall a, a ∈ recipients rc how -> connections rc !! a = None) -> rc' = rc).
Proof.
  intros rc'. destruct (push_effect rc how frame) as (Hc & Hs & Hk).
  fold rc' in Hc, Hs, Hk.
  split; [exact Hc|]. split; [exact Hs|]. split; [|split].
  - intros h ws Hws. rewrite Hk, Hws. reflexivity.
  - intros h Hws. now rewrite Hk, Hws.
  - intros Hnone.
    assert (Hskip : forall agents rc0,
               (forall a, a ∈ agents -> connections rc0 !! a = None) ->
               foldl (fun r a => sendToAgent r a frame) rc0 agents = rc0).
    { induction agents as [|a agents IH]; intros rc0 Hn; [reflexivity|].
      cbn [foldl].
      assert (Ha : sendToAgent rc0 a frame = rc0).
      { unfold sendToAgent. rewrite (Hn a); [reflexivity | left]. }
      rewrite Ha. apply IH. intros b Hb. apply Hn. now right. }
    subst rc'. destruct how as [agentId|channelId|]; cbn [push recipients] in *.
    + unfold sendToAgent. rewrite (Hnone agentId); [reflexivity | left].
    + unfold broadcastToChannel, getChannelSubscribers in *.
      destruct (subscriptions rc !! channelId) as [subs|]; [|reflexivity].
      apply Hskip. exact Hnone.
    + unfold broadcast. apply Hskip. exact Hnone.
Qed.

(** *** Closed sockets *)

(** The agents of the listed connections whose socket is closed. *)
Definition closedAgents (rc : RelayClient.t) (entries : list (string * nat))
    : list string :=
  (filter (fun e => isClosed rc e.2 = true) entries).*1.

Lemma closedAgents_sockets (rc rc' : RelayClient.t) (entries : list (string * nat)) :
  sockets rc' = sockets rc -> closedAgents rc' entries = closedAgents rc entries.
Proof.
  intros Hs. unfold closedAgents. f_equal.
  apply list_filter_iff. intros e. unfold isClosed. now rewrite Hs.
Qed.

Lemma sweep_effect (entries : list (string * nat)) :
  forall (emitted : list string) (rc : RelayClient.t),
    let done := foldl sweepOne (emitted, rc) entries in
    done.1 = emitted ++ closedAgents rc entries /\
    sockets done.2 = sockets rc /\
    pendingAcks done.2 = pendingAcks rc /\
    (forall a, connections done.2 !! a
               = if decide (a ∈ closedAgents rc entries) then None
                 else connections rc !! a) /\
    (forall c, subscriptions done.2 !! c
               = (fun s => s ∖ list_to_set (closedAgents rc entries))
                   <$> subscriptions rc !! c).
Proof.
  induction entries as [|[a h] entries IH]; intros emitted rc; cbn [foldl].
  - unfold closedAgents. cbn. rewrite app_nil_r. repeat split.
    intros c. destruct (subscriptions rc !! c) as [s|]; cbn; [|reflexivity].
    f_equal. apply set_eq. intros x. rewrite elem_of_difference.
    split; [intros Hx; split; [exact Hx | apply not_elem_of_empty] | now intros [Hx _]].
  - cbn [sweepOne]. destruct (isClosed rc h) eqn:Hclosed.
    + match goal with |- context [foldl sweepOne (?e, ?r) entries] =>
        destruct (IH e r) as (Hem & Hsock & Hpa & Hconn & Hsub);
        set (final := foldl sweepOne (e, r) entries) in *
      end.
      cbn in Hsock, Hpa.
      assert (Hhead : closedAgents rc ((a, h) :: entries)
                      = a :: closedAgents rc entries).
      { unfold closedAgents. rewrite filter_cons_True by exact Hclosed.
        reflexivity. }
      rewrite Hhead.
      rewrite closedAgents_sockets with (rc := rc) in Hem, Hconn, Hsub
        by reflexivity.
      split; [rewrite Hem, <- app_assoc; reflexivity|].
      split; [exact Hsock|]. split; [exact Hpa|]. split.
      * intros x. rewrite Hconn. cbn.
        destruct (decide (x ∈ closedAgents rc entries)) as [Hin|Hout].
        -- destruct (decide (x ∈ a :: closedAgents rc entries)) as [_|Hno];
             [reflexivity|]. exfalso. apply Hno. now right.
        -- destruct (decide (x = a)) as [->|Hne].
           ++ rewrite lookup_delete_eq.
              destruct (decide (a ∈ a :: closedAgents rc entries)) as [_|Hno];
                [reflexivity|]. exfalso. apply Hno. now left.
           ++ rewrite lookup_delete_ne by congruence.
              destruct (decide (x ∈ a :: closedAgents rc entries)) as [Hin|_];
                [|reflexivity].
              apply elem_of_cons in Hin as [|]; contradiction.
      * intros c. rewrite Hsub. cbn. rewrite lookup_fmap.
        destruct (subscriptions rc !! c) as [s|]; cbn; [|reflexivity].
        f_equal. apply set_eq. intros x.
        rewrite !elem_of_difference, elem_of_union, elem_of_singleton. tauto.
    + assert (Hhead : closedAgents rc ((a, h) :: entries)
                      = closedAgents rc entries).
      { unfold closedAgents. rewrite filter_cons_False; [reflexivity|].
        cbn. congruence. }
      rewrite Hhead. apply IH.
Qed.

(** [handleDisconnect] sweeps every connection whose socket is closed,
    whichever connection id it is called with: exactly those agents are
    announced as disconnected, lose their connection entry and are taken
    out of every subscription set; the other agents, connected or not,
    keep their connection and their subscriptions. *)
Theorem handleDisconnect_sweeps (rc : RelayClient.t) (connectionId : string) :
  let gone a := exists h, connections rc !! a = Some h /\ isClosed rc h = true in
  let done := handleDisconnect rc connectionId in
  (forall a, a ∈ done.1 <-> gone a) /\
  (forall a, gone a -> connections done.2 !! a = None) /\
  (forall a, ~ gone a -> connections done.2 !! a = connections rc !! a) /\
  (forall c,
      match subscriptions done.2 !! c, subscriptions rc !! c with
      | Some after, Some before => forall a, a ∈ after <-> a ∈ before /\ ~ gone a
      | None, None => True
      | _, _ => False
      end) /\
  sockets done.2 = sockets rc /\
  pendingAcks done.2 = pendingAcks rc.
Proof.
  intros gone done. subst done. unfold handleDisconnect.
  destruct (sweep_effect (map_to_list (connections rc)) [] rc)
    as (Hem & Hsock & Hpa & Hconn & Hsub).
  set (done := foldl sweepOne ([], rc) (map_to_list (connections rc))) in *.
  assert (Hgone : forall a, a ∈ closedAgents rc (map_to_list (connections rc))
                            <-> gone a).
  { intros a. unfold closedAgents, gone.
    rewrite list_elem_of_fmap. split.
    - intros ([a' h] & -> & Hin). apply list_elem_of_filter in Hin as [Hc Hin].
      apply elem_of_map_to_list in Hin. now exists h.
    - intros (h & Hc & Hclosed). exists (a, h). split; [reflexivity|].
      apply list_elem_of_filter. split; [exact Hclosed|].
      now apply elem_of_map_to_list. }
  split; [intros a; rewrite Hem; cbn; apply Hgone|].
  split.
  { intros a Ha. rewrite Hconn.
    destruct (decide (a ∈ closedAgents rc (map_to_list (connections rc))));
      [reflexivity|]. exfalso. now apply n, Hgone. }
  split.
  { intros a Ha. rewrite Hconn.
    destruct (decide (a ∈ closedAgents rc (map_to_list (connections rc))))
      as [Hin|]; [|reflexivity]. exfalso. now apply Ha, Hgone. }
  split; [|now split].
  intros c. rewrite Hsub.
  destruct (subscriptions rc !! c) as [s|]; cbn; [|exact I].
  intros a. rewrite elem_of_difference, elem_of_list_to_set, Hgone. tauto.
Qed.

End RelayDelivery.

(** ** ChannelService and RelayClient: memberships and subscriptions *)

Section ServiceAndRelay.
Import Models ChannelService.

Lemma handleDisconnect_unsubscribes (rc : RelayClient.t)
    (connectionId agentId channelId : string) (h : nat) :
  RelayClient.connections rc !! agentId = Some h ->
  RelayClient.isClosed rc h = true ->
  agentId ∉ RelayClient.getChannelSubscribers
              (RelayClient.handleDisconnect rc connectionId).2 channelId.
Proof.
  intros Hconn Hclosed. unfold RelayClient.handleDisconnect.
  destruct (sweep_effect (map_to_list (RelayClient.connections rc)) [] rc)
    as (_ & _ & _ & _ & Hsub).
  unfold RelayClient.getChannelSubscribers. rewrite Hsub.
  assert (Hin : agentId ∈ closedAgents rc (map_to_list (RelayClient.connections rc))).
  { unfold closedAgents. apply list_elem_of_fmap. exists (agentId, h).
    split; [reflexivity|]. apply list_elem_of_filter. split; [exact Hclosed|].
    now apply elem_of_map_to_list. }
  destruct (RelayClient.subscriptions rc !! channelId) as [subs|]; cbn.
  - rewrite elem_of_elements, elem_of_difference, elem_of_list_to_set. tauto.
  - rewrite elements_empty. apply not_elem_of_nil.
Qed.

(** The calls of the channel service keep the relay's subscriptions in
    step with its memberships: after any run of calls (channel ids
    drawn fresh), the subscribers the relay lists for a stored channel
    are the members the service lists for it.  That holds of runs of
    service calls only.  The relay's own entry points change
    subscriptions and never consult or change memberships:
    [unsubscribeFromChannel] (what a [channel.left] frame calls) and
    [handleDisconnect] on a closed socket take a member out of the
    subscribers while it stays a member, and [subscribeToChannel] (what
    a [channel.joined] frame calls) makes a subscriber of an agent that
    is no member. *)
Theorem subscriptions_follow_membership (projectId : string)
    (rc : RelayClient.t) (calls : list Call) :
  freshCreates (blank projectId, Some rc) calls ->
  let st := foldl perform (blank projectId, Some rc) calls in
  exists rc',
    st.2 = Some rc' /\
    (forall channelId,
        is_Some (getById st.1 channelId) ->
        RelayClient.getChannelSubscribers rc' channelId
        = getMembers st.1 channelId) /\
    (forall channelId agentId,
        is_Some (getById st.1 channelId) ->
        agentId ∈ getMembers st.1 channelId ->
        (agentId ∉ RelayClient.getChannelSubscribers
                     (RelayClient.unsubscribeFromChannel rc' agentId channelId)
                     channelId) /\
        (forall h connectionId,
            RelayClient.connections rc' !! agentId = Some h ->
            RelayClient.isClosed rc' h = true ->
            agentId ∉ RelayClient.getChannelSubscribers
                        (RelayClient.handleDisconnect rc' connectionId).2
                        channelId)) /\
    (forall channelId agentId,
        is_Some (getById st.1 channelId) ->
        agentId ∉ getMembers st.1 channelId ->
        agentId ∈ RelayClient.getChannelSubscribers
                    (RelayClient.subscribeToChannel rc' agentId channelId)
                    channelId).
Proof.
  intros Hfresh st.
  assert (Hsync : synced st).
  { apply synced_calls; [exact Hfresh|]. exists rc. split; [reflexivity|].
    intros id m H. cbn in H. rewrite lookup_empty in H. discriminate. }
  assert (Hcount : countsAgree st.1)
    by (apply countsAgree_calls, countsAgree_blank).
  destruct Hsync as (rc' & Hrelay & Hinv). exists rc'. split; [exact Hrelay|].
  split; [|split].
  - intros channelId [channel Hch]. unfold getById in Hch.
    destruct (Hcount channelId channel Hch) as (members & Hm & _).
    unfold RelayClient.getChannelSubscribers, getMembers.
    now rewrite Hm, (Hinv channelId members Hm).
  - intros channelId agentId _ _. split.
    + unfold RelayClient.getChannelSubscribers, RelayClient.unsubscribeFromChannel.
      destruct (RelayClient.subscriptions rc' !! channelId) as [subs|] eqn:Hsubs.
      * cbn. rewrite lookup_insert_eq. cbn.
        rewrite elem_of_elements, elem_of_difference, elem_of_singleton. tauto.
      * rewrite Hsubs. cbn. rewrite elements_empty. apply not_elem_of_nil.
    + intros h connectionId Hconn Hclosed.
      now apply (handleDisconnect_unsubscribes rc' connectionId agentId channelId h).
  - intros channelId agentId _ _.
    unfold RelayClient.getChannelSubscribers, RelayClient.subscribeToChannel.
    cbn. rewrite lookup_insert_eq. cbn.
    rewrite elem_of_elements, elem_of_union, elem_of_singleton. now left.
Qed.

(** A relay on which [Worker2] is registered with a socket that has
    closed. *)
Definition strandedRelay : RelayClient.t :=
  RelayClient.set_sockets
    (RelayClient.registerConnection RelayClient.empty "Worker2" 2)
    {[ 2%nat := {| RelayClient.readyState := RelayClient.CLOSED;
                   RelayClient.sentFrames := [] |} ]}.

Lemma subscriptions_follow_membership_witness :
  freshCreates (blank "p", Some strandedRelay) sampleCalls /\
  exists rc',
    (foldl perform (blank "p", Some strandedRelay) sampleCalls).2 = Some rc' /\
    RelayClient.getChannelSubscribers rc' generalId = ["Worker2"] /\
    getMembers (foldl perform (blank "p", Some strandedRelay) sampleCalls).1
      generalId = ["Worker2"] /\
    "Worker2" ∉ RelayClient.getChannelSubscribers
                  (RelayClient.handleDisconnect rc' "conn-2").2 generalId.
Proof.
  assert (Hfresh : freshCreates (blank "p", Some strandedRelay) sampleCalls)
    by (cbn; repeat split; reflexivity).
  split; [exact Hfresh|].
  destruct (subscriptions_follow_membership "p" strandedRelay sampleCalls Hfresh)
    as (rc' & Hrelay & Hsame & Hout & _).
  assert (Hstored : is_Some (getById (foldl perform (blank "p", Some strandedRelay)
                                        sampleCalls).1 generalId))
    by (eexists; reflexivity).
  assert (Hmembers : getMembers (foldl perform (blank "p", Some strandedRelay)
                                   sampleCalls).1 generalId = ["Worker2"])
    by reflexivity.
  exists rc'. split; [exact Hrelay|].
  split; [rewrite (Hsame generalId Hstored); exact Hmembers|].
  split; [exact Hmembers|].
  apply (proj2 (Hout generalId "Worker2" Hstored
                  ltac:(rewrite Hmembers; left)) 2%nat "conn-2").
  - injection Hrelay as <-. reflexivity.
  - injection Hrelay as <-. reflexivity.
Defined.

End ServiceAndRelay.

(** ** MessageService: storage, delivery, deletion, listings *)

Section MessageLifecycle.
Import Models MessageService.

Variable hmacSha256 : string -> string -> string.
Variable getTime : string -> Z.

(** The way a message of a given target type is pushed. *)
Definition route (targetType : TargetType) (targetId : string) : Push :=
  match targetType with
  | target_channel => toChannel targetId
  | target_agent => toAgent targetId
  | target_broadcast => toAll
  end.

Lemma push_nobody (rc : RelayClient.t) (how : Push) (frame : WSMessage) :
  (forall a, a ∈ recipients rc how -> RelayClient.connections rc !! a = None) ->
  push rc how frame = rc.
Proof.
  intros Hnone.
  assert (Hskip : forall agents rc0,
             (forall a, a ∈ agents -> RelayClient.connections rc0 !! a = None) ->
             foldl (fun r a => RelayClient.sendToAgent r a frame) rc0 agents = rc0).
  { induction agents as [|a agents IH]; intros rc0 Hn; [reflexivity|].
    cbn [foldl].
    assert (Ha : RelayClient.sendToAgent rc0 a frame = rc0).
    { unfold RelayClient.sendToAgent. rewrite (Hn a); [reflexivity | left]. }
    rewrite Ha. apply IH. intros b Hb. apply Hn. now right. }
  destruct how as [agentId|channelId|]; cbn [push recipients] in *.
  - unfold RelayClient.sendToAgent. rewrite (Hnone agentId); [reflexivity | left].
  - unfold RelayClient.broadcastToChannel, RelayClient.getChannelSubscribers in *.
    destruct (RelayClient.subscriptions rc !! channelId) as [subs|]; [|reflexivity].
    apply Hskip. exact Hnone.
  - unfold RelayClient.broadcast. apply Hskip. exact Hnone.
Qed.

(** A send that is not refused returns a message with id ["msg-"+uuid]
    and status [sent], stores it under its id without touching any
    other message, and appends its id to the index of the target
    channel when the target is a channel and to the index of its
    thread when it has a non-empty thread id; no other index entry
    changes.  Only a channel target with a channel service attached is
    checked at all: direct messages, broadcasts, and every send of a
    service built without a channel service go through. *)
Theorem send_stores_and_indexes (svc : MessageService.t)
    (cs : option ChannelService.t) (relay : option RelayClient.t)
    (input : MessageSendInput) (sender uuid now : string) (nowMs : Z) :
  (in_targetType input = target_channel ->
   forall c, cs = Some c ->
     ChannelService.checkAccess c (in_targetId input) sender WRITE = true) ->
  exists m svc' relay',
    send hmacSha256 svc cs relay input sender uuid now nowMs
    = (Returned m, svc', relay') /\
    msg_id m = "msg-" +:+ uuid /\
    senderId m = sender /\
    targetId m = in_targetId input /\
    targetType m = in_targetType input /\
    sentAt m = now /\
    deliveryStatus m = SENT /\
    editedAt m = None /\
    deletedAt m = None /\
    getById svc' (msg_id m) = Some m /\
    (forall other, other <> msg_id m -> getById svc' other = getById svc other) /\
    (in_targetType input = target_channel ->
     channelMessages svc' !! in_targetId input
     = Some (default [] (channelMessages svc !! in_targetId input) ++ [msg_id m])) /\
    (forall c, in_targetType input <> target_channel \/ c <> in_targetId input ->
     channelMessages svc' !! c = channelMessages svc !! c) /\
    (forall thread, in_threadId input = Some thread -> thread <> "" ->
     threadMessages svc' !! thread
     = Some (default [] (threadMessages svc !! thread) ++ [msg_id m])) /\
    (forall thread, in_threadId input <> Some thread \/ thread = "" ->
     threadMessages svc' !! thread = threadMessages svc !! thread).
Proof.
  intros Hallowed. unfold send.
  assert (Hpass :
    match in_targetType input, cs with
    | target_channel, Some c =>
        negb (ChannelService.checkAccess c (in_targetId input) sender WRITE)
    | _, _ => false
    end = false).
  { destruct (in_targetType input) eqn:Ht; try reflexivity.
    destruct cs as [c|]; [|reflexivity].
    now rewrite (Hallowed eq_refl c eq_refl). }
  rewrite Hpass. do 3 eexists. split; [reflexivity|].
  cbn [msg_id senderId targetId targetType sentAt deliveryStatus editedAt
       deletedAt getById messages channelMessages threadMessages].
  repeat match goal with |- _ /\ _ => split end; try reflexivity.
  - apply lookup_insert_eq.
  - intros other Hother. apply lookup_insert_ne. congruence.
  - intros ->. unfold pushIndex. apply lookup_insert_eq.
  - intros c [Hne|Hne].
    + destruct (in_targetType input); try reflexivity. congruence.
    + destruct (in_targetType input); try reflexivity.
      unfold pushIndex. apply lookup_insert_ne. congruence.
  - intros thread -> Hne. apply String.eqb_neq in Hne. rewrite Hne.
    unfold pushIndex. apply lookup_insert_eq.
  - intros thread Hcase. destruct (in_threadId input) as [t0|]; [|reflexivity].
    destruct (String.eqb t0 "") eqn:Hempty; [reflexivity|].
    unfold pushIndex. apply lookup_insert_ne.
    destruct Hcase as [Hne| ->]; [congruence|].
    intros ->. now rewrite String.eqb_refl in Hempty.
Qed.

Lemma send_relay (svc svc' : MessageService.t) (cs : option ChannelService.t)
    (relay relay' : option RelayClient.t) (input : MessageSendInput)
    (sender uuid now : string) (nowMs : Z) (m : Message) :
  send hmacSha256 svc cs relay input sender uuid now nowMs
  = (Returned m, svc', relay') ->
  relay' = broadcastMessage relay m nowMs /\
  messages svc' !! msg_id m = Some m.
Proof.
  unfold send. intros H.
  destruct (match in_targetType input with
            | target_channel => _ | _ => _ end); [discriminate|].
  injection H as <- <- <-. split; [reflexivity|].
  cbn [messages msg_id]. apply lookup_insert_eq.
Qed.

(** The frame a send pushes. *)
Definition messageFrame (m : Message) (nowMs : Z) : WSMessage :=
  {| ws_type := ws_message; ws_event_name := None; ws_data := data_message m;
     ws_timestamp := nowMs; ws_correlationId := None |}.

(** A send that returns pushes the message once, at that moment: to
    the open sockets of the subscribers of the target channel (the
    sender among them when subscribed), of the one target agent, or of
    every registered agent, by target type.  Agents that are not
    reachable then get nothing, and nothing is kept to deliver later;
    when no addressee is registered the relay is unchanged, and the
    message is stored with status [sent] all the same. *)
Theorem send_delivery (svc svc' : MessageService.t)
    (cs : option ChannelService.t) (rc : RelayClient.t)
    (relay' : option RelayClient.t)
    (input : MessageSendInput) (sender uuid now : string) (nowMs : Z)
    (m : Message) :
  send hmacSha256 svc cs (Some rc) input sender uuid now nowMs
  = (Returned m, svc', relay') ->
  let how := route (targetType m) (targetId m) in
  exists rc',
    relay' = Some rc' /\
    RelayClient.connections rc' = RelayClient.connections rc /\
    RelayClient.subscriptions rc' = RelayClient.subscriptions rc /\
    (forall h,
        RelayClient.sockets rc' !! h
        = received (messageFrame m nowMs) (boundTo rc h (recipients rc how))
            <$> RelayClient.sockets rc !! h) /\
    ((forall a, a ∈ recipients rc how -> RelayClient.connections rc !! a = None) ->
     rc' = rc /\ deliveryStatus <$> getById svc' (msg_id m) = Some SENT).
Proof.
  intros Hsend how.
  destruct (send_relay _ _ _ _ _ _ _ _ _ _ _ Hsend) as (-> & Hstored).
  exists (push rc how (messageFrame m nowMs)).
  split.
  { cbn [broadcastMessage]. f_equal. subst how.
    destruct (targetType m); reflexivity. }
  destruct (push_effect rc how (messageFrame m nowMs)) as (Hc & Hs & Hk).
  split; [exact Hc|]. split; [exact Hs|]. split; [exact Hk|].
  intros Hnone. split; [now apply push_nobody|].
  unfold getById. rewrite Hstored. cbn.
  now destruct (send_returns _ _ _ _ _ _ _ _ _ _ _ _ Hsend) as (_ & _ & _ & _ & _ & ->).
Qed.

(** *** Deletion *)

Lemma delete_returns (svc : MessageService.t) (relay : option RelayClient.t)
    (messageId deleterId now : string) (nowMs : Z) (m : Message) :
  messages svc !! messageId = Some m ->
  senderId m = deleterId ->
  exists m',
    (delete svc relay messageId deleterId now nowMs).1
    = (Returned true,
       set_messages svc (<[messageId := m']> (messages svc))) /\
    deletedAt m' = Some now /\
    msg_id m' = msg_id m /\ senderId m' = senderId m /\
    content m' = content m /\ sentAt m' = sentAt m /\
    signature m' = signature m /\
    deliveryStatus m' = deliveryStatus m /\
    targetId m' = targetId m /\ targetType m' = targetType m /\
    threadId m' = threadId m /\ editedAt m' = editedAt m.
Proof.
  intros Hm Hsender. unfold delete. rewrite Hm, Hsender, String.eqb_refl.
  cbn [negb fst]. eexists. split; [reflexivity|]. repeat split.
Qed.

Lemma listed_live (svc : MessageService.t) (ids : list string) (m : Message) :
  m ∈ filter (fun m => truthy (deletedAt m) = false)
        (omap (fun id => messages svc !! id) ids) ->
  truthy (deletedAt m) = false /\
  exists id, id ∈ ids /\ messages svc !! id = Some m.
Proof.
  intros Hin. apply list_elem_of_filter in Hin as [Hlive Hin].
  apply list_elem_of_omap in Hin. now split.
Qed.

Lemma insertBy_elem {A : Type} (compare : A -> A -> Z) (x y : A) (l : list A) :
  y ∈ insertBy compare x l <-> y = x \/ y ∈ l.
Proof.
  induction l as [|z l IH]; cbn.
  - rewrite list_elem_of_singleton, elem_of_nil. tauto.
  - destruct (compare x z <=? 0).
    + now rewrite elem_of_cons.
    + rewrite !elem_of_cons, IH. tauto.
Qed.

Lemma sort_elem {A : Type} (compare : A -> A -> Z) (y : A) (l : list A) :
  y ∈ MessageService.sort compare l <-> y ∈ l.
Proof.
  induction l as [|x l IH]; cbn; [reflexivity|].
  now rewrite insertBy_elem, elem_of_cons, IH.
Qed.

Lemma insertBy_Permutation {A : Type} (compare : A -> A -> Z) (x : A)
    (l : list A) :
  insertBy compare x l ≡ₚ x :: l.
Proof.
  induction l as [|z l IH]; cbn; [reflexivity|].
  destruct (compare x z <=? 0); [reflexivity|].
  rewrite IH. apply Permutation_swap.
Qed.

Lemma sort_Permutation {A : Type} (compare : A -> A -> Z) (l : list A) :
  MessageService.sort compare l ≡ₚ l.
Proof.
  induction l as [|x l IH]; cbn; [reflexivity|].
  now rewrite insertBy_Permutation, IH.
Qed.

(** Every element stands in [R] to all the elements after it. *)
Fixpoint ordered {A : Type} (R : A -> A -> Prop) (l : list A) : Prop :=
  match l with
  | [] => True
  | x :: rest => (forall y, y ∈ rest -> R x y) /\ ordered R rest
  end.

Section Ordering.

Context {A : Type} (compare : A -> A -> Z) (R : A -> A -> Prop).
Hypothesis compare_le : forall a b, compare a b <= 0 -> R a b.
Hypothesis compare_gt : forall a b, 0 < compare a b -> R b a.
Hypothesis R_trans : forall a b c, R a b -> R b c -> R a c.

Lemma insertBy_ordered (x : A) (l : list A) :
  ordered R l -> ordered R (insertBy compare x l).
Proof.
  induction l as [|z l IH]; cbn; [intros _; split; [|exact I]|].
  - intros y Hy. now apply elem_of_nil in Hy.
  - intros [Hz Hl]. destruct (compare x z <=? 0) eqn:Hcmp; cbn.
    + apply Z.leb_le in Hcmp. split; [|split; assumption].
      intros y Hy. apply elem_of_cons in Hy as [->|Hy].
      * now apply compare_le.
      * apply R_trans with z; [now apply compare_le | now apply Hz].
    + apply Z.leb_gt in Hcmp. split; [|now apply IH].
      intros y Hy. apply insertBy_elem in Hy as [->|Hy].
      * now apply compare_gt.
      * now apply Hz.
Qed.

Lemma sort_ordered (l : list A) : ordered R (MessageService.sort compare l).
Proof.
  induction l as [|x l IH]; cbn; [exact I|]. now apply insertBy_ordered.
Qed.

End Ordering.

Lemma ordered_sublist {A : Type} (R : A -> A -> Prop) (l1 l2 : list A) :
  l1 `sublist_of` l2 -> ordered R l2 -> ordered R l1.
Proof.
  induction 1 as [|x l1 l2 Hsub IH|x l1 l2 Hsub IH]; cbn.
  - trivial.
  - intros [Hx Hl]. split; [|now apply IH].
    intros y Hy. apply Hx. now apply (elem_of_sublist l1).
  - intros [_ Hl]. now apply IH.
Qed.

Lemma ordered_lookup {A : Type} (R : A -> A -> Prop) (l : list A) :
  ordered R l ->
  forall i j x y, (i < j)%nat -> l !! i = Some x -> l !! j = Some y -> R x y.
Proof.
  induction l as [|z l IH]; intros Hord i j x y Hij Hi Hj; [discriminate|].
  destruct Hord as [Hz Hl]. destruct j as [|j]; [lia|].
  destruct i as [|i]; cbn in Hi, Hj.
  - injection Hi as <-. apply Hz. now apply list_elem_of_lookup_2 in Hj.
  - apply (IH Hl i j); [lia | assumption | assumption].
Qed.

Lemma slice_sublist {A : Type} (l : list A) (end_ : Z) :
  slice l end_ `sublist_of` l.
Proof. unfold slice. destruct (end_ <? 0); apply sublist_take. Qed.

Lemma slice_length {A : Type} (l : list A) (end_ : Z) :
  0 <= end_ -> (Z.of_nat (length (slice l end_)) <= end_).
Proof.
  intros Hend. unfold slice.
  replace (end_ <? 0) with false by (symmetry; lia).
  rewrite length_take. lia.
Qed.

Lemma getChannelMessages_live (svc : MessageService.t) (channelId : string)
    (limit : option Z) (before : option string) (m : Message) :
  m ∈ getChannelMessages getTime svc channelId limit before ->
  truthy (deletedAt m) = false /\
  exists id, id ∈ default [] (channelMessages svc !! channelId) /\
             messages svc !! id = Some m.
Proof.
  unfold getChannelMessages. intros Hm.
  apply listed_live.
  apply (sort_elem (fun a b => getTime (sentAt b) - getTime (sentAt a))).
  eapply elem_of_sublist in Hm; [|apply slice_sublist].
  destruct (truthy before); [|exact Hm].
  destruct (messages svc !! default "" before); [|exact Hm].
  now apply list_elem_of_filter in Hm as [_ Hm].
Qed.

(** The cut of a channel listing at the [before] cursor. *)
Definition cursor (svc : MessageService.t) (before : option string)
    : option Message :=
  if truthy before then messages svc !! default "" before else None.

(** A channel listing holds only stored, undeleted messages whose id is
    in the index of that channel, newest first, at most [limit] of them
    (50 when no limit is given) for a limit that is not negative, and,
    when the cursor names a stored message, only messages sent strictly
    before that one.  A thread listing holds exactly the stored,
    undeleted messages whose id is in the index of the thread, each as
    often as it is indexed, oldest first. *)
Theorem message_listings (svc : MessageService.t) (key : string)
    (limit : option Z) (before : option string) :
  let inChannel := getChannelMessages getTime svc key limit before in
  let inThread := getThreadMessages getTime svc key in
  ((forall m, m ∈ inChannel ->
      truthy (deletedAt m) = false /\
      (exists id, id ∈ default [] (channelMessages svc !! key) /\
                  getById svc id = Some m) /\
      (forall c, cursor svc before = Some c ->
                 getTime (sentAt m) < getTime (sentAt c))) /\
   (forall i j x y, (i < j)%nat ->
      inChannel !! i = Some x -> inChannel !! j = Some y ->
      getTime (sentAt y) <= getTime (sentAt x)) /\
   (0 <= default 50 limit -> Z.of_nat (length inChannel) <= default 50 limit)) /\
  (inThread ≡ₚ filter (fun m => truthy (deletedAt m) = false)
                 (omap (getById svc) (default [] (threadMessages svc !! key))) /\
   (forall m, m ∈ inThread <->
      truthy (deletedAt m) = false /\
      exists id, id ∈ default [] (threadMessages svc !! key) /\
                 getById svc id = Some m) /\
   (forall i j x y, (i < j)%nat ->
      inThread !! i = Some x -> inThread !! j = Some y ->
      getTime (sentAt x) <= getTime (sentAt y))).
Proof.
  intros inChannel inThread. split.
  - subst inChannel inThread.
    assert (Hlive := getChannelMessages_live svc key limit before).
    unfold getChannelMessages, cursor in *.
    set (live := filter _ (omap _ _)) in *.
    set (sorted := MessageService.sort _ live) in *.
    set (cut := if truthy before then _ else _) in *.
    assert (Hsub : cut `sublist_of` sorted).
    { subst cut. destruct (truthy before); [|reflexivity].
      destruct (messages svc !! default "" before); [|reflexivity].
      apply sublist_filter. }
    assert (Hord : ordered (fun a b => getTime (sentAt b) <= getTime (sentAt a))
                     sorted).
    { apply sort_ordered; intros; lia. }
    split; [|split].
    + intros m Hm.
      assert (Hcut : m ∈ cut)
        by (eapply elem_of_sublist; [exact Hm | apply slice_sublist]).
      destruct (Hlive m Hm) as [Hundeleted Hid].
      split; [exact Hundeleted|]. split; [exact Hid|].
      intros c Hc. subst cut. destruct (truthy before); [|discriminate].
      rewrite Hc in Hcut. now apply list_elem_of_filter in Hcut as [Hlt _].
    + apply (ordered_lookup (fun a b => getTime (sentAt b) <= getTime (sentAt a))).
      eapply ordered_sublist; [apply slice_sublist|].
      eapply ordered_sublist; [exact Hsub | exact Hord].
    + apply slice_length.
  - subst inChannel inThread. unfold getThreadMessages.
    split; [apply sort_Permutation|]. split.
    + intros m. rewrite sort_elem. split; [apply listed_live|].
      intros [Hlive Hid]. apply list_elem_of_filter. split; [exact Hlive|].
      now apply list_elem_of_omap.
    + apply (ordered_lookup (fun a b => getTime (sentAt a) <= getTime (sentAt b))).
      apply sort_ordered; intros; lia.
Qed.

(** Deletion is soft.  After a delete by the sender the message is
    still returned by [getById], with [deletedAt] set and every other
    field, the signature among them, as before, so it verifies exactly
    when it did; the indexes are unchanged; but no channel listing and
    no thread listing returns it any more. *)
Theorem delete_is_soft (svc : MessageService.t) (relay : option RelayClient.t)
    (messageId deleterId now : string) (nowMs : Z) (m : Message) :
  getById svc messageId = Some m ->
  senderId m = deleterId ->
  now <> "" ->
  let done := delete svc relay messageId deleterId now nowMs in
  done.1.1 = Returned true /\
  channelMessages done.1.2 = channelMessages svc /\
  threadMessages done.1.2 = threadMessages svc /\
  exists m',
    getById done.1.2 messageId = Some m' /\
    deletedAt m' = Some now /\
    content m' = content m /\
    deliveryStatus m' = deliveryStatus m /\
    verifySignature hmacSha256 done.1.2 m' = verifySignature hmacSha256 svc m /\
    (forall channelId limit before,
        m' ∉ getChannelMessages getTime done.1.2 channelId limit before) /\
    (forall threadId, m' ∉ getThreadMessages getTime done.1.2 threadId).
Proof.
  intros Hm Hsender Hnow done.
  destruct (delete_returns svc relay messageId deleterId now nowMs m Hm Hsender)
    as (m' & Hdone & Hdel & Hid & Hsnd & Hcontent & Hsent & Hsig & Hstatus & _).
  fold done in Hdone.
  assert (H1 : done.1.1 = Returned true) by now rewrite Hdone.
  assert (H2 : done.1.2 = set_messages svc (<[messageId := m']> (messages svc)))
    by now rewrite Hdone.
  split; [exact H1|]. rewrite H2. split; [reflexivity|]. split; [reflexivity|].
  exists m'. split; [apply lookup_insert_eq|]. split; [exact Hdel|].
  split; [exact Hcontent|]. split; [exact Hstatus|].
  assert (Hdead : truthy (deletedAt m') = true).
  { rewrite Hdel. cbn. apply negb_true_iff. now apply String.eqb_neq. }
  split; [|split].
  - unfold verifySignature, signMessage. cbn [signingKey set_messages].
    now rewrite Hid, Hsnd, Hcontent, Hsent, Hsig.
  - intros channelId limit before Hin.
    apply getChannelMessages_live in Hin as [Hlive _]. congruence.
  - intros threadId Hin. unfold getThreadMessages in Hin.
    apply sort_elem, listed_live in Hin as [Hlive _]. congruence.
Qed.

(** *** Sending, then listing *)

Lemma slice_all {A : Type} (l : list A) (end_ : Z) :
  Z.of_nat (length l) <= end_ -> slice l end_ = l.
Proof.
  intros Hlen. unfold slice.
  replace (end_ <? 0) with false by (symmetry; lia).
  apply take_ge. lia.
Qed.

Lemma omap_length {A B : Type} (f : A -> option B) (l : list A) :
  (length (omap f l) <= length l)%nat.
Proof.
  induction l as [|x l IH]; cbn; [lia|]. destruct (f x); cbn; lia.
Qed.

(** A message that was just sent is in the listing of its thread, and
    in the listing of its channel whenever the limit (50 by default) is
    not below the length of the channel's index. *)
Theorem sent_message_listed (svc svc' : MessageService.t)
    (cs : option ChannelService.t) (relay relay' : option RelayClient.t)
    (input : MessageSendInput) (sender uuid now : string) (nowMs : Z)
    (m : Message) :
  send hmacSha256 svc cs relay input sender uuid now nowMs
  = (Returned m, svc', relay') ->
  (forall thread, threadId m = Some thread -> thread <> "" ->
     m ∈ getThreadMessages getTime svc' thread) /\
  (forall limit,
     targetType m = target_channel ->
     Z.of_nat (length (default [] (channelMessages svc' !! targetId m)))
       <= default 50 limit ->
     m ∈ getChannelMessages getTime svc' (targetId m) limit None).
Proof.
  intros Hsend.
  destruct (send_relay _ _ _ _ _ _ _ _ _ _ _ Hsend) as (_ & Hstored).
  assert (Hshape :
    deletedAt m = None /\
    (forall thread, threadId m = Some thread -> thread <> "" ->
       msg_id m ∈ default [] (threadMessages svc' !! thread)) /\
    (targetType m = target_channel ->
       msg_id m ∈ default [] (channelMessages svc' !! targetId m))).
  { revert Hsend. unfold send.
    destruct (match in_targetType input with
              | target_channel => _ | _ => _ end); [discriminate|].
    intros H. injection H as <- <- _.
    cbn [deletedAt threadId targetType targetId msg_id threadMessages
         channelMessages].
    split; [reflexivity|]. split.
    - intros thread -> Hne. apply String.eqb_neq in Hne. rewrite Hne.
      unfold pushIndex. rewrite lookup_insert_eq. cbn.
      apply elem_of_app. right. left.
    - intros ->. unfold pushIndex. rewrite lookup_insert_eq. cbn.
      apply elem_of_app. right. left. }
  destruct Hshape as (Hlive & Hthread & Hchannel).
  assert (Hin : forall ids : list string, msg_id m ∈ ids ->
            m ∈ filter (fun m => truthy (deletedAt m) = false)
                  (omap (fun id => messages svc' !! id) ids)).
  { intros ids Hid. apply list_elem_of_filter. split; [now rewrite Hlive|].
    apply list_elem_of_omap. now exists (msg_id m). }
  split.
  - intros thread Ht Hne. unfold getThreadMessages.
    apply sort_elem, Hin. now apply Hthread.
  - intros limit Ht Hlen. unfold getChannelMessages. cbn [truthy].
    rewrite slice_all.
    + apply sort_elem, Hin. now apply Hchannel.
    + etransitivity; [|exact Hlen]. apply Nat2Z.inj_le.
      rewrite (Permutation_length (sort_Permutation _ _)).
      etransitivity; [apply length_filter | apply omap_length].
Qed.

(** *** Announcing edits and deletions *)

(** Where the event of an edit or a deletion goes: the target id of
    the message is read as a channel id, whatever the target type. *)
Definition eventRoute (targetId : string) : Push :=
  if String.eqb targetId "" then toAll else toChannel targetId.

Lemma emitRelayEvent_push (rc : RelayClient.t) (event : RelayEvent)
    (target : string) :
  ev_target event = Some target ->
  exists frame,
    ws_type frame = ws_event /\
    ws_data frame = data_relayEvent event /\
    RelayClient.emitRelayEvent rc event = push rc (eventRoute target) frame.
Proof.
  intros Ht. unfold RelayClient.emitRelayEvent, eventRoute. rewrite Ht.
  eexists. split; [|split]; [| |destruct (String.eqb target ""); reflexivity];
    reflexivity.
Qed.

(** The event of a successful edit or deletion is pushed to the
    subscribers of the channel named by the target id of the message,
    whatever its target type (to every registered agent when that id is
    empty).  For a direct message the target id is an agent id: unless
    a subscription set exists under that id nobody is told, the
    recipient included, and the relay is left as it was. *)
Theorem change_events_follow_subscriptions (svc : MessageService.t)
    (rc : RelayClient.t) (messageId newText actor now : string) (nowMs : Z)
    (m : Message) :
  getById svc messageId = Some m ->
  senderId m = actor ->
  let how := eventRoute (targetId m) in
  forall relay',
    relay' = (edit hmacSha256 svc (Some rc) messageId newText actor now nowMs).2
    \/ relay' = (delete svc (Some rc) messageId actor now nowMs).2 ->
    exists rc' frame,
      relay' = Some rc' /\
      ws_type frame = ws_event /\
      RelayClient.connections rc' = RelayClient.connections rc /\
      RelayClient.subscriptions rc' = RelayClient.subscriptions rc /\
      (forall h,
          RelayClient.sockets rc' !! h
          = received frame (boundTo rc h (recipients rc how))
              <$> RelayClient.sockets rc !! h) /\
      (targetId m <> "" ->
       RelayClient.subscriptions rc !! targetId m = None ->
       rc' = rc).
Proof.
  intros Hm Hsender how relay' Hcase.
  assert (Hpushed : exists frame,
             ws_type frame = ws_event /\ relay' = Some (push rc how frame)).
  { destruct Hcase as [-> | ->].
    - unfold edit. unfold getById in Hm. rewrite Hm, Hsender, String.eqb_refl.
      cbn [negb snd fmap option_fmap option_map].
      match goal with |- context [RelayClient.emitRelayEvent rc ?e] =>
        destruct (emitRelayEvent_push rc e (targetId m) eq_refl)
          as (frame & Htype & _ & ->)
      end.
      now exists frame.
    - unfold delete. unfold getById in Hm. rewrite Hm, Hsender, String.eqb_refl.
      cbn [negb snd fmap option_fmap option_map].
      match goal with |- context [RelayClient.emitRelayEvent rc ?e] =>
        destruct (emitRelayEvent_push rc e (targetId m) eq_refl)
          as (frame & Htype & _ & ->)
      end.
      now exists frame. }
  destruct Hpushed as (frame & Htype & ->).
  exists (push rc how frame), frame.
  destruct (push_effect rc how frame) as (Hc & Hs & Hk).
  split; [reflexivity|]. split; [exact Htype|]. split; [exact Hc|].
  split; [exact Hs|]. split; [exact Hk|].
  intros Hne Hnone. subst how. unfold eventRoute.
  apply String.eqb_neq in Hne. rewrite Hne. cbn [push].
  unfold RelayClient.broadcastToChannel. now rewrite Hnone.
Qed.

(** *** Read receipts *)

(** [markRead] sets the status of a stored message to [read] from any
    status, also from [pending] or [failed], and touches nothing else;
    once a message is read, [markDelivered] and a repeated [markRead]
    change nothing, so the status never goes back. *)
Theorem read_is_final (svc : MessageService.t)
    (messageId reader other : string) (m : Message) :
  getById svc messageId = Some m ->
  let svc1 := markRead svc messageId reader in
  getById svc1 messageId = Some (set_deliveryStatus m READ_) /\
  (forall id, id <> messageId -> getById svc1 id = getById svc id) /\
  channelMessages svc1 = channelMessages svc /\
  threadMessages svc1 = threadMessages svc /\
  markDelivered svc1 messageId other = svc1 /\
  markRead svc1 messageId other = svc1.
Proof.
  intros Hm svc1. subst svc1. unfold getById in *. unfold markRead. rewrite Hm.
  cbn [messages set_messages].
  split; [apply lookup_insert_eq|].
  split; [intros id Hid; apply lookup_insert_ne; congruence|].
  split; [reflexivity|]. split; [reflexivity|].
  split.
  - unfold markDelivered. cbn [messages set_messages].
    now rewrite lookup_insert_eq.
  - cbn [messages set_messages]. rewrite lookup_insert_eq.
    unfold set_messages. cbn. now rewrite insert_insert_eq.
Qed.

(** *** Editing what was deleted *)

(** Neither [edit] nor [delete] looks at [deletedAt]: the sender can
    still edit a message after deleting it (the text changes, the
    message stays deleted), and deleting again succeeds and overwrites
    the time of deletion. *)
Theorem deleted_message_still_editable (svc : MessageService.t)
    (relay : option RelayClient.t)
    (messageId actor deleted later newText : string) (nowMs laterMs : Z)
    (m : Message) :
  getById svc messageId = Some m ->
  senderId m = actor ->
  let gone := delete svc relay messageId actor deleted nowMs in
  let edited :=
    edit hmacSha256 gone.1.2 gone.2 messageId newText actor later laterMs in
  let again := delete gone.1.2 gone.2 messageId actor later laterMs in
  edited.1.1 = Returned true /\
  (exists m', getById edited.1.2 messageId = Some m' /\
              text (content m') = newText /\
              deletedAt m' = Some deleted /\
              editedAt m' = Some later) /\
  again.1.1 = Returned true /\
  (exists m', getById again.1.2 messageId = Some m' /\
              deletedAt m' = Some later).
Proof.
  intros Hm Hsender gone edited again.
  destruct (delete_returns svc relay messageId actor deleted nowMs m Hm Hsender)
    as (m1 & Hgone & Hdel & _ & Hsnd & _).
  fold gone in Hgone.
  assert (Hsvc : gone.1.2 = set_messages svc (<[messageId := m1]> (messages svc)))
    by now rewrite Hgone.
  assert (Hm1 : messages gone.1.2 !! messageId = Some m1)
    by (rewrite Hsvc; apply lookup_insert_eq).
  assert (Hs1 : senderId m1 = actor) by congruence.
  split; [|split; [|split]].
  - subst edited. unfold edit. now rewrite Hm1, Hs1, String.eqb_refl.
  - subst edited. unfold edit. rewrite Hm1, Hs1, String.eqb_refl.
    cbn [negb fst snd]. eexists. unfold getById. cbn [messages set_messages].
    rewrite lookup_insert_eq. split; [reflexivity|]. cbn. now rewrite Hdel.
  - subst again. unfold delete. now rewrite Hm1, Hs1, String.eqb_refl.
  - subst again. unfold delete. rewrite Hm1, Hs1, String.eqb_refl.
    cbn [negb fst snd]. eexists. unfold getById. cbn [messages set_messages].
    rewrite lookup_insert_eq. split; reflexivity.
Qed.

(** *** Mentions *)

Fixpoint allWord (s : string) : bool :=
  match s with
  | EmptyString => true
  | String c rest => isWordChar c && allWord rest
  end.

(** The text stops, or goes on with a character that is not a word
    character. *)
Definition endsWord (s : string) : Prop :=
  match s with
  | EmptyString => True
  | String c _ => isWordChar c = false
  end.

(** [m] is the mention of a maximal run [@name] of the text: an [@],
    then one or more word characters, followed by no further word
    character; [startIndex] is the index of the [@] and [length]
    counts the [@] and the name. *)
Definition mentionAt (text : string) (m : MessageMention) : Prop :=
  exists a name b,
    text = a +:+ String "@" (name +:+ b) /\
    name <> "" /\ allWord name = true /\ endsWord b /\
    m = mentionOf (String.length a) name.

Lemma string_app_snoc (a : string) (c : ascii) (b : string) :
  (a +:+ String c "") +:+ b = a +:+ String c b.
Proof. now rewrite string_app_assoc, string_app_cons, string_app_nil_l. Qed.

Lemma string_length_snoc (a : string) (c : ascii) :
  String.length (a +:+ String c "") = S (String.length a).
Proof. rewrite string_app_length. cbn. lia. Qed.

Lemma string_app_same_length (a b s t : string) :
  a +:+ s = b +:+ t -> String.length a = String.length b -> a = b /\ s = t.
Proof.
  revert b. induction a as [|x a IH]; intros [|y b] Heq Hlen;
    try discriminate Hlen.
  - now rewrite !string_app_nil_l in Heq.
  - rewrite !string_app_cons in Heq. injection Heq as -> Heq.
    injection Hlen as Hlen. destruct (IH b Heq Hlen) as [-> ->]. now split.
Qed.

Lemma rev_app_spec (s acc : string) :
  String.rev_app s acc = String.rev s +:+ acc.
Proof.
  revert acc. induction s as [|c s IH]; intros acc.
  - cbn. now rewrite string_app_nil_l.
  - unfold String.rev. cbn. rewrite (IH (String c acc)), (IH (String c "")).
    now rewrite string_app_snoc.
Qed.

Lemma rev_cons (c : ascii) (s : string) :
  String.rev (String c s) = String.rev s +:+ String c "".
Proof. unfold String.rev at 1. cbn. apply rev_app_spec. Qed.

Lemma allWord_app (a b : string) :
  allWord (a +:+ b) = allWord a && allWord b.
Proof.
  induction a as [|c a IH].
  - now rewrite string_app_nil_l.
  - rewrite string_app_cons. cbn. now rewrite IH, andb_assoc.
Qed.

Lemma allWord_rev (s : string) : allWord (String.rev s) = allWord s.
Proof.
  induction s as [|c s IH]; [reflexivity|].
  rewrite rev_cons, allWord_app, IH. cbn. now rewrite andb_true_r, andb_comm.
Qed.

Lemma rev_length (s : string) : String.length (String.rev s) = String.length s.
Proof.
  induction s as [|c s IH]; [reflexivity|].
  rewrite rev_cons, string_length_snoc, IH. reflexivity.
Qed.

Lemma rev_nonempty (c : ascii) (s : string) : String.rev (String c s) <> "".
Proof.
  intros H. apply (f_equal String.length) in H. rewrite rev_length in H.
  discriminate H.
Qed.

Lemma isAt_spec (c : ascii) : isAt c = true <-> c = "@"%char.
Proof.
  unfold isAt. rewrite Nat.eqb_eq. split.
  - intros H. rewrite <- (ascii_nat_embedding c), H. reflexivity.
  - now intros ->.
Qed.

(** Two runs of word characters that end at the same place of the
    same text are the same run. *)
Lemma word_run_unique (u v x y : string) :
  u +:+ x = v +:+ y -> allWord u = true -> allWord v = true ->
  endsWord x -> endsWord y -> u = v /\ x = y.
Proof.
  revert v. induction u as [|c u IH]; intros [|d v] Heq Hu Hv Hx Hy.
  - now rewrite !string_app_nil_l in Heq.
  - rewrite string_app_nil_l, string_app_cons in Heq. subst x.
    cbn in Hx, Hv. apply andb_true_iff in Hv as [Hd _]. congruence.
  - rewrite string_app_nil_l, string_app_cons in Heq. subst y.
    cbn in Hy, Hu. apply andb_true_iff in Hu as [Hc _]. congruence.
  - rewrite !string_app_cons in Heq. injection Heq as -> Heq.
    cbn in Hu, Hv. apply andb_true_iff in Hu as [_ Hu].
    apply andb_true_iff in Hv as [_ Hv].
    destruct (IH v Heq Hu Hv Hx Hy) as [-> ->]. now split.
Qed.

(** The match in progress describes the text read so far. *)
Definition opening (pre : string) (open : option (nat * string)) : Prop :=
  match open with
  | Some (start, name) =>
      exists a, pre = a +:+ String "@" (String.rev name) /\
                String.length a = start /\ allWord name = true
  | None => True
  end.

Lemma opening_word (pre : string) (start : nat) (name : string) (c : ascii) :
  opening pre (Some (start, name)) -> isWordChar c = true ->
  opening (pre +:+ String c "") (Some (start, String c name)).
Proof.
  intros (a & -> & Hlen & Hword) Hc. exists a. split; [|split].
  - now rewrite rev_cons, string_app_assoc, string_app_cons.
  - exact Hlen.
  - cbn. now rewrite Hc, Hword.
Qed.

Lemma opening_next (pre : string) (c : ascii) :
  opening (pre +:+ String c "")
    (if isAt c then Some (String.length pre, EmptyString) else None).
Proof.
  destruct (isAt c) eqn:Hat; [|exact I].
  apply isAt_spec in Hat as ->. exists pre. now repeat split.
Qed.

Lemma closeMatch_sound (pre rest : string) (open : option (nat * string))
    (m : MessageMention) :
  opening pre open -> endsWord rest -> m ∈ closeMatch open ->
  mentionAt (pre +:+ rest) m.
Proof.
  destruct open as [[start [|c name]]|]; cbn [closeMatch];
    intros Hopen Hrest Hm; try now apply elem_of_nil in Hm.
  apply list_elem_of_singleton in Hm as ->.
  destruct Hopen as (a & -> & <- & Hword).
  exists a, (String.rev (String c name)), rest. split; [|split; [|split; [|split]]].
  - now rewrite string_app_assoc, string_app_cons.
  - apply rev_nonempty.
  - now rewrite allWord_rev.
  - exact Hrest.
  - reflexivity.
Qed.

Lemma scanMentions_sound (s : string) :
  forall (pre : string) (open : option (nat * string)) (m : MessageMention),
    opening pre open ->
    m ∈ scanMentions s (String.length pre) open ->
    mentionAt (pre +:+ s) m.
Proof.
  induction s as [|c rest IH]; intros pre open m Hopen Hm.
  - cbn [scanMentions] in Hm. now apply (closeMatch_sound pre "" open).
  - assert (Hnext : forall open',
              opening (pre +:+ String c "") open' ->
              m ∈ scanMentions rest (S (String.length pre)) open' ->
              mentionAt (pre +:+ String c rest) m).
    { intros open' Hopen' Hm'. rewrite <- string_app_snoc.
      apply (IH _ open'); [exact Hopen'|].
      now rewrite string_length_snoc. }
    cbn [scanMentions] in Hm. destruct open as [[start name]|].
    + destruct (isWordChar c) eqn:Hc.
      * apply (Hnext (Some (start, String c name))); [|exact Hm].
        now apply opening_word.
      * apply elem_of_app in Hm as [Hm|Hm].
        -- now apply (closeMatch_sound pre (String c rest) (Some (start, name))).
        -- eapply Hnext; [apply opening_next | exact Hm].
    + eapply Hnext; [apply opening_next | exact Hm].
Qed.

Lemma scanMentions_complete (s : string) :
  forall (pre : string) (open : option (nat * string)) (a name b : string),
    opening pre open ->
    pre +:+ s = a +:+ String "@" (name +:+ b) ->
    name <> "" -> allWord name = true -> endsWord b ->
    (String.length pre <= String.length a)%nat
    \/ (exists read, open = Some (String.length a, read) /\
                     pre = a +:+ String "@" (String.rev read)) ->
    mentionOf (String.length a) name ∈ scanMentions s (String.length pre) open.
Proof.
  induction s as [|c rest IH]; intros pre open a name b Hopen Htext Hname Hword
    Hend Hwhere.
  - rewrite string_app_nil_r in Htext. destruct Hwhere as [Hlen|(read & -> & Hpre)].
    + apply (f_equal String.length) in Htext.
      rewrite string_app_length in Htext. cbn in Htext. lia.
    + destruct Hopen as (a0 & _ & _ & Hread).
      rewrite Hpre in Htext. apply string_app_inv_head in Htext.
      injection Htext as Htext.
      rewrite <- (string_app_nil_r (String.rev read)) in Htext.
      destruct (word_run_unique _ _ _ _ Htext) as [Hrev _];
        [now rewrite allWord_rev | exact Hword | exact I | exact Hend |].
      cbn [scanMentions closeMatch]. destruct read as [|r read].
      * cbn in Hrev. congruence.
      * rewrite Hrev. left.
  - assert (Hnext : forall open',
              opening (pre +:+ String c "") open' ->
              (String.length (pre +:+ String c "") <= String.length a)%nat
              \/ (exists read, open' = Some (String.length a, read) /\
                               pre +:+ String c ""
                               = a +:+ String "@" (String.rev read)) ->
              mentionOf (String.length a) name
                ∈ scanMentions rest (S (String.length pre)) open').
    { intros open' Hopen' Hwhere'. rewrite <- (string_length_snoc pre c).
      apply (IH _ _ a name b); try assumption.
      now rewrite string_app_snoc. }
    cbn [scanMentions].
    destruct Hwhere as [Hlen|(read & -> & Hpre)].
    + destruct (decide (String.length pre = String.length a)) as [Heq|Hne].
      * destruct (string_app_same_length _ _ _ _ Htext Heq) as [-> Hrest].
        injection Hrest as -> ->.
        assert (Hhere : mentionOf (String.length a) name
                          ∈ scanMentions (name +:+ b) (S (String.length a))
                              (Some (String.length a, EmptyString))).
        { apply (Hnext (Some (String.length a, EmptyString))).
          - exists a. now repeat split.
          - right. exists EmptyString. now split. }
        destruct open as [[start read]|]; [|exact Hhere].
        cbn. apply elem_of_app. now right.
      * assert (Hfar : (String.length (pre +:+ String c "")
                        <= String.length a)%nat)
          by (rewrite string_length_snoc; lia).
        destruct open as [[start read]|].
        -- destruct (isWordChar c) eqn:Hc.
           ++ apply Hnext; [now apply opening_word | now left].
           ++ apply elem_of_app. right.
              apply Hnext; [apply opening_next | now left].
        -- apply Hnext; [apply opening_next | now left].
    + destruct Hopen as (a0 & _ & _ & Hread).
      rewrite Hpre, string_app_assoc, string_app_cons in Htext.
      apply string_app_inv_head in Htext. injection Htext as Htext.
      destruct (isWordChar c) eqn:Hc.
      * apply Hnext; [apply opening_word; [|exact Hc]|].
        -- exists a. now repeat split.
        -- right. exists (String c read). split; [reflexivity|].
           now rewrite Hpre, rev_cons, string_app_assoc, string_app_cons.
      * destruct (word_run_unique _ _ _ _ Htext) as [Hrev _];
          [now rewrite allWord_rev | exact Hword | exact Hc | exact Hend |].
        apply elem_of_app. left. cbn [closeMatch]. destruct read as [|r read].
        -- cbn in Hrev. congruence.
        -- rewrite Hrev. left.
Qed.

(** One mention ends before the other starts. *)
Definition precedes (x y : MessageMention) : Prop :=
  (startIndex x + mention_length x <= startIndex y)%nat.

Lemma ordered_app {A : Type} (R : A -> A -> Prop) (l1 l2 : list A) :
  ordered R l1 -> ordered R l2 ->
  (forall x y, x ∈ l1 -> y ∈ l2 -> R x y) ->
  ordered R (l1 ++ l2).
Proof.
  induction l1 as [|z l1 IH]; cbn; intros H1 H2 Hcross; [exact H2|].
  destruct H1 as [Hz H1]. split.
  - intros y Hy. apply elem_of_app in Hy as [Hy|Hy].
    + now apply Hz.
    + apply Hcross; [left | exact Hy].
  - apply IH; [exact H1 | exact H2|].
    intros x y Hx Hy. apply Hcross; [now right | exact Hy].
Qed.

(** The first index a mention of the rest of the scan can start at. *)
Definition scanFrom (index : nat) (open : option (nat * string)) : nat :=
  match open with
  | Some (start, _) => start
  | None => index
  end.

Lemma scanMentions_ordered (s : string) :
  forall (index : nat) (open : option (nat * string)),
    (forall start name, open = Some (start, name) ->
       (start + S (String.length name))%nat = index) ->
    ordered precedes (scanMentions s index open) /\
    forall m, m ∈ scanMentions s index open ->
      (scanFrom index open <= startIndex m)%nat.
Proof.
  assert (Hclose : forall index open,
    (forall start name, open = Some (start, name) ->
       (start + S (String.length name))%nat = index) ->
    ordered precedes (closeMatch open) /\
    forall m, m ∈ closeMatch open ->
      scanFrom index open = startIndex m /\
      (startIndex m + mention_length m)%nat = index).
  { intros index [[start [|c name]]|] Hopen; cbn [closeMatch]; split;
      try exact I; try (intros m Hm; now apply elem_of_nil in Hm).
    - split; [|exact I]. intros y Hy. now apply elem_of_nil in Hy.
    - intros m Hm. apply list_elem_of_singleton in Hm as ->.
      cbn [scanFrom mentionOf startIndex mention_length].
      split; [reflexivity|]. rewrite rev_length. now apply Hopen. }
  induction s as [|c rest IH]; intros index open Hopen.
  - cbn [scanMentions]. destruct (Hclose index open Hopen) as [Hord Hm].
    split; [exact Hord|]. intros m Hin. destruct (Hm m Hin) as [-> _]. lia.
  - assert (Hnext :
      ordered precedes
        (scanMentions rest (S index)
           (if isAt c then Some (index, EmptyString) else None)) /\
      forall m,
        m ∈ scanMentions rest (S index)
              (if isAt c then Some (index, EmptyString) else None) ->
        (index <= startIndex m)%nat).
    { destruct (IH (S index) (if isAt c then Some (index, EmptyString) else None))
        as [Hord Hlow].
      - intros start name Hs. destruct (isAt c); [|discriminate].
        injection Hs as <- <-. cbn. lia.
      - split; [exact Hord|]. intros m Hm. specialize (Hlow m Hm).
        destruct (isAt c); cbn in Hlow; lia. }
    cbn [scanMentions]. destruct open as [[start name]|].
    + assert (Hidx : (start + S (String.length name))%nat = index)
        by now apply Hopen.
      destruct (isWordChar c).
      * apply (IH (S index) (Some (start, String c name))).
        intros start' name' Hs. injection Hs as <- <-. cbn. lia.
      * destruct (Hclose index (Some (start, name)) Hopen) as [Hord Hm].
        destruct Hnext as [Hord' Hlow]. split.
        -- apply ordered_app; [exact Hord | exact Hord'|].
           intros x y Hx Hy. destruct (Hm x Hx) as [_ Hx'].
           specialize (Hlow y Hy). unfold precedes. lia.
        -- intros m Hin. cbn [scanFrom].
           apply elem_of_app in Hin as [Hin|Hin].
           ++ destruct (Hm m Hin) as [Hs _]. cbn in Hs. lia.
           ++ specialize (Hlow m Hin). lia.
    + exact Hnext.
Qed.

(** [extractMentions] finds exactly the maximal runs [@name] of the
    text: every mention it returns is the mention of such a run, with
    the index of its [@], the length of [@name], the type [all] for the
    names [all] and [here] and [agent] for every other name, and never
    a target id; every such run of the text is returned; and the
    mentions come in the order of the text, each ending before the
    next one starts. *)
Theorem extractMentions_matches (text : string) :
  (forall m, m ∈ extractMentions text <-> mentionAt text m) /\
  (forall i j x y, (i < j)%nat ->
     extractMentions text !! i = Some x -> extractMentions text !! j = Some y ->
     (startIndex x + mention_length x <= startIndex y)%nat).
Proof.
  unfold extractMentions. split.
  - intros m. split.
    + intros Hm. rewrite <- (string_app_nil_l text).
      apply (scanMentions_sound text "" None); [exact I | exact Hm].
    + intros (a & name & b & Htext & Hname & Hword & Hend & ->).
      apply (scanMentions_complete text "" None a name b); try assumption.
      * exact I.
      * left. cbn. lia.
  - apply (ordered_lookup precedes).
    apply scanMentions_ordered. intros start name Hs. discriminate Hs.
Qed.

End MessageLifecycle.


(** ** PresenceService: heartbeats, status changes, channels, activities *)

Section PresenceLifecycle.
Import Models PresenceService.

Lemma heartbeat_record (svc : PresenceService.t) (relay : option RelayClient.t)
    (agentId : string) (channels : option (list string)) (now : Z)
    (p : Presence) :
  presences svc !! agentId = Some p ->
  exists p1,
    (heartbeat svc relay agentId channels now).1
    = (true, set_presences svc (<[agentId := p1]> (presences svc))) /\
    lastHeartbeat p1 = now /\
    status p1 = match status p with IDLE => ONLINE | st => st end /\
    activeChannels p1 = default (activeChannels p) channels /\
    connection p1 = connection p /\
    activity p1 = activity p.
Proof.
  intros Hp. unfold heartbeat. rewrite Hp. cbn [status].
  destruct (status p) eqn:Hst;
    try (eexists; split; [reflexivity|]; cbn; rewrite ?Hst; now repeat split).
  unfold setStatus. cbn [presences set_presences]. rewrite lookup_insert_eq.
  cbn. eexists. split.
  - unfold set_presences. cbn. rewrite insert_insert_eq. reflexivity.
  - now repeat split.
Qed.

(** A heartbeat of a known agent stores the time of the beat and, when
    given, the list of active channels, and brings an idle agent back
    online.  The checker then leaves the record exactly as it is at
    every run up to 60 s after the beat, and does not remove it at any
    run up to 120 s after the beat: an agent that beats at least every
    60 s is never marked idle, and one that beats at least every 120 s
    is never disconnected by the checker. *)
Theorem heartbeat_keeps_alive (svc : PresenceService.t)
    (relay : option RelayClient.t) (agentId : string)
    (channels : option (list string)) (now later : Z) (p : Presence) :
  get svc agentId = Some p ->
  let beat := heartbeat svc relay agentId channels now in
  beat.1.1 = true /\
  exists p1,
    get beat.1.2 agentId = Some p1 /\
    lastHeartbeat p1 = now /\
    status p1 = match status p with IDLE => ONLINE | st => st end /\
    activeChannels p1 = default (activeChannels p) channels /\
    (later - now <= 60000 ->
     get (checkHeartbeats beat.1.2 beat.2 later).1 agentId = Some p1) /\
    (later - now <= 120000 ->
     exists p2,
       get (checkHeartbeats beat.1.2 beat.2 later).1 agentId = Some p2 /\
       connection p2 = connection p).
Proof.
  intros Hp beat. unfold get.
  destruct (heartbeat_record svc relay agentId channels now p Hp)
    as (p1 & Hbeat & Hhb & Hst & Hch & Hconn & _).
  fold beat in Hbeat.
  assert (H1 : beat.1.1 = true) by now rewrite Hbeat.
  assert (H2 : presences beat.1.2 !! agentId = Some p1).
  { rewrite Hbeat. cbn. apply lookup_insert_eq. }
  split; [exact H1|]. exists p1.
  split; [exact H2|]. split; [exact Hhb|]. split; [exact Hst|].
  split; [exact Hch|].
  rewrite checkHeartbeats_presences, H2. cbn.
  unfold transition, OFFLINE_TIMEOUT, IDLE_TIMEOUT. rewrite Hhb. split.
  - intros Hsoon.
    replace (later - now >? 120000) with false by (symmetry; lia).
    replace (later - now >? 60000) with false by (symmetry; lia).
    reflexivity.
  - intros Hsoon.
    replace (later - now >? 120000) with false by (symmetry; lia).
    cbn. destruct ((later - now >? 60000) && _); eexists; split;
      try reflexivity; exact Hconn.
Qed.

(** The checker leaves a record exactly as it is in three cases only:
    the last heartbeat is at most 60 s old; or it is at most 120 s old
    and the agent is not online (busy, do-not-disturb, idle); or the
    status is offline, whatever the age.  So an agent whose status was
    set to offline is never removed by the checker, and a busy agent
    is never marked idle but is removed after 120 s without a beat. *)
Theorem checkHeartbeats_spares (svc : PresenceService.t)
    (relay : option RelayClient.t) (now : Z) (agentId : string) (p : Presence) :
  get svc agentId = Some p ->
  (get (checkHeartbeats svc relay now).1 agentId = Some p
   <-> now - lastHeartbeat p <= 60000
       \/ (status p <> ONLINE /\ now - lastHeartbeat p <= 120000)
       \/ status p = OFFLINE).
Proof.
  unfold get. intros Hp. rewrite checkHeartbeats_presences, Hp. cbn.
  unfold transition, OFFLINE_TIMEOUT, IDLE_TIMEOUT.
  destruct (Z.gtb_spec (now - lastHeartbeat p) 120000) as [Hold|Hnew];
    destruct (Z.gtb_spec (now - lastHeartbeat p) 60000) as [Hold'|Hnew'];
    destruct p as [a pr st msg act hb chs ty tyc conn];
    cbn [status lastHeartbeat] in *; destruct st; cbn;
    split; intros H; try reflexivity; try discriminate H; try lia;
    try (right; right; reflexivity);
    try (right; left; split; [discriminate | lia]);
    try (left; lia);
    try (destruct H as [H|[[H H']|H]]; first [lia | congruence]).
Qed.

(** Connecting and then disconnecting leaves no record of the agent
    and touches no other agent's record; a disconnect of an agent that
    has no record, a second disconnect included, changes nothing and
    announces nothing. *)
Theorem connect_then_disconnect (svc : PresenceService.t)
    (relay : option RelayClient.t) (agentId : string) (info : ConnectionInfo)
    (uuid : string) (reason again : DisconnectReason) (now later last : Z) :
  let connected := connect svc relay agentId info uuid now in
  let gone := disconnect connected.1.2 connected.2 agentId reason later in
  get connected.1.2 agentId = Some connected.1.1 /\
  status connected.1.1 = ONLINE /\
  activeChannels connected.1.1 = [] /\
  lastHeartbeat connected.1.1 = now /\
  get gone.1 agentId = None /\
  (forall other, other <> agentId -> get gone.1 other = get svc other) /\
  disconnect gone.1 gone.2 agentId again last = gone.
Proof.
  intros connected gone. unfold get.
  assert (Hc : presences connected.1.2 !! agentId = Some connected.1.1)
    by apply lookup_insert_eq.
  split; [exact Hc|]. split; [reflexivity|]. split; [reflexivity|].
  split; [reflexivity|].
  assert (Hgone : gone = (set_presences connected.1.2
                            (base.delete agentId (presences connected.1.2)),
                          broadcastPresenceChange connected.2 agentId OFFLINE
                            (extra_reason reason) later))
    by (apply (disconnect_spec _ _ _ _ _ _ Hc)).
  assert (Hnone : presences gone.1 !! agentId = None).
  { rewrite Hgone. cbn. apply lookup_delete_eq. }
  split; [exact Hnone|]. split.
  - intros other Hother. rewrite Hgone. cbn.
    rewrite lookup_delete_ne, lookup_insert_ne by congruence. reflexivity.
  - unfold disconnect at 1. rewrite Hnone. now destruct gone.
Qed.

(** [setStatus] on a known agent always stores the status, replaces
    the status message (by none when none is given) and restarts the
    heartbeat clock; it announces only changes: with the status the
    agent already has, the relay is left as it was, and otherwise every
    registered agent with an open socket gets one presence frame that
    carries the new and the previous status. *)
Theorem setStatus_announces_changes_only (svc : PresenceService.t)
    (rc : RelayClient.t) (agentId : string) (st : PresenceStatus)
    (message : option string) (now : Z) (p : Presence) :
  get svc agentId = Some p ->
  let done := setStatus svc (Some rc) agentId st message now in
  done.1.1 = true /\
  (exists p1, get done.1.2 agentId = Some p1 /\
              status p1 = st /\ statusMessage p1 = message /\
              lastHeartbeat p1 = now /\
              activeChannels p1 = activeChannels p /\
              activity p1 = activity p) /\
  (status p = st -> done.2 = Some rc) /\
  (status p <> st ->
   exists rc',
     done.2 = Some rc' /\
     RelayClient.connections rc' = RelayClient.connections rc /\
     forall h,
       RelayClient.sockets rc' !! h
       = received (presenceFrame agentId st (extra_previousStatus (status p)) now)
           (boundTo rc h (recipients rc toAll))
           <$> RelayClient.sockets rc !! h).
Proof.
  intros Hp done. subst done. unfold get in *. unfold setStatus. rewrite Hp.
  cbn [fst snd]. split; [reflexivity|]. split; [|split].
  - eexists. cbn [presences set_presences]. rewrite lookup_insert_eq.
    split; [reflexivity|]. now repeat split.
  - intros ->. now destruct st.
  - intros Hne.
    assert (Hdiff : PresenceStatus_eqb (status p) st = false)
      by (destruct (status p), st; try reflexivity; congruence).
    rewrite Hdiff. cbn [broadcastPresenceChange fmap option_fmap option_map].
    eexists. split; [reflexivity|].
    destruct (push_effect rc toAll
                (presenceFrame agentId st (extra_previousStatus (status p)) now))
      as (Hc & _ & Hk).
    split; [exact Hc | exact Hk].
Qed.

(** An activity makes the agent busy and ending it makes the agent
    online: the status the agent had before the activity (idle,
    do-not-disturb, offline) is not restored, and neither is its status
    message.  Both calls restart the heartbeat clock. *)
Theorem activity_round_trip (svc : PresenceService.t)
    (relay : option RelayClient.t) (agentId activityType : string)
    (description contextId : option string) (now later : Z) (p : Presence) :
  get svc agentId = Some p ->
  let started :=
    startActivity svc relay agentId activityType description contextId now in
  let ended := endActivity started.1.2 started.2 agentId later in
  started.1.1 = true /\ ended.1.1 = true /\
  (exists p1, get started.1.2 agentId = Some p1 /\
              status p1 = BUSY /\ lastHeartbeat p1 = now /\
              activity p1 = Some {| activity_type := activityType;
                                    activity_description := description;
                                    activity_contextId := contextId;
                                    activity_startedAt := now |}) /\
  (exists p2, get ended.1.2 agentId = Some p2 /\
              status p2 = ONLINE /\ statusMessage p2 = None /\
              lastHeartbeat p2 = later /\ activity p2 = None /\
              activeChannels p2 = activeChannels p /\
              connection p2 = connection p).
Proof.
  intros Hp started ended. unfold get in *.
  assert (Hs : started.1 = (true,
            set_presences svc
              (<[agentId :=
                   {| p_agentId := p_agentId p; p_projectId := p_projectId p;
                      status := BUSY; statusMessage := None;
                      activity := Some {| activity_type := activityType;
                                          activity_description := description;
                                          activity_contextId := contextId;
                                          activity_startedAt := now |};
                      lastHeartbeat := now; activeChannels := activeChannels p;
                      isTyping := isTyping p;
                      typingInChannel := typingInChannel p;
                      connection := connection p |}]> (presences svc)))).
  { subst started. unfold startActivity. rewrite Hp. unfold setStatus.
    cbn [presences set_presences]. rewrite lookup_insert_eq. cbn.
    unfold set_presences. cbn. now rewrite insert_insert_eq. }
  assert (Hs1 : started.1.1 = true) by now rewrite Hs.
  assert (Hs2 : presences started.1.2 !! agentId = Some _)
    by (rewrite Hs; cbn; apply lookup_insert_eq).
  split; [exact Hs1|].
  split; [subst ended; unfold endActivity; rewrite Hs2;
          unfold setStatus; cbn [presences set_presences];
          now rewrite lookup_insert_eq|].
  split; [eexists; split; [exact Hs2|]; now repeat split|].
  subst ended. unfold endActivity. rewrite Hs2. unfold setStatus.
  cbn [presences set_presences]. rewrite lookup_insert_eq.
  cbn [fst snd presences set_presences]. rewrite lookup_insert_eq.
  eexists. split; [reflexivity|]. now repeat split.
Qed.

(** [joinChannel] adds the channel to the active channels of a known
    agent unless it is there already, so a list without repetitions
    stays so and a second join changes nothing; [leaveChannel] then
    removes every occurrence of the channel and keeps the other
    channels in their order. *)
Theorem active_channels_tracking (svc : PresenceService.t)
    (agentId channelId : string) (p : Presence) :
  get svc agentId = Some p ->
  let joined := joinChannel svc agentId channelId in
  let left := leaveChannel joined.2 agentId channelId in
  joined.1 = true /\ left.1 = true /\
  (exists p1,
      get joined.2 agentId = Some p1 /\
      (forall c, c ∈ activeChannels p1 <-> c = channelId \/ c ∈ activeChannels p) /\
      (NoDup (activeChannels p) -> NoDup (activeChannels p1)) /\
      status p1 = status p /\ lastHeartbeat p1 = lastHeartbeat p) /\
  joinChannel joined.2 agentId channelId = (true, joined.2) /\
  (exists p2,
      get left.2 agentId = Some p2 /\
      activeChannels p2 = filter (fun id => id <> channelId) (activeChannels p) /\
      channelId ∉ activeChannels p2).
Proof.
  intros Hp joined left. unfold get in *.
  assert (Hj : exists p1,
             joined.1 = true /\ presences joined.2 !! agentId = Some p1 /\
             channelId ∈ activeChannels p1 /\
             (activeChannels p1 = activeChannels p
              \/ ((channelId ∉ activeChannels p)
                  /\ activeChannels p1 = activeChannels p ++ [channelId])) /\
             status p1 = status p /\ lastHeartbeat p1 = lastHeartbeat p).
  { subst joined. unfold joinChannel. rewrite Hp.
    destruct (bool_decide (channelId ∈ activeChannels p)) eqn:Hin.
    - apply bool_decide_eq_true in Hin. exists p. cbn. repeat split; auto.
    - apply bool_decide_eq_false in Hin. eexists. cbn.
      rewrite lookup_insert_eq. split; [reflexivity|]. split; [reflexivity|].
      cbn. split; [apply elem_of_app; right; left|].
      split; [right; split; [exact Hin | reflexivity]|]. now split. }
  destruct Hj as (p1 & Hj1 & Hj2 & Hin & Hshape & Hst & Hhb).
  assert (Hfilter : filter (fun id => id <> channelId) (activeChannels p1)
                    = filter (fun id => id <> channelId) (activeChannels p)).
  { destruct Hshape as [->|[_ ->]]; [reflexivity|].
    rewrite filter_app, filter_cons_False by tauto.
    rewrite filter_nil. apply app_nil_r. }
  split; [exact Hj1|].
  split; [subst left; unfold leaveChannel; now rewrite Hj2|].
  split; [|split].
  - exists p1. split; [exact Hj2|]. split; [|split; [|now split]].
    + intros c. destruct Hshape as [Heq|[_ Heq]]; rewrite Heq.
      * split; [now right|]. intros [->|Hc]; [now rewrite <- Heq | exact Hc].
      * rewrite elem_of_app, list_elem_of_singleton. tauto.
    + intros Hnd. destruct Hshape as [->|[Hout ->]]; [exact Hnd|].
      apply NoDup_app. split; [exact Hnd|]. split.
      * intros x Hx Hx'. apply list_elem_of_singleton in Hx' as ->. contradiction.
      * apply NoDup_singleton.
  - unfold joinChannel. rewrite Hj2.
    now rewrite bool_decide_eq_true_2 by exact Hin.
  - subst left. unfold leaveChannel. rewrite Hj2. cbn.
    rewrite lookup_insert_eq. eexists. split; [reflexivity|]. cbn.
    split; [exact Hfilter|].
    intros Hc. apply list_elem_of_filter in Hc as [Hc _]. now apply Hc.
Qed.

End PresenceLifecycle.

(** *** On a concrete run *)

Section LifecycleExamples.
Import Models MessageService.

Lemma send_stores_and_indexes_witness :
  exists m svc' relay',
    send concatMac opsMessages None None helloInput "agent-1" "u1"
      "2026-01-01T00:00:00.000Z" 5
    = (Returned m, svc', relay') /\
    msg_id m = "msg-u1" /\ getById svc' "msg-u1" = Some m.
Proof.
  destruct (send_stores_and_indexes concatMac opsMessages None None helloInput
              "agent-1" "u1" "2026-01-01T00:00:00.000Z" 5)
    as (m & svc' & relay' & Hsend & Hid & _ & _ & _ & _ & _ & _ & _ & Hget & _).
  - intros _ c Hc. discriminate Hc.
  - exists m, svc', relay'. split; [exact Hsend|]. split; [exact Hid|].
    rewrite Hid in Hget. exact Hget.
Defined.

(** A relay on which [Lead] and [Worker1] are registered, each with
    an open socket, and both are subscribed to the ops channel. *)
Definition openSocket : RelayClient.WebSocket :=
  {| RelayClient.readyState := RelayClient.OPEN; RelayClient.sentFrames := [] |}.

Definition watchedRelay : RelayClient.t :=
  RelayClient.subscribeToChannel
    (RelayClient.subscribeToChannel
       (RelayClient.set_sockets
          (RelayClient.registerConnection
             (RelayClient.registerConnection RelayClient.empty "Lead" 1)
             "Worker1" 2)
          {[ 1%nat := openSocket; 2%nat := openSocket ]})
       "Lead" "ch-ops")
    "Worker1" "ch-ops".

(** The frames an agent has been sent on its socket. *)
Definition framesOf (rc : RelayClient.t) (agentId : string)
    : option (list WSMessage) :=
  h ← RelayClient.connections rc !! agentId;
  RelayClient.sentFrames <$> RelayClient.sockets rc !! h.

(** [Worker1] sends to the ops channel while both watch it. *)
Definition watchedHello : Outcome Message * MessageService.t * option RelayClient.t :=
  send concatMac opsMessages (Some opsService) (Some watchedRelay) helloInput
    "Worker1" "0001" "2026-01-01T00:00:00.000Z" 0.

Definition helloMessage : Message :=
  ltac:(let r := eval vm_compute in watchedHello.1.1 in
        match r with Returned ?m => exact m end).

(** The frame with the message arrives once on the socket of each
    subscriber, the sender's too. *)
Lemma send_delivery_witness :
  exists rc',
    watchedHello = (Returned helloMessage, watchedHello.1.2, Some rc') /\
    framesOf rc' "Lead" = Some [messageFrame helloMessage 0] /\
    framesOf rc' "Worker1" = Some [messageFrame helloMessage 0].
Proof.
  assert (Hsent : send concatMac opsMessages (Some opsService) (Some watchedRelay)
                    helloInput "Worker1" "0001" "2026-01-01T00:00:00.000Z" 0
                  = (Returned helloMessage, watchedHello.1.2, watchedHello.2)).
  { vm_compute. reflexivity. }
  destruct (send_delivery concatMac opsMessages _ (Some opsService)
              watchedRelay _ helloInput "Worker1" "0001"
              "2026-01-01T00:00:00.000Z" 0 _ Hsent)
    as (rc' & Hrelay & Hconn & _ & Hsockets & _).
  exists rc'. split.
  { unfold watchedHello in *. rewrite Hsent. now rewrite Hrelay. }
  unfold framesOf. rewrite Hconn.
  assert (H1 : RelayClient.connections watchedRelay !! "Lead" = Some 1%nat)
    by (vm_compute; reflexivity).
  assert (H2 : RelayClient.connections watchedRelay !! "Worker1" = Some 2%nat)
    by (vm_compute; reflexivity).
  rewrite H1, H2. cbn [mbind option_bind]. rewrite !Hsockets.
  split; vm_compute; reflexivity.
Defined.

(** A clock reading for the listings: the length of the timestamp. *)
Definition stamp (s : string) : Z := Z.of_nat (String.length s).

Lemma sent_message_listed_witness :
  exists m,
    sentHello.1.1 = Returned m /\
    m ∈ getChannelMessages stamp sentHello.1.2 "ch-ops" None None.
Proof.
  eexists. split; [reflexivity|].
  destruct (sent_message_listed concatMac stamp opsMessages _ (Some opsService)
              (Some RelayClient.empty) _ helloInput "Worker1" "0001"
              "2026-01-01T00:00:00.000Z" 0 _ eq_refl) as [_ Hchannel].
  apply (Hchannel None); [reflexivity|]. vm_compute. discriminate.
Defined.

Definition deletedHello : Outcome bool * MessageService.t * option RelayClient.t :=
  delete sentHello.1.2 sentHello.2 "msg-0001" "Worker1"
    "2026-01-01T00:09:00.000Z" 540000.

Lemma delete_is_soft_witness :
  deletedHello.1.1 = Returned true /\
  exists m',
    getById deletedHello.1.2 "msg-0001" = Some m' /\
    deletedAt m' = Some "2026-01-01T00:09:00.000Z" /\
    m' ∉ getChannelMessages stamp deletedHello.1.2 "ch-ops" None None.
Proof.
  destruct (delete_is_soft concatMac stamp sentHello.1.2 sentHello.2 "msg-0001"
              "Worker1" "2026-01-01T00:09:00.000Z" 540000 _ eq_refl eq_refl)
    as (Hdone & _ & _ & m' & Hget & Hdeleted & _ & _ & _ & Hhidden & _).
  - discriminate.
  - split; [exact Hdone|]. exists m'. split; [exact Hget|].
    split; [exact Hdeleted | apply Hhidden].
Defined.

Definition directInput : MessageSendInput :=
  {| in_targetId := "Lead"; in_targetType := target_agent;
     in_type := None; in_text := "psst"; in_data := None;
     in_threadId := None; in_correlationId := None |}.

(** After the message to the ops channel, [Worker1] sends a direct
    message to [Lead]. *)
Definition watchedDirect : Outcome Message * MessageService.t * option RelayClient.t :=
  send concatMac watchedHello.1.2 (Some opsService) watchedHello.2 directInput
    "Worker1" "0002" "2026-01-01T00:01:00.000Z" 60000.

Definition directMessage : Message :=
  ltac:(let r := eval vm_compute in watchedDirect.1.1 in
        match r with Returned ?m => exact m end).

Definition bothStored : MessageService.t :=
  ltac:(let r := eval vm_compute in watchedDirect.1.2 in exact r).

Definition bothPushed : RelayClient.t :=
  ltac:(let r := eval vm_compute in watchedDirect.2 in
        match r with Some ?rc => exact rc end).

(** Deleting the channel message puts one event frame behind the
    frames already on the socket of each subscriber; editing the direct
    message puts nothing on the socket of [Lead], which is open and has
    received the direct message itself. *)
Lemma change_events_follow_subscriptions_witness :
  watchedDirect = (Returned directMessage, bothStored, Some bothPushed) /\
  framesOf bothPushed "Lead"
  = Some [messageFrame helloMessage 0; messageFrame directMessage 60000] /\
  framesOf bothPushed "Worker1" = Some [messageFrame helloMessage 0] /\
  (exists rc1 deleted,
      (delete bothStored (Some bothPushed) "msg-0001" "Worker1"
         "2026-01-01T00:09:00.000Z" 540000).2 = Some rc1 /\
      ws_type deleted = ws_event /\
      framesOf rc1 "Lead"
      = Some [messageFrame helloMessage 0; messageFrame directMessage 60000;
              deleted] /\
      framesOf rc1 "Worker1" = Some [messageFrame helloMessage 0; deleted]) /\
  (edit concatMac bothStored (Some bothPushed) "msg-0002" "hush" "Worker1"
     "2026-01-01T00:09:00.000Z" 540000).2 = Some bothPushed.
Proof.
  split; [vm_compute; reflexivity|].
  split; [vm_compute; reflexivity|].
  split; [vm_compute; reflexivity|].
  assert (H1 : RelayClient.connections bothPushed !! "Lead" = Some 1%nat)
    by (vm_compute; reflexivity).
  assert (H2 : RelayClient.connections bothPushed !! "Worker1" = Some 2%nat)
    by (vm_compute; reflexivity).
  split.
  - destruct (change_events_follow_subscriptions concatMac bothStored bothPushed
                "msg-0001" "bye" "Worker1" "2026-01-01T00:09:00.000Z" 540000
                helloMessage eq_refl eq_refl _ (or_intror eq_refl))
      as (rc1 & deleted & Hrelay & Htype & Hconn & _ & Hsockets & _).
    exists rc1, deleted. split; [exact Hrelay|]. split; [exact Htype|].
    unfold framesOf. rewrite Hconn, H1, H2. cbn [mbind option_bind].
    rewrite !Hsockets. split; vm_compute; reflexivity.
  - destruct (change_events_follow_subscriptions concatMac bothStored bothPushed
                "msg-0002" "hush" "Worker1" "2026-01-01T00:09:00.000Z" 540000
                directMessage eq_refl eq_refl _ (or_introl eq_refl))
      as (rc2 & edited & Hrelay & _ & _ & _ & _ & Hsame).
    rewrite Hrelay. f_equal. apply Hsame; [discriminate | vm_compute; reflexivity].
Defined.

Lemma read_is_final_witness :
  exists m,
    getById sentHello.1.2 "msg-0001" = Some m /\
    getById (markRead sentHello.1.2 "msg-0001" "Lead") "msg-0001"
    = Some (set_deliveryStatus m READ_).
Proof.
  eexists. split; [reflexivity|].
  destruct (read_is_final sentHello.1.2 "msg-0001" "Lead" "Lead" _ eq_refl)
    as (Hread & _).
  exact Hread.
Defined.

Lemma deleted_message_still_editable_witness :
  (edit concatMac deletedHello.1.2 deletedHello.2 "msg-0001" "bye" "Worker1"
     "2026-01-01T00:10:00.000Z" 600000).1.1 = Returned true.
Proof.
  destruct (deleted_message_still_editable concatMac sentHello.1.2 sentHello.2
              "msg-0001" "Worker1" "2026-01-01T00:09:00.000Z"
              "2026-01-01T00:10:00.000Z" "bye" 540000 600000 _ eq_refl eq_refl)
    as (Hedited & _).
  exact Hedited.
Defined.

(** The presence service after [agent-1] connected at time 0. *)
Definition oneOnline : PresenceService.t :=
  (PresenceService.connect (PresenceService.new "p") (Some RelayClient.empty)
     "agent-1" apiClient "uuid-1" 0).1.2.

Lemma heartbeat_keeps_alive_witness :
  (PresenceService.heartbeat oneOnline None "agent-1" (Some ["ch-ops"]) 50000).1.1
  = true.
Proof.
  destruct (heartbeat_keeps_alive oneOnline None "agent-1" (Some ["ch-ops"])
              50000 110000 _ eq_refl) as (Hbeat & _).
  exact Hbeat.
Defined.

Lemma checkHeartbeats_spares_witness :
  exists p,
    PresenceService.get oneOnline "agent-1" = Some p /\
    PresenceService.get
      (PresenceService.checkHeartbeats oneOnline None 60000).1 "agent-1"
    = Some p.
Proof.
  eexists. split; [reflexivity|].
  apply (checkHeartbeats_spares oneOnline None 60000 "agent-1" _ eq_refl).
  left. vm_compute. discriminate.
Defined.

(** [agent-1] turns busy while [Lead] and [Worker1] are connected:
    each of their sockets gets the one presence frame, with the new and
    the previous status; setting the same status again sends nothing. *)
Lemma setStatus_announces_changes_only_witness :
  exists rc1,
    (PresenceService.setStatus oneOnline (Some watchedRelay) "agent-1"
       BUSY None 40000).2 = Some rc1 /\
    framesOf rc1 "Lead"
    = Some [PresenceService.presenceFrame "agent-1" BUSY
              (extra_previousStatus ONLINE) 40000] /\
    framesOf rc1 "Worker1"
    = Some [PresenceService.presenceFrame "agent-1" BUSY
              (extra_previousStatus ONLINE) 40000] /\
    (PresenceService.setStatus
       (PresenceService.setStatus oneOnline (Some watchedRelay) "agent-1"
          BUSY None 40000).1.2
       (Some rc1) "agent-1" BUSY None 50000).2 = Some rc1.
Proof.
  destruct (setStatus_announces_changes_only oneOnline watchedRelay
              "agent-1" BUSY None 40000 _ eq_refl)
    as (_ & _ & _ & Hchanged).
  destruct Hchanged as (rc1 & Hrelay & Hconn & Hsockets); [discriminate|].
  exists rc1. split; [exact Hrelay|].
  assert (H1 : RelayClient.connections watchedRelay !! "Lead" = Some 1%nat)
    by (vm_compute; reflexivity).
  assert (H2 : RelayClient.connections watchedRelay !! "Worker1" = Some 2%nat)
    by (vm_compute; reflexivity).
  unfold framesOf. rewrite Hconn, H1, H2. cbn [mbind option_bind].
  rewrite !Hsockets.
  split; [vm_compute; reflexivity|]. split; [vm_compute; reflexivity|].
  destruct (setStatus_announces_changes_only
              (PresenceService.setStatus oneOnline (Some watchedRelay) "agent-1"
                 BUSY None 40000).1.2
              rc1 "agent-1" BUSY None 50000 _ eq_refl)
    as (_ & _ & Hsilent & _).
  apply Hsilent. reflexivity.
Defined.

Lemma activity_round_trip_witness :
  (PresenceService.startActivity oneOnline None "agent-1" "coding" None None
     10000).1.1 = true.
Proof.
  destruct (activity_round_trip oneOnline None "agent-1" "coding" None None
              10000 20000 _ eq_refl) as (Hstarted & _).
  exact Hstarted.
Defined.

Lemma active_channels_tracking_witness :
  (PresenceService.joinChannel oneOnline "agent-1" "ch-ops").1 = true.
Proof.
  destruct (active_channels_tracking oneOnline "agent-1" "ch-ops" _ eq_refl)
    as (Hjoined & _).
  exact Hjoined.
Defined.

End LifecycleExamples.
